(** * Slide-challenge solver: a shallow embedding of [src/core/slider_captcha.py]

    The Python class [SliderCaptcha] is embedded function by function.
    Python [float] is IEEE 754 binary64; it is modelled bit-exactly by the
    Standard Library's [spec_float] operations at precision 53 and maximal
    exponent 1024.  Python [int] is [Z].  Every call that leaves the
    process (WebDriver, the image matcher, base64 decoding) is an oracle of
    a [World] record; the calls made and the answers received are recorded
    in a trace. *)

From Stdlib Require Import ZArith List Bool Lia String Ascii.
From Stdlib Require Import Reals Lra.
From Stdlib Require Import Floats.SpecFloat.
Import ListNotations.
Open Scope Z_scope.

(** ** Exceptions and outcomes *)

(** The Python exception classes that occur in the module.  All of them are
    subclasses of [Exception]. *)
Inductive exn : Type :=
| OverflowError
| ValueError
| TypeError
| KeyError
| AttributeError
| BinasciiError
| TimeoutException
| MoveTargetOutOfBoundsException
| WebDriverException
| MatcherException.

(** The answer of a fallible pure operation or of an oracle. *)
Inductive reply (A : Type) : Type :=
| Ok (a : A)
| Err (e : exn).
Arguments Ok {A} a.
Arguments Err {A} e.

(** ** IEEE 754 binary64 *)

Module F64.

Definition prec : Z := 53.
Definition emax : Z := 1024.

Definition float : Type := spec_float.

Definition add : float -> float -> float := SFadd prec emax.
Definition sub : float -> float -> float := SFsub prec emax.
Definition mul : float -> float -> float := SFmul prec emax.
Definition div : float -> float -> float := SFdiv prec emax.
Definition sqrt : float -> float := SFsqrt prec emax.
Definition ltb : float -> float -> bool := SFltb.
Definition leb : float -> float -> bool := SFleb.

(** The nearest binary64 to the integer [n] (ties to even); an infinity
    when [n] is beyond the largest finite value. *)
Definition of_Z (n : Z) : float := binary_normalize prec emax n 0 false.

Definition zero : float := S754_zero false.
Definition one : float := of_Z 1.
(** The literal [0.5]. *)
Definition half : float := S754_finite false 4503599627370496 (-53).
(** The literal [0.1], that is 0x1.999999999999ap-4. *)
Definition tenth : float := S754_finite false 7205759403792794 (-56).

(** [float(n)] for an [int]: Python raises [OverflowError] instead of
    producing an infinity. *)
Definition py_float (n : Z) : reply float :=
  match of_Z n with
  | S754_infinity _ => Err OverflowError
  | x => Ok x
  end.

(** Exact order between a float and an integer: Python compares a [float]
    with an [int] by value, without rounding the [int]. *)
Definition compare_Z (x : float) (n : Z) : option comparison :=
  match x with
  | S754_nan => None
  | S754_infinity s => Some (if s then Lt else Gt)
  | S754_zero _ => Some (0 ?= n)
  | S754_finite s m e =>
      let sm := if s then Zneg m else Zpos m in
      match e with
      | Zneg p => Some (sm ?= n * Z.pow_pos 2 p)
      | _ => Some (sm * 2 ^ e ?= n)
      end
  end.

(** [x < n] and [x > n] for a float [x] and an int [n]. *)
Definition lt_Z (x : float) (n : Z) : bool :=
  match compare_Z x n with Some Lt => true | _ => false end.
Definition gt_Z (x : float) (n : Z) : bool :=
  match compare_Z x n with Some Gt => true | _ => false end.

(** Python's two-argument [max(a, b)]: [b] when [b > a], else [a]. *)
Definition py_max (a b : float) : float := if ltb a b then b else a.

(** [round(x)] with one argument: the nearest integer, ties to even.
    [ValueError] on a NaN, [OverflowError] on an infinity. *)
Definition py_round (x : float) : reply Z :=
  match x with
  | S754_nan => Err ValueError
  | S754_infinity _ => Err OverflowError
  | S754_zero _ => Ok 0
  | S754_finite s m e =>
      let mag :=
        match e with
        | Zneg p =>
            let d := Z.pow_pos 2 p in
            let q := Zpos m / d in
            let r := Zpos m mod d in
            match 2 * r ?= d with
            | Lt => q
            | Gt => q + 1
            | Eq => if Z.even q then q else q + 1
            end
        | _ => Zpos m * 2 ^ e
        end in
      Ok (if s then - mag else mag)
  end.

(** [int(x)]: truncation toward zero. *)
Definition py_int (x : float) : reply Z :=
  match x with
  | S754_nan => Err ValueError
  | S754_infinity _ => Err OverflowError
  | S754_zero _ => Ok 0
  | S754_finite s m e =>
      let mag :=
        match e with
        | Zneg p => Zpos m / Z.pow_pos 2 p
        | _ => Zpos m * 2 ^ e
        end in
      Ok (if s then - mag else mag)
  end.

End F64.

Definition float : Type := F64.float.

(** ** Outcomes of a Python call

    A call returns, raises, or (in this embedding) runs out of the fuel that
    bounds the iterations of the [while] loop of [generate_track]. *)
Inductive outcome (A : Type) : Type :=
| Returns (a : A)
| Raises (e : exn)
| OutOfFuel.
Arguments Returns {A} a.
Arguments Raises {A} e.
Arguments OutOfFuel {A}.

Definition of_reply {A} (r : reply A) : outcome A :=
  match r with
  | Ok a => Returns a
  | Err e => Raises e
  end.

(** ** The trajectory synthesizer: [generate_track] *)

Definition sum (l : list Z) : Z := fold_right Z.add 0 l.

(** The state of the simulation loop: [current], [v] and [raw_track]. *)
Record sim : Type := {
  current : float;
  v : float;
  raw_track : list float
}.

(** The constants [a1 = 50.0], [a2 = -50.0] and [t = 0.1]. *)
Definition a1 : float := F64.of_Z 50.
Definition a2 : float := F64.of_Z (-50).
Definition t : float := F64.tenth.

(** One pass through the body of [while current < target_distance].
    [target] is [float(target_distance)], used by the subtraction
    [target_distance - current]. *)
Definition track_step (target_distance : Z) (target mid_distance : float)
    (s : sim) : sim :=
  let a := if F64.ltb (current s) mid_distance then a1 else a2 in
  let v_old := v s in
  let v' := F64.py_max F64.zero (F64.add v_old (F64.mul a t)) in
  let move :=
    F64.add (F64.mul v_old t) (F64.mul (F64.mul (F64.mul F64.half a) t) t) in
  let move :=
    if F64.gt_Z (F64.add (current s) move) target_distance
    then F64.sub target (current s)
    else move in
  let current' := F64.add (current s) move in
  let raw' :=
    if F64.leb F64.half move then raw_track s ++ [move] else raw_track s in
  {| current := current'; v := v'; raw_track := raw' |}.

(** The [while] loop; [None] when the fuel is spent before the loop exits. *)
Fixpoint track_loop (fuel : nat) (target_distance : Z)
    (target mid_distance : float) (s : sim) : option sim :=
  if F64.lt_Z (current s) target_distance then
    match fuel with
    | O => None
    | S fuel' =>
        track_loop fuel' target_distance target mid_distance
          (track_step target_distance target mid_distance s)
    end
  else Some s.

(** [mid_distance = 0.5 * a1 * t_acc * t_acc] with
    [t_acc = math.sqrt(max(target_distance / a1, 0.0))]. *)
Definition mid_distance_of (target : float) : float :=
  let t_acc := F64.sqrt (F64.py_max (F64.div target a1) F64.zero) in
  F64.mul (F64.mul (F64.mul F64.half a1) t_acc) t_acc.

(** [[max(1, int(round(step))) for step in raw_track]] *)
Fixpoint round_steps (raw : list float) : reply (list Z) :=
  match raw with
  | [] => Ok []
  | step :: rest =>
      match F64.py_round step with
      | Err e => Err e
      | Ok n =>
          match round_steps rest with
          | Err e => Err e
          | Ok l => Ok (Z.max 1 n :: l)
          end
      end
  end.

(** [track[-1] = max(1, track[-1] + delta)] *)
Fixpoint fix_last (track : list Z) (delta : Z) : list Z :=
  match track with
  | [] => []
  | [x] => [Z.max 1 (x + delta)]
  | x :: rest => x :: fix_last rest delta
  end.

(** [generate_track(distance)], for an [int] argument ([int(round(distance))]
    is then [distance] itself). *)
Definition generate_track (fuel : nat) (distance : Z) : outcome (list Z) :=
  let target_distance := distance in
  if target_distance <=? 0 then Returns []
  else
    match F64.py_float target_distance with
    | Err e => Raises e
    | Ok target =>
        let mid_distance := mid_distance_of target in
        match track_loop fuel target_distance target mid_distance
                {| current := F64.zero; v := F64.zero; raw_track := [] |} with
        | None => OutOfFuel
        | Some s =>
            let raw :=
              match raw_track s with
              | [] => [target]
              | _ => raw_track s
              end in
            match round_steps raw with
            | Err e => Raises e
            | Ok track =>
                let delta := target_distance - sum track in
                Returns (fix_last track delta)
            end
        end
    end.

(** ** Values exchanged with the browser *)

Definition bytes : Type := list Byte.byte.

Set Warnings "-register-all".

(** A JSON value, as [execute_script] hands it back to Python ([null] is
    [None], an object is a [dict], here an association list). *)
Inductive js_value : Type :=
| JNull
| JBool (b : bool)
| JNum (x : float)
| JStr (s : string)
| JArr (items : list js_value)
| JObj (fields : list (string * js_value)).

(** Python truthiness of such a value. *)
Definition truthy (x : js_value) : bool :=
  match x with
  | JNull => false
  | JBool b => b
  | JNum (S754_zero _) => false
  | JNum _ => true
  | JStr s => negb (String.eqb s EmptyString)
  | JArr items => match items with [] => false | _ => true end
  | JObj fields => match fields with [] => false | _ => true end
  end.

Fixpoint assoc (key : string) (fields : list (string * js_value))
    : option js_value :=
  match fields with
  | [] => None
  | (k, x) :: rest => if String.eqb k key then Some x else assoc key rest
  end.

(** [result.get(key, default)]: [AttributeError] unless [result] is a
    [dict]. *)
Definition dict_get (result : js_value) (key : string) (default : js_value)
    : reply js_value :=
  match result with
  | JObj fields =>
      match assoc key fields with
      | Some x => Ok x
      | None => Ok default
      end
  | _ => Err AttributeError
  end.

(** [result[key]] on a value already known to answer [.get]. *)
Definition dict_item (result : js_value) (key : string) : reply js_value :=
  match result with
  | JObj fields =>
      match assoc key fields with
      | Some x => Ok x
      | None => Err KeyError
      end
  | _ => Err TypeError
  end.

(** What the format specification [:.4f] accepts: a number ([bool] is a
    subclass of [int]). *)
Definition format_f (x : js_value) : reply float :=
  match x with
  | JNum r => Ok r
  | JBool b => Ok (if b then F64.one else F64.zero)
  | JStr _ => Err ValueError
  | _ => Err TypeError
  end.

(** ** The Automation Surface *)

Inductive locator : Type := SLIDER_CAPTCHA_POPUP | SLIDER_BUTTON.

(** The three JavaScript snippets of the module. *)
Inductive script : Type := BgImageScript | SliderImageScript | ScaleRatioScript.

Definition element : Type := nat.

(** The entries of an [ActionChains] queue. *)
Inductive gesture : Type :=
| ClickAndHold (on : element)
| MoveByOffset (xoffset yoffset : Z)
| Release.

(** Texts written with [print] or [logger.error]; a constructor per call
    site, carrying the values interpolated there. *)
Inductive message : Type :=
| MsgImagesUnavailable
| MsgScaleHeader
| MsgScaleOriginal (original_width : js_value)
| MsgScaleDisplayed (displayed_width : js_value)
| MsgScaleRatio (ratio : float)
| MsgScaleFallback (error_msg : js_value)
| MsgScaleException (e : exn)
| MsgDragOutOfBounds (e : exn)
| MsgDragException (e : exn)
| MsgPopupAbsent (e : exn)
| MsgAttempt (attempt : Z)
| MsgAttemptNoImages (attempt : Z)
| MsgRecognized (distance : Z)
| MsgDistanceTooSmall (distance : Z)
| MsgAdjusted (adjusted_distance : Z) (scale_ratio : float)
| MsgFinal (final_distance margin : Z)
| MsgEmptyTrack (attempt final_distance : Z)
| MsgTrack (points : nat) (total_move : Z)
| MsgDragFailed (attempt : Z)
| MsgDragDone
| MsgSuccess
| MsgRetry
| MsgVerifyFailed (attempt : Z)
| MsgExhausted (max_attempts : Z).

(** One observable step, with the answer the surface gave. *)
Inductive event : Type :=
| EvSleep (milliseconds : Z)
| EvWait (target : locator) (timeout : Z) (r : reply element)
| EvScript (code : script) (r : reply js_value)
| EvMatch (slider background : bytes) (r : reply Z)
| EvPerform (batch : list gesture) (r : reply unit)
| EvFind (target : locator) (r : reply (list element))
| EvPrint (m : message)
| EvLogError (m : message).

Definition trace : Type := list event.

(** The collaborators of [SliderCaptcha].  Each oracle sees the history so
    far, so a world may answer differently from call to call. *)
Record World : Type := {
  (** [WebDriverWait(driver, timeout).until(presence_of_element_located(..))] *)
  wait_present : locator -> Z -> trace -> reply element;
  (** [driver.execute_script(code)] *)
  execute_script : script -> trace -> reply js_value;
  (** [slide_match(slider, background, simple_target=True)['target'][0]] *)
  slide_match : bytes -> bytes -> trace -> reply Z;
  (** the W3C actions request sent by [ActionChains.perform()] *)
  perform_actions : list gesture -> trace -> reply unit;
  (** [driver.find_elements(By.XPATH, ..)] *)
  find_elements : locator -> trace -> reply (list element);
  (** [base64.b64decode] *)
  b64decode : string -> reply bytes
}.

(** The two tunables read from [settings]. *)
Record Settings : Type := {
  SLIDER_DISTANCE_OFFSET : Z;
  SLIDER_SAFE_MARGIN : Z
}.

(** [src/config/settings.py] sets both to 0. *)
Definition settings : Settings :=
  {| SLIDER_DISTANCE_OFFSET := 0; SLIDER_SAFE_MARGIN := 0 |}.

(** ** The state threaded through the methods

    [log] is the history; [chain] is the queue of the [ActionChains] object
    that [drag_slider] builds. *)
Record state : Type := {
  log : trace;
  chain : list gesture
}.

Definition M (A : Type) : Type := state -> outcome A * state.

Definition ret {A} (a : A) : M A := fun s => (Returns a, s).
Definition raise {A} (e : exn) : M A := fun s => (Raises e, s).
Definition bind {A B} (c : M A) (k : A -> M B) : M B :=
  fun s =>
    match c s with
    | (Returns a, s') => k a s'
    | (Raises e, s') => (Raises e, s')
    | (OutOfFuel, s') => (OutOfFuel, s')
    end.

Notation "x <- c ;; k" := (bind c (fun x => k))
  (at level 61, c at next level, right associativity).
Notation "c ;;; k" := (bind c (fun _ => k))
  (at level 61, right associativity).

(** [try: c  except Exception as e: h e] *)
Definition try_except {A} (c : M A) (h : exn -> M A) : M A :=
  fun s =>
    match c s with
    | (Raises e, s') => h e s'
    | r => r
    end.

(** [try: c  finally: f], for an [f] that does not raise. *)
Definition try_finally {A} (c : M A) (f : M unit) : M A :=
  fun s =>
    match c s with
    | (r, s') => (r, snd (f s'))
    end.

Definition emit (e : event) : M unit :=
  fun s => (Returns tt, {| log := log s ++ [e]; chain := chain s |}).

Definition lift {A} (r : reply A) : M A := fun s => (of_reply r, s).

Definition sleep (milliseconds : Z) : M unit := emit (EvSleep milliseconds).
Definition print (m : message) : M unit := emit (EvPrint m).
Definition logger_error (m : message) : M unit := emit (EvLogError m).

(** An oracle call: ask with the history so far, record the answer, then
    return it or raise. *)
Definition ask {A} (oracle : trace -> reply A) (record : reply A -> event)
    : M A :=
  fun s =>
    let r := oracle (log s) in
    (of_reply r, {| log := log s ++ [record r]; chain := chain s |}).

Section Methods.

Variable cfg : Settings.
Variable w : World.

(** *** [get_slider_images_from_api] *)

Definition base64_marker : string := "base64,".

(** ['base64,' in s] *)
Definition has_marker (s : string) : bool :=
  match index 0 base64_marker s with Some _ => true | None => false end.

(** [s.split('base64,')[1]], used where the marker occurs in [s]. *)
Definition after_marker (s : string) : string :=
  match index 0 base64_marker s with
  | Some i =>
      let from := (i + String.length base64_marker)%nat in
      let rest := substring from (String.length s - from) s in
      match index 0 base64_marker rest with
      | Some j => substring 0 j rest
      | None => rest
      end
  | None => s
  end.

Definition strip_marker (s : string) : string :=
  if has_marker s then after_marker s else s.

(** The text of a truthy script result; anything but a [str] makes
    ['base64,' in x] or [b64decode(x)] raise [TypeError]. *)
Definition as_text (x : js_value) : reply string :=
  match x with
  | JStr s => Ok s
  | _ => Err TypeError
  end.

Definition get_slider_images_from_api : M (option bytes * option bytes) :=
  sleep 1000 ;;;
  bg_base64 <- ask (execute_script w BgImageScript) (EvScript BgImageScript) ;;
  slider_base64 <-
    ask (execute_script w SliderImageScript) (EvScript SliderImageScript) ;;
  if negb (truthy bg_base64) || negb (truthy slider_base64) then
    logger_error MsgImagesUnavailable ;;;
    ret (None, None)
  else
    bg_text <- lift (as_text bg_base64) ;;
    slider_text <- lift (as_text slider_base64) ;;
    bg_bytes <- lift (b64decode w (strip_marker bg_text)) ;;
    slider_bytes <- lift (b64decode w (strip_marker slider_text)) ;;
    ret (Some bg_bytes, Some slider_bytes).

(** *** [recognize_distance] *)

Definition recognize_distance (bg_bytes slider_bytes : bytes) : M Z :=
  distance <- ask (slide_match w slider_bytes bg_bytes)
                  (EvMatch slider_bytes bg_bytes) ;;
  ret (distance + SLIDER_DISTANCE_OFFSET cfg).

(** *** [calculate_scale_ratio] *)

Definition calculate_scale_ratio : M float :=
  try_except
    (result <- ask (execute_script w ScaleRatioScript)
                   (EvScript ScaleRatioScript) ;;
     success <-
       (if truthy result then lift (dict_get result "success" JNull)
        else ret result) ;;
     if truthy success then
       original_width <- lift (dict_item result "originalWidth") ;;
       displayed_width <- lift (dict_item result "displayedWidth") ;;
       ratio <- lift (dict_item result "ratio") ;;
       print MsgScaleHeader ;;;
       print (MsgScaleOriginal original_width) ;;;
       print (MsgScaleDisplayed displayed_width) ;;;
       r <- lift (format_f ratio) ;;
       print (MsgScaleRatio r) ;;;
       ret r
     else
       error_msg <-
         (if truthy result
          then lift (dict_get result "error" (JStr "未知错误"))
          else ret (JStr "脚本返回空")) ;;
       print (MsgScaleFallback error_msg) ;;;
       ret F64.one)
    (fun e =>
       logger_error (MsgScaleException e) ;;;
       ret F64.one).

(** *** [drag_slider] *)

(** [action = ActionChains(self.driver)]: a fresh, empty queue. *)
Definition new_chain : M unit :=
  fun s => (Returns tt, {| log := log s; chain := [] |}).

(** The builder methods [click_and_hold], [move_by_offset] and [release]
    only append to the queue. *)
Definition enqueue (g : gesture) : M unit :=
  fun s => (Returns tt, {| log := log s; chain := chain s ++ [g] |}).

(** [action.perform()]: the queued gestures go to the surface in one
    request and the queue is emptied; the request may raise. *)
Definition perform : M unit :=
  fun s =>
    let r := perform_actions w (chain s) (log s) in
    (of_reply r, {| log := log s ++ [EvPerform (chain s) r]; chain := [] |}).

(** [for i, move in enumerate(track)], from index [i] on; [len] is
    [len(track)]. *)
Fixpoint replay (len i : nat) (track : list Z) : M unit :=
  match track with
  | [] => ret tt
  | move :: rest =>
      enqueue (MoveByOffset move 0) ;;;
      (if Nat.eqb ((i + 1) mod 5) 0 || Nat.eqb i (len - 1)
       then perform else ret tt) ;;;
      replay len (S i) rest
  end.

Definition drag_slider (track : list Z) : M bool :=
  slider_btn <- ask (wait_present w SLIDER_BUTTON 10) (EvWait SLIDER_BUTTON 10) ;;
  new_chain ;;;
  try_finally
    (try_except
       (enqueue (ClickAndHold slider_btn) ;;;
        perform ;;;
        replay (List.length track) 0 track ;;;
        enqueue Release ;;;
        perform ;;;
        ret true)
       (fun exc =>
          match exc with
          | MoveTargetOutOfBoundsException =>
              logger_error (MsgDragOutOfBounds exc)
          | _ => logger_error (MsgDragException exc)
          end ;;;
          ret false))
    (enqueue Release).

(** *** [verify_result] *)

Definition verify_result (timeout : Z) : M bool :=
  sleep timeout ;;;
  slider_popups <- ask (find_elements w SLIDER_CAPTCHA_POPUP)
                       (EvFind SLIDER_CAPTCHA_POPUP) ;;
  match slider_popups with
  | [] => ret true
  | _ => ret false
  end.

(** *** [handle_slider_captcha] *)

(** [int(distance * scale_ratio)] *)
Definition adjust_distance (distance : Z) (scale_ratio : float) : reply Z :=
  match F64.py_float distance with
  | Err e => Err e
  | Ok x => F64.py_int (F64.mul x scale_ratio)
  end.

(** [not b] for an optional byte string. *)
Definition no_bytes (b : option bytes) : bool :=
  match b with
  | Some (_ :: _) => false
  | _ => true
  end.

Definition bytes_of (b : option bytes) : bytes :=
  match b with
  | Some l => l
  | None => []
  end.

(** The body of [for attempt in range(1, max_attempts + 1)] is embedded in
    two parts.  In both, [true] stands for [return True] and [false] for
    reaching [continue] or the end of the body.

    Steps 4 to 8: correct the distance, generate the track, drag, verify. *)
Definition attempt_tail (fuel : nat) (attempt distance : Z)
    (scale_ratio : float) : M bool :=
  adjusted_distance <- lift (adjust_distance distance scale_ratio) ;;
  print (MsgAdjusted adjusted_distance scale_ratio) ;;;
  let final_distance := adjusted_distance - SLIDER_SAFE_MARGIN cfg in
  print (MsgFinal final_distance (SLIDER_SAFE_MARGIN cfg)) ;;;
  track <- (fun s => (generate_track fuel final_distance, s)) ;;
  match track with
  | [] =>
      logger_error (MsgEmptyTrack attempt final_distance) ;;;
      sleep 500 ;;;
      ret false
  | _ =>
      print (MsgTrack (List.length track) (sum track)) ;;;
      dragged <- drag_slider track ;;
      if negb dragged then
        logger_error (MsgDragFailed attempt) ;;;
        sleep 500 ;;;
        ret false
      else
        print MsgDragDone ;;;
        verified <- verify_result 1000 ;;
        if verified then
          print MsgSuccess ;;;
          ret true
        else
          print MsgRetry ;;;
          logger_error (MsgVerifyFailed attempt) ;;;
          sleep 500 ;;;
          ret false
  end.

(** Steps 1 to 3: acquire the images, recognise the distance, measure the
    scale; then the steps above. *)
Definition attempt_body (fuel : nat) (attempt : Z) : M bool :=
  print (MsgAttempt attempt) ;;;
  images <- get_slider_images_from_api ;;
  let bg_bytes := fst images in
  let slider_bytes := snd images in
  if no_bytes bg_bytes || no_bytes slider_bytes then
    logger_error (MsgAttemptNoImages attempt) ;;;
    sleep 500 ;;;
    ret false
  else
    distance <- recognize_distance (bytes_of bg_bytes) (bytes_of slider_bytes) ;;
    print (MsgRecognized distance) ;;;
    (if distance <? 20 then print (MsgDistanceTooSmall distance) else ret tt) ;;;
    sleep 100 ;;;
    scale_ratio <- calculate_scale_ratio ;;
    attempt_tail fuel attempt distance scale_ratio.

(** [remaining] further passes of the loop, the next one numbered
    [attempt]; [true] when a pass returned [True]. *)
Fixpoint attempts (fuel remaining : nat) (attempt : Z) : M bool :=
  match remaining with
  | O => ret false
  | S remaining' =>
      solved <- attempt_body fuel attempt ;;
      if solved then ret true
      else attempts fuel remaining' (attempt + 1)
  end.

Definition handle_slider_captcha (fuel : nat) (max_attempts : Z) : M bool :=
  shown <-
    try_except
      (ask (wait_present w SLIDER_CAPTCHA_POPUP 10)
           (EvWait SLIDER_CAPTCHA_POPUP 10) ;;;
       sleep 200 ;;;
       ret true)
      (fun e =>
         logger_error (MsgPopupAbsent e) ;;;
         ret false) ;;
  if negb shown then ret false
  else
    solved <- attempts fuel (Z.to_nat max_attempts) 1 ;;
    if solved then ret true
    else
      logger_error (MsgExhausted max_attempts) ;;;
      ret false.

End Methods.

(** ** The JavaScript of [calculate_scale_ratio]

    What the snippet finds under the id of the background image: nothing,
    or an element with its [naturalWidth] (absent on an element that is
    not an image) and its [clientWidth]. *)
Inductive bg_img : Type :=
| NoElement
| BgElement (naturalWidth : option Z) (clientWidth : Z).

(** The object the snippet returns.  A property that is [undefined] and a
    quotient that is [NaN] both reach Python as [None]. *)
Definition js_scale_script (dom : bg_img) : js_value :=
  match dom with
  | NoElement =>
      JObj [("success"%string, JBool false); ("error"%string, JStr "找不到背景图元素")]
  | BgElement (Some 0) _ =>
      JObj [("success"%string, JBool false); ("error"%string, JStr "原始宽度为0")]
  | BgElement (Some originalWidth) displayedWidth =>
      JObj [("success"%string, JBool true);
            ("originalWidth"%string, JNum (F64.of_Z originalWidth));
            ("displayedWidth"%string, JNum (F64.of_Z displayedWidth));
            ("ratio"%string, JNum (F64.div (F64.of_Z displayedWidth)
                                    (F64.of_Z originalWidth)))]
  | BgElement None displayedWidth =>
      JObj [("success"%string, JBool true);
            ("originalWidth"%string, JNull);
            ("displayedWidth"%string, JNum (F64.of_Z displayedWidth));
            ("ratio"%string, JNull)]
  end.

(** ** Observations on a trace *)

Definition count (p : event -> bool) (tr : trace) : nat :=
  List.length (filter p tr).

(** A call of the Image Source: [get_slider_images_from_api] opens with the
    background snippet. *)
Definition is_image_call (e : event) : bool :=
  match e with EvScript BgImageScript _ => true | _ => false end.

(** A call of the Offset Recognizer's matcher. *)
Definition is_match_call (e : event) : bool :=
  match e with EvMatch _ _ _ => true | _ => false end.

(** A call of the Outcome Verifier. *)
Definition is_verify_call (e : event) : bool :=
  match e with EvFind SLIDER_CAPTCHA_POPUP _ => true | _ => false end.

(** Any request of the Drag Executor: the lookup of the handle or a flush
    of the gesture queue. *)
Definition is_drag_event (e : event) : bool :=
  match e with
  | EvWait SLIDER_BUTTON _ _ => true
  | EvPerform _ _ => true
  | _ => false
  end.

(** The start of a pass of the retry loop. *)
Definition is_attempt (e : event) : bool :=
  match e with EvPrint (MsgAttempt _) => true | _ => false end.

Definition is_empty_track_log (e : event) : bool :=
  match e with EvLogError (MsgEmptyTrack _ _) => true | _ => false end.

Definition is_release (g : gesture) : bool :=
  match g with Release => true | _ => false end.

(** The release gestures that reached the surface. *)
Definition releases_issued (tr : trace) : nat :=
  fold_right
    (fun e n =>
       match e with
       | EvPerform batch _ => (List.length (filter is_release batch) + n)%nat
       | _ => n
       end) O tr.

(** The press gestures that the surface accepted. *)
Definition presses_accepted (tr : trace) : nat :=
  fold_right
    (fun e n =>
       match e with
       | EvPerform batch (Ok _) =>
           (List.length
              (filter (fun g => match g with ClickAndHold _ => true | _ => false end)
                      batch) + n)%nat
       | _ => n
       end) O tr.

(** *** No stale image

    A monitor over the trace.  It remembers the answers of the two image
    snippets since the last matcher call; a matcher call is accepted when
    its two buffers decode from exactly those answers, and it consumes
    them.  [None] is the rejecting state. *)
Record fresh : Type := {
  fresh_bg : option js_value;
  fresh_slider : option js_value
}.

Definition no_fresh : fresh := {| fresh_bg := None; fresh_slider := None |}.

Definition decodes_to (w : World) (x : option js_value) (b : bytes) : bool :=
  match x with
  | Some (JStr s) =>
      match b64decode w (strip_marker s) with
      | Ok b' =>
          if list_eq_dec Byte.byte_eq_dec b b' then true else false
      | Err _ => false
      end
  | _ => false
  end.

Definition fresh_step (w : World) (st : option fresh) (e : event)
    : option fresh :=
  match st with
  | None => None
  | Some f =>
      match e with
      | EvScript BgImageScript (Ok x) =>
          Some {| fresh_bg := Some x; fresh_slider := None |}
      | EvScript SliderImageScript (Ok x) =>
          Some {| fresh_bg := fresh_bg f; fresh_slider := Some x |}
      | EvMatch slider background _ =>
          if decodes_to w (fresh_bg f) background
             && decodes_to w (fresh_slider f) slider
          then Some no_fresh
          else None
      | _ => Some f
      end
  end.

Definition images_fresh (w : World) (tr : trace) : bool :=
  match fold_left (fresh_step w) tr (Some no_fresh) with
  | Some _ => true
  | None => false
  end.

(** ** The correction pipeline as the specification words it

    [corrected = round(raw_offset * scale_ratio)], rounding to nearest, and
    [target = corrected - safety_margin]. *)
Definition spec_correct (raw_offset : Z) (scale_ratio : float)
    (safety_margin : Z) : reply Z :=
  match F64.py_float raw_offset with
  | Err e => Err e
  | Ok x =>
      match F64.py_round (F64.mul x scale_ratio) with
      | Err e => Err e
      | Ok corrected => Ok (corrected - safety_margin)
      end
  end.

(** The same pipeline as [handle_slider_captcha] computes it. *)
Definition correct (raw_offset : Z) (scale_ratio : float)
    (safety_margin : Z) : reply Z :=
  match adjust_distance raw_offset scale_ratio with
  | Err e => Err e
  | Ok adjusted_distance => Ok (adjusted_distance - safety_margin)
  end.

Definition start : state := {| log := []; chain := [] |}.

(** ** Test doubles

    Worlds that answer the same way at every call, used to evaluate the
    methods on concrete inputs. *)

Definition sample_src : string := "data:image/png;base64,AQ==".
Definition sample_bytes : bytes := [Byte.x01].

Definition stub_b64decode (s : string) : reply bytes :=
  if String.eqb s "AQ==" then Ok sample_bytes else Err BinasciiError.

Definition has_move (batch : list gesture) : bool :=
  existsb (fun g => match g with MoveByOffset _ _ => true | _ => false end)
          batch.

Record Stub : Type := {
  stub_popup : reply element;
  stub_handle : reply element;
  stub_match : reply Z;
  stub_scale : reply js_value;
  stub_move : reply unit;
  stub_popups_after : list element
}.

Definition stub_world (c : Stub) : World := {|
  wait_present := fun target _ _ =>
    match target with
    | SLIDER_CAPTCHA_POPUP => stub_popup c
    | SLIDER_BUTTON => stub_handle c
    end;
  execute_script := fun code _ =>
    match code with
    | ScaleRatioScript => stub_scale c
    | _ => Ok (JStr sample_src)
    end;
  slide_match := fun _ _ _ => stub_match c;
  perform_actions := fun batch _ =>
    if has_move batch then stub_move c else Ok tt;
  find_elements := fun _ _ => Ok (stub_popups_after c);
  b64decode := stub_b64decode
|}.

(** Everything works, and the popup is still there after each drag. *)
Definition calm : Stub := {|
  stub_popup := Ok 1%nat;
  stub_handle := Ok 2%nat;
  stub_match := Ok 200;
  stub_scale := Ok (js_scale_script (BgElement (Some 400) 400));
  stub_move := Ok tt;
  stub_popups_after := [1%nat]
|}.

(** The matcher raises. *)
Definition matcher_raises : Stub := {|
  stub_popup := Ok 1%nat;
  stub_handle := Ok 2%nat;
  stub_match := Err MatcherException;
  stub_scale := stub_scale calm;
  stub_move := Ok tt;
  stub_popups_after := [1%nat]
|}.

(** The drag handle never shows up. *)
Definition handle_missing : Stub := {|
  stub_popup := Ok 1%nat;
  stub_handle := Err TimeoutException;
  stub_match := Ok 200;
  stub_scale := stub_scale calm;
  stub_move := Ok tt;
  stub_popups_after := [1%nat]
|}.

(** Any move leaves the interactive surface. *)
Definition move_out_of_bounds : Stub := {|
  stub_popup := Ok 1%nat;
  stub_handle := Ok 2%nat;
  stub_match := Ok 200;
  stub_scale := stub_scale calm;
  stub_move := Err MoveTargetOutOfBoundsException;
  stub_popups_after := [1%nat]
|}.

(** The matcher finds the notch at offset 0: nothing to drag. *)
Definition notch_at_origin : Stub := {|
  stub_popup := Ok 1%nat;
  stub_handle := Ok 2%nat;
  stub_match := Ok 0;
  stub_scale := stub_scale calm;
  stub_move := Ok tt;
  stub_popups_after := [1%nat]
|}.

(** The scale query raises. *)
Definition scale_query_raises : Stub := {|
  stub_popup := Ok 1%nat;
  stub_handle := Ok 2%nat;
  stub_match := Ok 200;
  stub_scale := Err WebDriverException;
  stub_move := Ok tt;
  stub_popups_after := [1%nat]
|}.

(** The popup never appears. *)
Definition popup_absent : Stub := {|
  stub_popup := Err TimeoutException;
  stub_handle := Ok 2%nat;
  stub_match := Ok 200;
  stub_scale := stub_scale calm;
  stub_move := Ok tt;
  stub_popups_after := []
|}.

(** ** Auxiliary notions for the statements *)

(** The two ways [calculate_scale_ratio] reports that it fell back. *)
Definition is_scale_warning (e : event) : bool :=
  match e with
  | EvPrint (MsgScaleFallback _) => true
  | EvLogError (MsgScaleException _) => true
  | _ => false
  end.

(** The answers of the scale query under which no native width is to be
    had: the query raises, the element is missing, it has no natural
    width, or its natural width is 0. *)
Inductive width_unusable : reply js_value -> Prop :=
| query_raises e : width_unusable (Err e)
| no_element : width_unusable (Ok (js_scale_script NoElement))
| no_width c : width_unusable (Ok (js_scale_script (BgElement None c)))
| zero_width c : width_unusable (Ok (js_scale_script (BgElement (Some 0) c))).

(** Events that concern neither the images, the matcher, the verifier, the
    drag, nor the bookkeeping of attempts. *)
Definition quiet (e : event) : bool :=
  match e with
  | EvScript BgImageScript _ => false
  | EvScript SliderImageScript _ => false
  | EvMatch _ _ _ => false
  | EvFind SLIDER_CAPTCHA_POPUP _ => false
  | EvWait SLIDER_BUTTON _ _ => false
  | EvPerform _ _ => false
  | EvLogError (MsgEmptyTrack _ _) => false
  | EvPrint (MsgAttempt _) => false
  | _ => true
  end.

(** Events of the Drag Executor. *)
Definition drag_only (e : event) : bool :=
  match e with
  | EvWait SLIDER_BUTTON _ _ => true
  | EvPerform _ _ => true
  | _ => false
  end.

(** A computation only appends to the log. *)
Definition grows {A} (m : M A) : Prop :=
  forall s, exists evs, log (snd (m s)) = log s ++ evs.

(** The exact value of a finite float as a fraction with a positive
    denominator. *)
Definition exact_fraction (x : float) : option (Z * Z) :=
  match x with
  | S754_zero _ => Some (0, 1)
  | S754_finite s m e =>
      let sm := if s then Zneg m else Zpos m in
      Some (sm * 2 ^ Z.max e 0, 2 ^ Z.max (- e) 0)
  | _ => None
  end.

(** The literal [0.75]. *)
Definition three_quarters : float := S754_finite false 6755399441055744 (-53).


(** ** Auxiliary notions for the trajectory proof *)

(** Number of binary digits of a positive number. *)
Definition dig (p : positive) : Z := Zpos (digits2_pos p).

(** [p * 2 ^ k] as a positive number. *)
Definition shl (p : positive) (k : Z) : positive :=
  match k with
  | Zpos j => Pos.iter xO p j
  | _ => p
  end.

(** The canonical float of value [(-1)^s * p * 2^e], for [p] of at most 53
    digits. *)
Definition nf (s : bool) (p : positive) (e : Z) : float :=
  S754_finite s (shl p (53 - dig p)) (e - (53 - dig p)).

(** The float of value [k / 4]. *)
Definition quarter (k : Z) : float :=
  match k with
  | 0 => S754_zero false
  | Zpos p => nf false p (-2)
  | Zneg p => nf true p (-2)
  end.

Definition signed (s : bool) (p : positive) : Z := if s then Zneg p else Zpos p.

(** [round(m / 4)], ties to even. *)
Definition round_quarters (m : Z) : Z :=
  let q := m / 4 in
  match m mod 4 ?= 2 with
  | Lt => q
  | Gt => q + 1
  | Eq => if Z.even q then q else q + 1
  end.

(** *** The loop in quarter units

    While the target is below [2^50] every float of the loop is a multiple
    of 0.25 that binary64 holds exactly: [current] is [c / 4], [v] is
    [5 * j], a step is [m / 4]. *)

Record qsim : Type := {
  qcurrent : Z;
  qv : Z;
  qraw : list Z
}.

Definition embed (s : qsim) : sim :=
  {| current := quarter (qcurrent s);
     v := quarter (20 * qv s);
     raw_track := map quarter (qraw s) |}.

(** [current < mid_distance] at [current = c / 4]. *)
Definition below (mid_distance : float) (c : Z) : bool :=
  F64.ltb (quarter c) mid_distance.

Definition qstep (target_distance : Z) (mid_distance : float) (s : qsim)
    : qsim :=
  let accelerating := below mid_distance (qcurrent s) in
  let j := qv s in
  let j' := if accelerating then j + 1 else Z.max 0 (j - 1) in
  let move := if accelerating then 2 * j + 1 else 2 * j - 1 in
  let move :=
    if 4 * target_distance <? qcurrent s + move
    then 4 * target_distance - qcurrent s
    else move in
  {| qcurrent := qcurrent s + move;
     qv := j';
     qraw := if 2 <=? move then qraw s ++ [move] else qraw s |}.

Fixpoint qloop (fuel : nat) (target_distance : Z) (mid_distance : float)
    (s : qsim) : option qsim :=
  if qcurrent s <? 4 * target_distance then
    match fuel with
    | O => None
    | S fuel' =>
        qloop fuel' target_distance mid_distance
          (qstep target_distance mid_distance s)
    end
  else Some s.

(** [max(1, int(round(step)))] on a step of [m] quarters. *)
Definition rounded (m : Z) : Z := Z.max 1 (round_quarters m).

(** Four times the rounded sum so far, minus the distance covered. *)
Definition drift (s : qsim) : Z := 4 * sum (map rounded (qraw s)) - qcurrent s.

Definition steps_ok (D : Z) (s : qsim) : Prop :=
  Forall (fun m => 2 <= m <= 4 * D) (qraw s).

(** The invariant of the loop while [current < target_distance]: either
    the motion has only accelerated so far, or it is decelerating and the
    velocity left suffices to reach the target. *)
Definition running (D : Z) (mid : float) (s : qsim) : Prop :=
  let c := qcurrent s in
  let j := qv s in
  0 <= c < 4 * D /\ 0 <= j /\ j * j <= 4 * D /\ steps_ok D s /\
  ((c = j * j /\ drift s = - (j mod 2)) \/
   (below mid c = false /\ 4 * D <= c + j * j /\
    (drift s - j mod 2 = 0 \/ drift s - j mod 2 = -2))).

(** The state in which the loop exits. *)
Definition arrived (D : Z) (s : qsim) : Prop :=
  qcurrent s = 4 * D /\ steps_ok D s /\ -4 <= drift s <= 3.

(** *** Values as real numbers *)

Definition bpow (e : Z) : R := powerRZ 2 e.

(** The value of a positive float of mantissa [m] and exponent [e]. *)
Definition pval (m : positive) (e : Z) : R := (IZR (Zpos m) * bpow e)%R.

(** The unit roundoff bound [2^-52]. *)
Definition u : R := bpow (-52).

(** * Further observations *)

(** ** Observations on a drag *)

(** The gestures that reached the surface, request after request. *)
Definition gestures_sent (tr : trace) : list gesture :=
  flat_map (fun e => match e with EvPerform batch _ => batch | _ => [] end) tr.

(** The sizes of the requests. *)
Definition batch_sizes (tr : trace) : list nat :=
  flat_map
    (fun e => match e with EvPerform batch _ => [List.length batch] | _ => [] end)
    tr.

(** A request of [ActionChains.perform()]. *)
Definition is_perform (e : event) : bool :=
  match e with EvPerform _ _ => true | _ => false end.

(** A request that the surface accepted. *)
Definition is_accepted (e : event) : bool :=
  match e with EvPerform _ (Ok _) => true | _ => false end.

(** The whole gesture sequence of a drag along [track]: press on the
    handle, the moves in order, release. *)
Definition drag_gestures (slider_btn : element) (track : list Z)
    : list gesture :=
  ClickAndHold slider_btn
    :: map (fun move => MoveByOffset move 0) track ++ [Release].

(** What [drag_slider] logs when [exc] is raised inside its [try]. *)
Definition drag_error (exc : exn) : message :=
  match exc with
  | MoveTargetOutOfBoundsException => MsgDragOutOfBounds exc
  | _ => MsgDragException exc
  end.

(** The horizontal distance covered by the moves that reached the
    surface. *)
Definition moved (tr : trace) : Z :=
  sum (flat_map
         (fun g => match g with MoveByOffset x _ => [x] | _ => [] end)
         (gestures_sent tr)).

(** ** The stages of an attempt *)

Inductive stage : Type := Attempt | Images | Matcher | Drag | Verifier.

(** The event that opens each stage: the announcement of the attempt, the
    background snippet of the Image Source, the matcher call, the lookup of
    the drag handle, the popup query of the verifier. *)
Definition stage_of (e : event) : option stage :=
  match e with
  | EvPrint (MsgAttempt _) => Some Attempt
  | EvScript BgImageScript _ => Some Images
  | EvMatch _ _ _ => Some Matcher
  | EvWait SLIDER_BUTTON _ _ => Some Drag
  | EvFind SLIDER_CAPTCHA_POPUP _ => Some Verifier
  | _ => None
  end.

Definition stages (tr : trace) : list stage :=
  flat_map (fun e => match stage_of e with Some st => [st] | None => [] end) tr.

(** Events that open no stage and announce no attempt. *)
Definition plain (e : event) : bool :=
  match stage_of e with
  | Some _ => false
  | None => true
  end.

(** The order of the stages in the body of the retry loop. *)
Definition pipeline : list stage := [Attempt; Images; Matcher; Drag; Verifier].

(** A pass of the loop runs the stages in the order of the pipeline, up to
    the stage at which it stops; it reaches at least the Image Source. *)
Definition block_ok (b : list stage) : Prop :=
  (2 <= List.length b)%nat /\ exists rest, b ++ rest = pipeline.

(** The numbers of the attempts announced. *)
Definition attempt_numbers (tr : trace) : list Z :=
  flat_map (fun e => match e with EvPrint (MsgAttempt k) => [k] | _ => [] end)
           tr.

(** [range(first, first + n)] *)
Fixpoint py_range (first : Z) (n : nat) : list Z :=
  match n with
  | O => []
  | S n' => first :: py_range (first + 1) n'
  end.

(** The popup is gone after the first drag. *)
Definition popup_gone : Stub := {|
  stub_popup := Ok 1%nat;
  stub_handle := Ok 2%nat;
  stub_match := Ok 200;
  stub_scale := stub_scale calm;
  stub_move := Ok tt;
  stub_popups_after := []
|}.

(** ** Text of a data URI *)

(** [c in s] for a character [c]. *)
Fixpoint mentions (c : ascii) (s : string) : bool :=
  match s with
  | EmptyString => false
  | String a s' => Ascii.eqb a c || mentions c s'
  end.

(** Neither image is available yet: both image snippets answer [null]. *)
Definition blank_world : World := {|
  wait_present := wait_present (stub_world calm);
  execute_script := fun code tr =>
    match code with
    | ScaleRatioScript => execute_script (stub_world calm) code tr
    | _ => Ok JNull
    end;
  slide_match := slide_match (stub_world calm);
  perform_actions := perform_actions (stub_world calm);
  find_elements := find_elements (stub_world calm);
  b64decode := b64decode (stub_world calm)
|}.

(** The time asked of [time.sleep] by the calls written in
    [slider_captcha.py], in milliseconds.  What a [WebDriverWait] sleeps
    between two polls happens inside the wait (an [EvWait]) and is not
    counted. *)
Definition slept (tr : trace) : Z :=
  fold_right
    (fun e total => match e with EvSleep ms => ms + total | _ => total end)
    0 tr.

(** The background image is in the page but is not displayed: its
    [clientWidth] is 0. *)
Definition image_hidden : Stub := {|
  stub_popup := Ok 1%nat;
  stub_handle := Ok 2%nat;
  stub_match := Ok 200;
  stub_scale := Ok (js_scale_script (BgElement (Some 400) 0));
  stub_move := Ok tt;
  stub_popups_after := [1%nat]
|}.

(** ** The pace of the simulation loop

    After [n] passes of the loop, in quarter units: at most [n] steps were
    kept; and either the motion has only accelerated, so the velocity
    index is [n], or it is decelerating from a peak [J]. *)
Definition paced (D : Z) (mid : float) (n : Z) (s : qsim) : Prop :=
  Z.of_nat (List.length (qraw s)) <= n /\ 0 <= n /\
  ((n = qv s /\ qcurrent s = qv s * qv s) \/
   (below mid (qcurrent s) = false /\
    exists J, 0 <= J /\ J * J < 4 * D /\ n + qv s <= 2 * J)).

(** * The caller: [src/utils/element_helper.py] and
      [src/core/reservation_handler.py]

    [ReservationHandler.reserve] is the one caller of
    [handle_slider_captcha].  It drives the page through [ElementHelper].
    The page is a second set of oracles, with a history of its own; the
    run of the slide-challenge solver appears in that history as one
    event that carries the solver's trace. *)

Module Reservation.

(** The locators of [settings.XPath] that the flow uses.  The three
    locators built from a value stand for the XPath text that
    [get_room_xpath], [get_seat_xpath] and [generate_date_xpath] format. *)
Record date_info : Type := {
  year : Z;
  month : Z;
  day : Z
}.

Inductive xpath : Type :=
| SEAT_SELECT_TAB
| ROOM_LIST
| DATE_PICKER
| CALENDAR_GRID
| CONFIRM_DATE_BUTTON
| SEAT_MAP
| SEAT_ITEM
| CONFIRM_BUTTON
| CAPTCHA_POPUP
| SUCCESS_MESSAGE
| get_room_xpath (room_name : string)
| get_seat_xpath (seat_number : Z)
| generate_date_xpath (info : date_info).

(** [settings.TARGET_ROOM] *)
Definition TARGET_ROOM : string := "研学中心学生工位".

(** The expected conditions of [selenium.webdriver.support]. *)
Inductive expected_condition : Type :=
| presence_of_element_located
| visibility_of_element_located
| element_to_be_clickable.

(** The JavaScript snippets of [ElementHelper], with their argument. *)
Inductive js : Type :=
| HideOverlays
| ScrollIntoView (target : option element)
| Click (target : option element).

(** The texts of [logger.error], a constructor per call site. *)
Inductive message : Type :=
| MsgEnterFailed
| MsgRoomFailed (room_name : string)
| MsgCalendarFailed
| MsgDateMissing (day : Z)
| MsgDateClickFailed
| MsgDateConfirmFailed
| MsgSeatMapFailed
| MsgSeatUnavailable (seat_number : Z)
| MsgSeatClickFailed (seat_number : Z)
| MsgNoSeat
| MsgConfirmMissing
| MsgConfirmClickFailed
| MsgPopupMissing
| MsgCaptchaFailed
| MsgReservationFailed.

Inductive event : Type :=
| EvSleep (milliseconds : Z)
| EvUntil (locator : xpath) (timeout : Z) (condition : expected_condition)
    (r : reply element)
| EvScript (code : js) (r : reply unit)
| EvFind (locator : xpath) (r : reply (list element))
| EvClock (tomorrow : date_info)
| EvLogError (m : message)
| EvCaptcha (solver : trace) (r : outcome bool).

Definition history : Type := list event.

(** The page and the clock.  [until] is
    [WebDriverWait(driver, timeout).until(condition(locator))]: it answers
    with the element found, or raises [TimeoutException] when the time is
    up; it has no third answer.  [captcha] is the surface that the
    slide-challenge solver meets when it is called. *)
Record Site : Type := {
  until : xpath -> Z -> expected_condition -> history -> reply element;
  execute : js -> history -> reply unit;
  find : xpath -> history -> reply (list element);
  tomorrow : history -> date_info;
  captcha : history -> World
}.

Definition RM (A : Type) : Type := history -> outcome A * history.

Definition ret {A} (a : A) : RM A := fun h => (Returns a, h).
Definition bind {A B} (c : RM A) (k : A -> RM B) : RM B :=
  fun h =>
    match c h with
    | (Returns a, h') => k a h'
    | (Raises e, h') => (Raises e, h')
    | (OutOfFuel, h') => (OutOfFuel, h')
    end.

Declare Scope reservation_scope.
Notation "x <- c ;; k" := (bind c (fun x => k))
  (at level 61, c at next level, right associativity) : reservation_scope.
Notation "c ;;; k" := (bind c (fun _ => k))
  (at level 61, right associativity) : reservation_scope.
Local Open Scope reservation_scope.

Definition emit (e : event) : RM unit := fun h => (Returns tt, h ++ [e]).
Definition sleep (milliseconds : Z) : RM unit := emit (EvSleep milliseconds).
Definition logger_error (m : message) : RM unit := emit (EvLogError m).

Definition ask {A} (oracle : history -> reply A) (record : reply A -> event)
    : RM A :=
  fun h => let r := oracle h in (of_reply r, h ++ [record r]).

(** A [for] loop whose body may [return]: the body yields [Some b] for
    [return b] and [None] when it reaches [continue] or its end;
    [orelse] is the code after the loop. *)
Fixpoint for_each {A B} (items : list A) (body : A -> RM (option B))
    (orelse : RM B) : RM B :=
  match items with
  | [] => orelse
  | item :: rest =>
      returned <- body item ;;
      match returned with
      | Some b => ret b
      | None => for_each rest body orelse
      end
  end.

(** Python truthiness of an [Optional[WebElement]]. *)
Definition found (element : option element) : bool :=
  match element with
  | Some _ => true
  | None => false
  end.

Section Methods.

Variable site : Site.
Variable fuel : nat.

(** ** [ElementHelper] *)

(** [ElementHelper(driver)]: [default_timeout = 10]. *)
Definition default_timeout : Z := 10.

Definition condition_of (condition : string) : expected_condition :=
  if String.eqb condition "presence" then presence_of_element_located
  else if String.eqb condition "visible" then visibility_of_element_located
  else if String.eqb condition "clickable" then element_to_be_clickable
  else presence_of_element_located.

Definition wait_for_element (locator : xpath) (timeout : option Z)
    (condition : string) : RM (option element) :=
  let timeout :=
    match timeout with
    | None => default_timeout
    | Some t => t
    end in
  let ec_condition := condition_of condition in
  element <- ask (until site locator timeout ec_condition)
                 (EvUntil locator timeout ec_condition) ;;
  ret (Some element).

Definition remove_overlays : RM unit :=
  ask (execute site HideOverlays) (EvScript HideOverlays).

Definition scroll_to_element (element : option element) : RM unit :=
  ask (execute site (ScrollIntoView element)) (EvScript (ScrollIntoView element)) ;;;
  sleep 300.

(** The first argument of [safe_click]: a [WebElement] (possibly [None],
    as [select_date] passes the unchecked result of a wait) or a locator
    tuple. *)
Inductive clickable : Type :=
| Element (element : option element)
| Locator (locator : xpath).

(** [safe_click(element, description, retries)]; the description is not
    used by the code. *)
Definition safe_click (element : clickable) (retries : Z) : RM bool :=
  resolved <-
    match element with
    | Locator locator =>
        element <- wait_for_element locator None "clickable" ;;
        ret (if negb (found element) then None else Some element)
    | Element element => ret (Some element)
    end ;;
  match resolved with
  | None => ret false
  | Some element =>
      for_each (py_range 0 (Z.to_nat retries))
        (fun attempt =>
           remove_overlays ;;;
           scroll_to_element element ;;;
           ask (execute site (Click element)) (EvScript (Click element)) ;;;
           ret (Some true))
        (ret false)
  end.

(** [click_and_wait(click_locator, expected_locator, description, retries,
    wait_time)] *)
Definition click_and_wait (click_locator expected_locator : xpath)
    (retries wait_time : Z) : RM bool :=
  for_each (py_range 0 (Z.to_nat retries))
    (fun attempt =>
       element <- wait_for_element click_locator (Some wait_time) "clickable" ;;
       if negb (found element) then
         if attempt <? retries - 1 then sleep 1000 ;;; ret None
         else ret (Some false)
       else
         clicked <- safe_click (Element element) 3 ;;
         if negb clicked then
           if attempt <? retries - 1 then sleep 1000 ;;; ret None
           else ret (Some false)
         else
           expected_element <-
             wait_for_element expected_locator (Some wait_time) "visible" ;;
           if found expected_element then ret (Some true)
           else
             (if attempt <? retries - 1 then sleep 1000 else ret tt) ;;;
             ret None)
    (ret false).

(** ** [DateHelper.get_tomorrow_date]: a reading of the clock. *)
Definition get_tomorrow_date : RM date_info :=
  fun h => (Returns (tomorrow site h), h ++ [EvClock (tomorrow site h)]).

(** ** [ReservationHandler] *)

Definition enter_reservation_page : RM bool :=
  entered <- click_and_wait SEAT_SELECT_TAB ROOM_LIST 3 15 ;;
  if negb entered then
    logger_error MsgEnterFailed ;;;
    ret false
  else ret true.

Definition select_room (room_name : option string) : RM bool :=
  let room_name :=
    match room_name with
    | None => TARGET_ROOM
    | Some name => name
    end in
  let room_xpath := get_room_xpath room_name in
  clicked <- click_and_wait room_xpath DATE_PICKER 3 10 ;;
  if negb clicked then
    logger_error (MsgRoomFailed room_name) ;;;
    ret false
  else
    calendar_element <- wait_for_element CALENDAR_GRID (Some 10) "visible" ;;
    if negb (found calendar_element) then
      logger_error MsgCalendarFailed ;;;
      ret false
    else
      sleep 500 ;;;
      ret true.

Definition select_date : RM bool :=
  info <- get_tomorrow_date ;;
  let date_xpath := generate_date_xpath info in
  date_element <- wait_for_element date_xpath (Some 20) "presence" ;;
  if negb (found date_element) then
    logger_error (MsgDateMissing (day info)) ;;;
    ret false
  else
    scroll_to_element date_element ;;;
    sleep 500 ;;;
    date_element <- wait_for_element date_xpath (Some 10) "clickable" ;;
    clicked <- safe_click (Element date_element) 3 ;;
    if negb clicked then
      logger_error MsgDateClickFailed ;;;
      ret false
    else
      sleep 500 ;;;
      confirmed <- click_and_wait CONFIRM_DATE_BUTTON SEAT_MAP 3 10 ;;
      if negb confirmed then
        logger_error MsgDateConfirmFailed ;;;
        ret false
      else
        seat_item <- wait_for_element SEAT_ITEM (Some 20) "visible" ;;
        if negb (found seat_item) then
          logger_error MsgSeatMapFailed ;;;
          ret false
        else
          sleep 500 ;;;
          ret true.

Definition select_seat (seat_numbers : list Z) : RM bool :=
  for_each seat_numbers
    (fun seat_number =>
       let seat_xpath := get_seat_xpath seat_number in
       seat_element <- wait_for_element seat_xpath (Some 5) "clickable" ;;
       if negb (found seat_element) then
         logger_error (MsgSeatUnavailable seat_number) ;;;
         ret None
       else
         clicked <- safe_click (Element seat_element) 3 ;;
         if negb clicked then
           logger_error (MsgSeatClickFailed seat_number) ;;;
           ret None
         else
           sleep 1000 ;;;
           ret (Some true))
    (logger_error MsgNoSeat ;;;
     ret false).

Definition confirm_reservation : RM bool :=
  confirm_button <- wait_for_element CONFIRM_BUTTON (Some 5) "clickable" ;;
  if negb (found confirm_button) then
    logger_error MsgConfirmMissing ;;;
    ret false
  else
    clicked <- safe_click (Element confirm_button) 3 ;;
    if negb clicked then
      logger_error MsgConfirmClickFailed ;;;
      ret false
    else
      captcha_popup <- wait_for_element CAPTCHA_POPUP (Some 15) "visible" ;;
      if negb (found captcha_popup) then
        logger_error MsgPopupMissing ;;;
        ret false
      else ret true.

Definition verify_success : RM bool :=
  success_element <- wait_for_element SUCCESS_MESSAGE (Some 5) "presence" ;;
  if found success_element then ret true
  else
    captcha_popups <- ask (find site CAPTCHA_POPUP) (EvFind CAPTCHA_POPUP) ;;
    ret (Nat.eqb (List.length captcha_popups) 0).

(** [self.slider_captcha.handle_slider_captcha()], with the default
    [max_attempts = 10], on the surface of the moment. *)
Definition slider_captcha : RM bool :=
  fun h =>
    let run := handle_slider_captcha settings (captcha site h) fuel 10 start in
    (fst run, h ++ [EvCaptcha (log (snd run)) (fst run)]).

Definition reserve (seat_numbers : list Z) : RM bool :=
  entered <- enter_reservation_page ;;
  if negb entered then ret false
  else
    room <- select_room None ;;
    if negb room then ret false
    else
      dated <- select_date ;;
      if negb dated then ret false
      else
        seated <- select_seat seat_numbers ;;
        if negb seated then ret false
        else
          confirmed <- confirm_reservation ;;
          if negb confirmed then ret false
          else
            solved <- slider_captcha ;;
            if negb solved then
              logger_error MsgCaptchaFailed ;;;
              ret false
            else
              succeeded <- verify_success ;;
              if succeeded then ret true
              else
                logger_error MsgReservationFailed ;;;
                ret false.

End Methods.

(** ** Observations on a history *)

(** The seats whose locator was waited for, in order. *)
Definition seats_tried (h : history) : list Z :=
  flat_map
    (fun e =>
       match e with
       | EvUntil (get_seat_xpath seat_number) _ _ _ => [seat_number]
       | _ => []
       end) h.

(** The runs of the slide-challenge solver, with their results. *)
Definition captcha_runs (h : history) : list (outcome bool) :=
  flat_map (fun e => match e with EvCaptcha _ r => [r] | _ => [] end) h.

(** The pause that [click_and_wait] takes before another try. *)
Definition is_retry_pause (e : event) : bool :=
  match e with EvSleep 1000 => true | _ => false end.

Definition is_log (e : event) : bool :=
  match e with EvLogError _ => true | _ => false end.

Definition is_find (e : event) : bool :=
  match e with EvFind _ _ => true | _ => false end.

(** The waits, by locator. *)
Definition waits_for (locator : xpath -> bool) (h : history) : nat :=
  List.length
    (filter (fun e => match e with EvUntil l _ _ _ => locator l | _ => false end)
            h).

(** The exception that an answer of the page, or the solver, brought. *)
Definition error_of (e : event) : option exn :=
  match e with
  | EvUntil _ _ _ (Err exc) => Some exc
  | EvScript _ (Err exc) => Some exc
  | EvFind _ (Err exc) => Some exc
  | EvCaptcha _ (Raises exc) => Some exc
  | _ => None
  end.

(** An event after which the flow goes on. *)
Definition passes (e : event) : bool :=
  match e with
  | EvUntil _ _ _ (Err _) => false
  | EvScript _ (Err _) => false
  | EvFind _ (Err _) => false
  | EvCaptcha _ (Raises _) => false
  | EvCaptcha _ OutOfFuel => false
  | _ => true
  end.

(** How a history relates to the outcome when nothing is caught: every
    event passes, except the last one of a run that raised, which brought
    the exception. *)
Definition uncaught {A} (r : outcome A) (evs : history) : Prop :=
  match r with
  | Returns _ => forallb passes evs = true
  | Raises exc =>
      exists pre e,
        evs = pre ++ [e] /\ forallb passes pre = true /\
        error_of e = Some exc
  | OutOfFuel =>
      exists pre solver,
        evs = pre ++ [EvCaptcha solver OutOfFuel] /\
        forallb passes pre = true
  end.

(** A method appends to the history, catches nothing, emits only events
    of the class [ok], and its results satisfy [P]. *)
Definition behaves {A} (ok : event -> bool) (m : RM A) (P : A -> Prop)
    : Prop :=
  forall h, exists evs,
    snd (m h) = h ++ evs /\
    uncaught (fst (m h)) evs /\
    forallb ok evs = true /\
    (forall a, fst (m h) = Returns a -> P a).

(** The events of the steps before the solver: no solver run, no query
    of the popups, and no error logged but the one for an empty list of
    seats. *)
Definition before_captcha (e : event) : bool :=
  match e with
  | EvCaptcha _ _ => false
  | EvFind _ _ => false
  | EvLogError MsgNoSeat => true
  | EvLogError _ => false
  | _ => true
  end.

(** The ways in which a run of [reserve] ends: before the solver is
    called; or after one call of the solver, on its verdict. *)
Definition ends (seat_numbers : list Z) (r : outcome bool) (evs : history)
    : Prop :=
  (forallb before_captcha evs = true /\
   r <> Returns true /\
   (r = Returns false -> seat_numbers = []))
  \/
  (exists pre solver,
     forallb before_captcha pre = true /\
     ((evs = pre ++ [EvCaptcha solver (Returns false);
                     EvLogError MsgCaptchaFailed] /\
       r = Returns false)
      \/
      (exists found_message,
         evs = pre ++ [EvCaptcha solver (Returns true);
                       EvUntil SUCCESS_MESSAGE 5 presence_of_element_located
                         found_message] /\
         r = match found_message with
             | Ok _ => Returns true
             | Err exc => Raises exc
             end)
      \/
      (exists exc, evs = pre ++ [EvCaptcha solver (Raises exc)] /\ r = Raises exc)
      \/
      (evs = pre ++ [EvCaptcha solver OutOfFuel] /\ r = OutOfFuel))).

(** A computation that ends in one of these ways, catching nothing. *)
Definition flows (seat_numbers : list Z) (m : RM bool) : Prop :=
  forall h, exists evs,
    snd (m h) = h ++ evs /\
    uncaught (fst (m h)) evs /\
    ends seat_numbers (fst (m h)) evs.

(** The events of [ElementHelper]: waits, scripts and pauses. *)
Definition of_helper (e : event) : bool :=
  match e with
  | EvUntil _ _ _ _ => true
  | EvScript _ _ => true
  | EvSleep _ => true
  | _ => false
  end.

(** A page on which every wait succeeds and every script runs. *)
Definition smooth (w : World) : Site := {|
  until := fun _ _ _ _ => Ok 7%nat;
  execute := fun _ _ => Ok tt;
  find := fun _ _ => Ok [];
  tomorrow := fun _ => {| year := 2025; month := 11; day := 1 |};
  captcha := fun _ => w
|}.

(** A page on which no seat can be clicked: the wait for a seat times
    out. *)
Definition seats_taken (w : World) : Site := {|
  until := fun locator _ _ _ =>
    match locator with
    | get_seat_xpath _ => Err TimeoutException
    | _ => Ok 7%nat
    end;
  execute := fun _ _ => Ok tt;
  find := fun _ _ => Ok [];
  tomorrow := fun _ => {| year := 2025; month := 11; day := 1 |};
  captcha := fun _ => w
|}.

End Reservation.

(** * Proofs *)

(** ** Binary64: digits, shifts and rounding *)


Lemma digits2_size p : digits2_pos p = Pos.size p.
Proof. induction p; cbn; congruence. Qed.

Lemma dig_pos p : 1 <= dig p.
Proof. unfold dig. lia. Qed.

Lemma dig_bounds p : 2 ^ (dig p - 1) <= Zpos p < 2 ^ dig p.
Proof.
  unfold dig. rewrite digits2_size. split.
  - pose proof (Pos.size_le p) as H.
    assert (H' : Zpos (2 ^ Pos.size p) <= Zpos p~0) by exact H.
    rewrite Pos2Z.inj_pow in H'.
    replace (2 ^ Zpos (Pos.size p)) with (2 * 2 ^ (Zpos (Pos.size p) - 1)) in H'
      by (rewrite <- Z.pow_succ_r by lia; f_equal; lia).
    lia.
  - pose proof (Pos.size_gt p) as H.
    assert (H' : Zpos p < Zpos (2 ^ Pos.size p)) by exact H.
    now rewrite Pos2Z.inj_pow in H'.
Qed.

Lemma dig_unique p d : 2 ^ (d - 1) <= Zpos p < 2 ^ d -> dig p = d.
Proof.
  intros [H1 H2]. pose proof (dig_bounds p) as [B1 B2]. pose proof (dig_pos p).
  assert (0 < d).
  { destruct (Z_lt_le_dec 0 d); [assumption|].
    assert (2 ^ d <= 2 ^ 0) by (apply Z.pow_le_mono_r; lia).
    change (2 ^ 0) with 1 in *. lia. }
  assert (dig p - 1 < d).
  { apply (Z.pow_lt_mono_r_iff 2); lia. }
  assert (d - 1 < dig p).
  { apply (Z.pow_lt_mono_r_iff 2); lia. }
  lia.
Qed.

Lemma pow2_pos k : 0 < 2 ^ Zpos k.
Proof. apply Z.pow_pos_nonneg; lia. Qed.

Lemma iter_xO p k : Zpos (Pos.iter xO p k) = Zpos p * 2 ^ Zpos k.
Proof.
  revert p. induction k using Pos.peano_ind; intros p.
  - cbn. lia.
  - rewrite Pos.iter_succ, Pos2Z.inj_succ, Z.pow_succ_r by lia.
    rewrite Pos2Z.inj_xO, IHk. lia.
Qed.


Lemma shl_spec p k : 0 <= k -> Zpos (shl p k) = Zpos p * 2 ^ k.
Proof.
  destruct k as [|j|j]; cbn [shl]; intros H; try lia.
  apply iter_xO.
Qed.

Lemma dig_shl p k : 0 <= k -> dig (shl p k) = dig p + k.
Proof.
  intros H. apply dig_unique. rewrite shl_spec by assumption.
  pose proof (dig_bounds p) as [B1 B2]. pose proof (dig_pos p).
  replace (dig p + k - 1) with (dig p - 1 + k) by lia.
  rewrite !Z.pow_add_r by lia.
  assert (0 < 2 ^ k) by (apply Z.pow_pos_nonneg; lia).
  split; nia.
Qed.

(** ** Shifting right *)

Lemma iter_pos_nat {A} (f : A -> A) n : forall x,
  iter_pos f n x = Nat.iter (Pos.to_nat n) f x.
Proof.
  induction n as [n IH|n IH|]; intros x; cbn [iter_pos].
  - rewrite !IH. rewrite Pos2Nat.inj_xI.
    replace (S (2 * Pos.to_nat n)) with (Pos.to_nat n + (Pos.to_nat n + 1))%nat by lia.
    rewrite !Nat.iter_add. reflexivity.
  - rewrite !IH. rewrite Pos2Nat.inj_xO.
    replace (2 * Pos.to_nat n)%nat with (Pos.to_nat n + Pos.to_nat n)%nat by lia.
    rewrite Nat.iter_add. reflexivity.
  - reflexivity.
Qed.

Lemma shr_1_spec m r s :
  0 <= m ->
  shr_1 {| shr_m := m; shr_r := r; shr_s := s |}
    = {| shr_m := m / 2; shr_r := Z.odd m; shr_s := r || s |}.
Proof.
  intros H. destruct m as [|p|p]; [reflexivity| |lia].
  destruct p as [p|p|]; cbn [shr_1].
  - f_equal. rewrite Pos2Z.inj_xI. symmetry.
    rewrite Z.mul_comm, Z.add_comm. rewrite Z.div_add by lia. reflexivity.
  - f_equal. rewrite Pos2Z.inj_xO. rewrite Z.mul_comm, Z.div_mul by lia. reflexivity.
  - reflexivity.
Qed.

(** After [k] shifts of an exact record: the quotient, the last bit shifted
    out, and whether anything non-zero was shifted out. *)
Lemma shr_iter m k :
  0 <= m ->
  let rec := Nat.iter k shr_1 {| shr_m := m; shr_r := false; shr_s := false |} in
  shr_m rec = m / 2 ^ Z.of_nat k /\
  (shr_r rec || shr_s rec) = negb (m mod 2 ^ Z.of_nat k =? 0) /\
  (k <> O -> shr_r rec = Z.odd (m / 2 ^ (Z.of_nat k - 1))).
Proof.
  intros Hm. induction k as [|k IH].
  - cbv zeta. cbn. rewrite Z.div_1_r, Z.mod_1_r. repeat split. congruence.
  - cbv zeta in *. cbn [Nat.iter]. destruct IH as (I1 & I2 & I3).
    destruct (Nat.iter k shr_1 _) as [mk rk sk] eqn:E. cbn [shr_m shr_r shr_s] in *.
    assert (0 <= mk) by (subst mk; apply Z.div_pos; [lia|apply Z.pow_pos_nonneg; lia]).
    rewrite Nat.iter_succ, E.
    rewrite shr_1_spec by assumption. cbn [shr_m shr_r shr_s].
    rewrite Nat2Z.inj_succ, Z.pow_succ_r by lia.
    assert (P : 0 < 2 ^ Z.of_nat k) by (apply Z.pow_pos_nonneg; lia).
    split; [|split].
    + subst mk. rewrite Z.div_div by lia. f_equal. lia.
    + rewrite I2. subst mk.
      rewrite (Z.mul_comm 2), Z.rem_mul_r by lia.
      destruct (m mod 2 ^ Z.of_nat k =? 0) eqn:Z0.
      * apply Z.eqb_eq in Z0. rewrite Z0. cbn [negb orb].
        rewrite Z.add_0_l, orb_false_r.
        rewrite <- Z.negb_even. f_equal.
        rewrite Zeven_mod. 
        pose proof (Z.mod_pos_bound (m / 2 ^ Z.of_nat k) 2 ltac:(lia)).
        destruct (Z.eqb_spec ((m / 2 ^ Z.of_nat k) mod 2) 0) as [e|e];
          destruct (Z.eqb_spec (2 ^ Z.of_nat k * ((m / 2 ^ Z.of_nat k) mod 2)) 0) as [e'|e']; auto; nia.
      * apply Z.eqb_neq in Z0. cbn [negb]. rewrite orb_true_r. symmetry.
        apply negb_true_iff, Z.eqb_neq.
        pose proof (Z.mod_pos_bound m (2 ^ Z.of_nat k) P).
        pose proof (Z.mod_pos_bound (m / 2 ^ Z.of_nat k) 2 ltac:(lia)). nia.
    + intros _. subst mk. f_equal. f_equal. f_equal. lia.
Qed.

Lemma fexp_normal x : -1021 <= x -> fexp 53 1024 x = x - 53.
Proof. intros H. unfold fexp, emin. lia. Qed.

Lemma shr_iter_m k : forall rec,
  0 <= shr_m rec ->
  shr_m (Nat.iter k shr_1 rec) = shr_m rec / 2 ^ Z.of_nat k.
Proof.
  induction k as [|k IH]; intros [m r s] H; cbn [shr_m] in *.
  - cbn. now rewrite Z.div_1_r.
  - rewrite Nat.iter_succ.
    specialize (IH {| shr_m := m; shr_r := r; shr_s := s |} H). cbn [shr_m] in IH.
    destruct (Nat.iter k shr_1 _) as [mk rk sk]. cbn [shr_m] in IH.
    assert (0 <= mk) by (subst mk; apply Z.div_pos; [lia|apply Z.pow_pos_nonneg; lia]).
    rewrite shr_1_spec by assumption. cbn [shr_m]. subst mk.
    rewrite Nat2Z.inj_succ, Z.pow_succ_r by lia.
    rewrite Z.div_div by (try apply Z.pow_pos_nonneg; lia). f_equal. lia.
Qed.

Lemma shr_m_of_loc m l : shr_m (shr_record_of_loc m l) = m.
Proof. destruct l as [|[]]; reflexivity. Qed.

Lemma loc_of_loc m l : loc_of_shr_record (shr_record_of_loc m l) = l.
Proof. destruct l as [|[]]; reflexivity. Qed.

Lemma trunc_bounds mx :
  53 <= dig mx -> 2 ^ 52 <= Zpos mx / 2 ^ (dig mx - 53) < 2 ^ 53.
Proof.
  intros Hd. pose proof (dig_bounds mx) as [B1 B2].
  assert (P : 0 < 2 ^ (dig mx - 53)) by (apply Z.pow_pos_nonneg; lia).
  assert (E1 : 2 ^ (dig mx - 1) = 2 ^ 52 * 2 ^ (dig mx - 53))
    by (rewrite <- Z.pow_add_r by lia; f_equal; lia).
  assert (E2 : 2 ^ dig mx = 2 ^ 53 * 2 ^ (dig mx - 53))
    by (rewrite <- Z.pow_add_r by lia; f_equal; lia).
  split.
  - apply Z.div_le_lower_bound; lia.
  - apply Z.div_lt_upper_bound; lia.
Qed.

(** The first shift of [binary_round_aux] on a mantissa of at least 53
    digits, in the normal range. *)
Lemma shr_fexp_shift mx e l :
  53 <= dig mx -> -1074 <= e + dig mx - 53 ->
  exists rec,
    shr_fexp 53 1024 (Zpos mx) e l = (rec, e + dig mx - 53) /\
    shr_m rec = Zpos mx / 2 ^ (dig mx - 53) /\
    (dig mx = 53 -> loc_of_shr_record rec = l) /\
    (l = loc_Exact ->
     2 * (Zpos mx mod 2 ^ (dig mx - 53)) < 2 ^ (dig mx - 53) ->
     shr_r rec = false).
Proof.
  intros Hd He. unfold shr_fexp. cbn [Zdigits2]. fold (dig mx).
  rewrite fexp_normal by lia.
  replace (dig mx + e - 53 - e) with (dig mx - 53) by lia.
  destruct (dig mx - 53) as [|n|n] eqn:En; try lia.
  - cbn [shr]. eexists. split; [f_equal; lia|].
    rewrite shr_m_of_loc, loc_of_loc, Z.div_1_r. repeat split; auto.
    intros -> _. reflexivity.
  - cbn [shr]. rewrite iter_pos_nat. eexists. split; [f_equal; lia|].
    split; [|split].
    + rewrite shr_iter_m by (rewrite shr_m_of_loc; lia).
      rewrite shr_m_of_loc, positive_nat_Z. reflexivity.
    + lia.
    + intros -> Hr. cbn [shr_record_of_loc].
      pose proof (shr_iter (Zpos mx) (Pos.to_nat n) ltac:(lia)) as H.
      cbv zeta in H. destruct H as (_ & _ & H3).
      rewrite H3 by lia. rewrite positive_nat_Z.
      rewrite <- Z.negb_even. apply negb_false_iff.
      rewrite Zeven_mod. apply Z.eqb_eq.
      assert (P : 0 < 2 ^ (Zpos n - 1)) by (apply Z.pow_pos_nonneg; lia).
      assert (E2 : 2 ^ Zpos n = 2 ^ (Zpos n - 1) * 2).
      { replace (Zpos n) with (Z.succ (Zpos n - 1)) at 1 by lia.
        rewrite Z.pow_succ_r by lia. lia. }
      rewrite E2 in Hr. rewrite Z.rem_mul_r in Hr by lia.
      pose proof (Z.mod_pos_bound (Zpos mx) (2 ^ (Zpos n - 1)) P).
      pose proof (Z.mod_pos_bound (Zpos mx / 2 ^ (Zpos n - 1)) 2 ltac:(lia)). nia.
Qed.

(** The second shift and the packing of the result. *)
Lemma finish_53 s (p : positive) e :
  dig p = 53 -> -1074 <= e <= 971 ->
  (let '(mrs, e') := shr_fexp 53 1024 (Zpos p) e loc_Exact in
   match shr_m mrs with
   | 0 => S754_zero s
   | Zpos m => if e' <=? 1024 - 53 then S754_finite s m e' else S754_infinity s
   | Zneg _ => S754_nan
   end) = S754_finite s p e.
Proof.
  intros Hd He.
  destruct (shr_fexp_shift p e loc_Exact) as (rec & E & Hm & _); try lia.
  rewrite E, Hm, Hd. change (53 - 53) with 0. change (2 ^ 0) with 1.
  rewrite Z.div_1_r. replace (e + 53 - 53) with e by lia.
  destruct (Z.leb_spec e (1024 - 53)); [reflexivity|lia].
Qed.

Lemma finish_54 s e :
  -1074 <= e + 1 <= 971 ->
  (let '(mrs, e') := shr_fexp 53 1024 (2 ^ 53) e loc_Exact in
   match shr_m mrs with
   | 0 => S754_zero s
   | Zpos m => if e' <=? 1024 - 53 then S754_finite s m e' else S754_infinity s
   | Zneg _ => S754_nan
   end) = S754_finite s (2 ^ 52) (e + 1).
Proof.
  intros He. change (2 ^ 53) with (Zpos (2 ^ 53)).
  destruct (shr_fexp_shift (2 ^ 53) e loc_Exact) as (rec & E & Hm & _).
  - vm_compute. discriminate.
  - change (dig (2 ^ 53)) with 54. lia.
  - rewrite E, Hm. change (dig (2 ^ 53)) with 54.
    change (Zpos (2 ^ 53) / 2 ^ (54 - 53)) with (Zpos (2 ^ 52)).
    replace (e + 54 - 53) with (e + 1) by lia.
    destruct (Z.leb_spec (e + 1) (1024 - 53)); [reflexivity|lia].
Qed.

Lemma round_nearest_even_cases m l :
  round_nearest_even m l = m \/ round_nearest_even m l = m + 1.
Proof. destruct l as [|[]]; cbn; auto. destruct (Z.even m); auto. Qed.

(** Rounding never goes below the truncation and at most one unit above. *)
Lemma binary_round_aux_faithful s mx e l :
  53 <= dig mx ->
  -1074 <= e + dig mx - 53 -> e + dig mx - 53 + 1 <= 971 ->
  exists m' e',
    binary_round_aux 53 1024 s (Zpos mx) e l = S754_finite s m' e' /\
    dig m' = 53 /\
    ((e' = e + dig mx - 53 /\
      (Zpos m' = Zpos mx / 2 ^ (dig mx - 53) \/
       Zpos m' = Zpos mx / 2 ^ (dig mx - 53) + 1)) \/
     (e' = e + dig mx - 53 + 1 /\ Zpos m' = 2 ^ 52 /\
      Zpos mx / 2 ^ (dig mx - 53) + 1 = 2 ^ 53)).
Proof.
  intros Hd He1 He2. unfold binary_round_aux.
  destruct (shr_fexp_shift mx e l Hd He1) as (rec & E & Hm & _).
  rewrite E. set (q := Zpos mx / 2 ^ (dig mx - 53)) in *.
  assert (Hq : 2 ^ 52 <= q < 2 ^ 53) by (apply trunc_bounds; assumption).
  rewrite Hm.
  destruct (round_nearest_even_cases q (loc_of_shr_record rec)) as [R|R]; rewrite R.
  - destruct q as [|pq|pq] eqn:Eq; try lia.
    assert (Dq : dig pq = 53) by (apply dig_unique; lia).
    rewrite finish_53 by (auto; lia). exists pq, (e + dig mx - 53).
    repeat split; auto.
  - destruct (Z.eq_dec (q + 1) (2 ^ 53)) as [Hc|Hc].
    + rewrite Hc. rewrite finish_54 by lia.
      exists (2 ^ 52)%positive, (e + dig mx - 53 + 1). repeat split; auto.
    + destruct (q + 1) as [|pq|pq] eqn:Eq; try lia.
      assert (Dq : dig pq = 53) by (apply dig_unique; lia).
      rewrite finish_53 by (auto; lia). exists pq, (e + dig mx - 53).
      repeat split; auto.
Qed.

(** When the first bit shifted out is 0, an exact mantissa is truncated. *)
Lemma binary_round_aux_trunc s mx e :
  53 <= dig mx ->
  -1074 <= e + dig mx - 53 <= 971 ->
  2 * (Zpos mx mod 2 ^ (dig mx - 53)) < 2 ^ (dig mx - 53) ->
  binary_round_aux 53 1024 s (Zpos mx) e loc_Exact
    = S754_finite s (Z.to_pos (Zpos mx / 2 ^ (dig mx - 53))) (e + dig mx - 53).
Proof.
  intros Hd He Hr. unfold binary_round_aux.
  destruct (shr_fexp_shift mx e loc_Exact Hd) as (rec & E & Hm & _ & Hb); [lia|].
  rewrite E. set (q := Zpos mx / 2 ^ (dig mx - 53)) in *.
  assert (Hq : 2 ^ 52 <= q < 2 ^ 53) by (apply trunc_bounds; assumption).
  specialize (Hb eq_refl Hr).
  assert (R : round_nearest_even (shr_m rec) (loc_of_shr_record rec) = q).
  { rewrite Hm. destruct rec as [m r s0]. cbn [shr_r] in Hb. subst r.
    destruct s0; reflexivity. }
  rewrite R. destruct q as [|pq|pq] eqn:Eq; try lia.
  assert (Dq : dig pq = 53) by (apply dig_unique; lia).
  rewrite finish_53 by (auto; lia). reflexivity.
Qed.



Lemma shl_shl p j k : 0 <= j -> 0 <= k -> shl (shl p j) k = shl p (j + k).
Proof.
  intros Hj Hk. apply Pos2Z.inj. rewrite !shl_spec by lia.
  rewrite Z.pow_add_r by lia. lia.
Qed.

Lemma nf_shl s p j e :
  0 <= j -> dig p + j <= 53 -> nf s (shl p j) e = nf s p (e + j).
Proof.
  intros Hj Hd. unfold nf. rewrite dig_shl by assumption.
  rewrite shl_shl by lia. f_equal; [f_equal|]; lia.
Qed.

Lemma shl_align_le mx ex ez :
  ez <= ex -> shl_align mx ex ez = (shl mx (ex - ez), ez).
Proof.
  intros H. unfold shl_align.
  destruct (ez - ex) as [|d|d] eqn:E; try lia.
  - replace (ex - ez) with 0 by lia. cbn [shl]. f_equal. lia.
  - replace (ex - ez) with (Zpos d) by lia. reflexivity.
Qed.

Lemma shl_align_ge mx ex ez : ex <= ez -> shl_align mx ex ez = (mx, ex).
Proof.
  intros H. unfold shl_align. destruct (ez - ex) as [|d|d] eqn:E; try lia; reflexivity.
Qed.

Lemma binary_round_nf s p e :
  dig p <= 53 -> -1074 <= e - (53 - dig p) <= 971 ->
  binary_round 53 1024 s p e = nf s p e.
Proof.
  intros Hd He. unfold binary_round. fold (dig p).
  rewrite fexp_normal by lia.
  rewrite shl_align_le by lia.
  replace (e - (dig p + e - 53)) with (53 - dig p) by lia.
  assert (D : dig (shl p (53 - dig p)) = 53) by (rewrite dig_shl; lia).
  rewrite binary_round_aux_trunc; rewrite ?D; try lia.
  - change (53 - 53) with 0. change (2 ^ 0) with 1. rewrite Z.div_1_r.
    cbn [Z.to_pos]. unfold nf. f_equal. lia.
  - change (53 - 53) with 0. change (2 ^ 0) with 1. rewrite Z.mod_1_r. lia.
Qed.

(** Rounding a mantissa with enough trailing zeros is exact. *)
Lemma binary_round_exact s q j e :
  0 <= j -> dig q <= 53 ->
  -1074 <= e + j - (53 - dig q) <= 971 ->
  binary_round 53 1024 s (shl q j) e = nf s q (e + j).
Proof.
  intros Hj Hd He.
  destruct (Z_le_gt_dec (dig q + j) 53) as [Hs|Hl].
  - rewrite binary_round_nf; rewrite ?dig_shl; try lia.
    apply nf_shl; lia.
  - unfold binary_round. fold (dig (shl q j)). rewrite dig_shl by lia.
    rewrite fexp_normal by lia.
    rewrite shl_align_ge by lia.
    assert (P : 0 < 2 ^ (dig q + j - 53)) by (apply Z.pow_pos_nonneg; lia).
    assert (E : Zpos (shl q j)
                = Zpos (shl q (53 - dig q)) * 2 ^ (dig q + j - 53)).
    { rewrite !shl_spec by lia. rewrite <- Z.mul_assoc, <- Z.pow_add_r by lia.
      do 2 f_equal. lia. }
    rewrite binary_round_aux_trunc; rewrite ?dig_shl; try lia.
    + rewrite E, Z.div_mul by lia. cbn [Z.to_pos]. unfold nf. f_equal. lia.
    + rewrite E, Z.mod_mul by lia. lia.
Qed.

Lemma normalize_quarter S ez k :
  -1000 <= ez <= -2 -> S = k * 2 ^ (-2 - ez) -> Z.abs k < 2 ^ 53 ->
  binary_normalize 53 1024 S ez false = quarter k.
Proof.
  intros He HS Hk.
  assert (P : 0 < 2 ^ (-2 - ez)) by (apply Z.pow_pos_nonneg; lia).
  destruct k as [|p|p].
  - subst S. reflexivity.
  - assert (ES : S = Zpos (shl p (-2 - ez))) by (rewrite shl_spec by lia; lia).
    rewrite ES. cbn [binary_normalize quarter].
    assert (dig p <= 53).
    { destruct (Z_le_gt_dec (dig p) 53); [assumption|].
      pose proof (dig_bounds p) as [B _].
      assert (2 ^ 53 <= 2 ^ (dig p - 1)) by (apply Z.pow_le_mono_r; lia). lia. }
    pose proof (dig_pos p).
    rewrite binary_round_exact by lia. f_equal. lia.
  - assert (ES : S = Zneg (shl p (-2 - ez))).
    { change (Zneg (shl p (-2 - ez))) with (- Zpos (shl p (-2 - ez))).
      rewrite shl_spec by lia. lia. }
    rewrite ES. cbn [binary_normalize quarter].
    assert (dig p <= 53).
    { destruct (Z_le_gt_dec (dig p) 53); [assumption|].
      pose proof (dig_bounds p) as [B _].
      assert (2 ^ 53 <= 2 ^ (dig p - 1)) by (apply Z.pow_le_mono_r; lia). lia. }
    pose proof (dig_pos p).
    rewrite binary_round_exact by lia. f_equal. lia.
Qed.

Lemma dig_le_53 p : Zpos p < 2 ^ 53 -> dig p <= 53.
Proof.
  intros H. destruct (Z_le_gt_dec (dig p) 53); [assumption|].
  pose proof (dig_bounds p) as [B _].
  assert (2 ^ 53 <= 2 ^ (dig p - 1)) by (apply Z.pow_le_mono_r; lia). lia.
Qed.

(** The aligned mantissa of [nf s p (-2)] at a lower exponent. *)
Lemma aligned_quarter s p ez :
  dig p <= 53 -> ez <= -2 - (53 - dig p) ->
  cond_Zopp s
    (Zpos (fst (shl_align (shl p (53 - dig p)) (-2 - (53 - dig p)) ez)))
  = (if s then Zneg p else Zpos p) * 2 ^ (-2 - ez).
Proof.
  intros Hd He. pose proof (dig_pos p).
  rewrite shl_align_le by lia. cbn [fst].
  rewrite shl_shl by lia. rewrite shl_spec by lia.
  replace (53 - dig p + (-2 - (53 - dig p) - ez)) with (-2 - ez) by lia.
  destruct s; cbn [cond_Zopp]; lia.
Qed.


Lemma quarter_signed s p : quarter (signed s p) = nf s p (-2).
Proof. destruct s; reflexivity. Qed.

Lemma add_nf sa pa sb pb :
  Zpos pa < 2 ^ 53 -> Zpos pb < 2 ^ 53 ->
  Z.abs (signed sa pa + signed sb pb) < 2 ^ 53 ->
  F64.add (nf sa pa (-2)) (nf sb pb (-2)) = quarter (signed sa pa + signed sb pb).
Proof.
  intros Ha Hb Hab. pose proof (dig_le_53 pa Ha). pose proof (dig_le_53 pb Hb).
  pose proof (dig_pos pa). pose proof (dig_pos pb).
  unfold F64.add, nf, SFadd.
  set (ez := Z.min (-2 - (53 - dig pa)) (-2 - (53 - dig pb))).
  rewrite !aligned_quarter by (unfold ez; lia).
  apply normalize_quarter; [unfold ez; lia| |assumption].
  unfold signed. lia.
Qed.

Lemma sub_nf sa pa sb pb :
  Zpos pa < 2 ^ 53 -> Zpos pb < 2 ^ 53 ->
  Z.abs (signed sa pa - signed sb pb) < 2 ^ 53 ->
  F64.sub (nf sa pa (-2)) (nf sb pb (-2)) = quarter (signed sa pa - signed sb pb).
Proof.
  intros Ha Hb Hab. pose proof (dig_le_53 pa Ha). pose proof (dig_le_53 pb Hb).
  pose proof (dig_pos pa). pose proof (dig_pos pb).
  unfold F64.sub, nf, SFsub.
  set (ez := Z.min (-2 - (53 - dig pa)) (-2 - (53 - dig pb))).
  rewrite !aligned_quarter by (unfold ez; lia).
  apply normalize_quarter; [unfold ez; lia| |assumption].
  unfold signed. lia.
Qed.

Lemma signed_cases k : k <> 0 -> exists s p, k = signed s p.
Proof.
  destruct k as [|p|p]; [congruence| |]; intros _.
  - exists false, p. reflexivity.
  - exists true, p. reflexivity.
Qed.

Lemma abs_signed s p : Z.abs (signed s p) = Zpos p.
Proof. destruct s; reflexivity. Qed.

(** Sums and differences of quarter-multiples are exact. *)
Lemma add_quarter a b :
  Z.abs a < 2 ^ 53 -> Z.abs b < 2 ^ 53 -> Z.abs (a + b) < 2 ^ 53 ->
  F64.add (quarter a) (quarter b) = quarter (a + b).
Proof.
  intros Ha Hb Hab.
  destruct (Z.eq_dec a 0) as [->|Na].
  { destruct b as [|p|p]; reflexivity. }
  destruct (Z.eq_dec b 0) as [->|Nb].
  { rewrite Z.add_0_r. destruct a as [|p|p]; reflexivity. }
  destruct (signed_cases a Na) as (sa & pa & ->).
  destruct (signed_cases b Nb) as (sb & pb & ->).
  rewrite abs_signed in Ha, Hb. rewrite !quarter_signed. now apply add_nf.
Qed.

Lemma sub_quarter a b :
  Z.abs a < 2 ^ 53 -> Z.abs b < 2 ^ 53 -> Z.abs (a - b) < 2 ^ 53 ->
  F64.sub (quarter a) (quarter b) = quarter (a - b).
Proof.
  intros Ha Hb Hab.
  destruct (Z.eq_dec b 0) as [->|Nb].
  { rewrite Z.sub_0_r. destruct a as [|p|p]; reflexivity. }
  destruct (Z.eq_dec a 0) as [->|Na].
  { destruct b as [|p|p]; try congruence; reflexivity. }
  destruct (signed_cases a Na) as (sa & pa & ->).
  destruct (signed_cases b Nb) as (sb & pb & ->).
  rewrite abs_signed in Ha, Hb. rewrite !quarter_signed. now apply sub_nf.
Qed.

(** [float(d)] is exact below [2^51]. *)
Lemma of_Z_quarter d : Z.abs d < 2 ^ 51 -> F64.of_Z d = quarter (4 * d).
Proof.
  intros Hd. unfold F64.of_Z.
  destruct d as [|p|p]; [reflexivity| |].
  - cbn [binary_normalize]. change (4 * Zpos p) with (Zpos (shl p 2)).
    cbn [quarter].
    assert (dig p <= 51).
    { destruct (Z_le_gt_dec (dig p) 51); [assumption|].
      pose proof (dig_bounds p) as [B _].
      assert (2 ^ 51 <= 2 ^ (dig p - 1)) by (apply Z.pow_le_mono_r; lia). lia. }
    pose proof (dig_pos p).
    rewrite nf_shl by lia. apply binary_round_nf; lia.
  - cbn [binary_normalize]. change (4 * Zneg p) with (Zneg (shl p 2)).
    cbn [quarter].
    assert (dig p <= 51).
    { destruct (Z_le_gt_dec (dig p) 51); [assumption|].
      pose proof (dig_bounds p) as [B _].
      assert (2 ^ 51 <= 2 ^ (dig p - 1)) by (apply Z.pow_le_mono_r; lia). lia. }
    pose proof (dig_pos p).
    rewrite nf_shl by lia. apply binary_round_nf; lia.
Qed.

(** ** Multiplying a velocity by [0.1] *)

Lemma tenth_mantissa : 5 * 7205759403792794 = 2 ^ 55 + 2.
Proof. reflexivity. Qed.

Lemma mul_tenth (n : positive) :
  20 * Zpos n < 2 ^ 53 ->
  F64.mul (quarter (20 * Zpos n)) F64.tenth = quarter (2 * Zpos n).
Proof.
  intros Hn.
  change (20 * Zpos n) with (Zpos (20 * n)).
  change (2 * Zpos n) with (Zpos (2 * n)).
  cbn [quarter]. unfold nf at 1, F64.mul, F64.tenth. cbn [SFmul xorb].
  set (g := 53 - dig (20 * n)).
  assert (Hd20 : dig (20 * n) <= 53) by (apply dig_le_53; lia).
  pose proof (dig_pos (20 * n)) as Hp20.
  assert (Hg : 0 <= g) by (unfold g; lia).
  assert (Pg : 0 < 2 ^ g) by (apply Z.pow_pos_nonneg; lia).
  (* the mantissa of the velocity *)
  assert (Ev : Zpos (shl (20 * n) g) = 20 * Zpos n * 2 ^ g)
    by (rewrite shl_spec by lia; lia).
  assert (Dv : dig (shl (20 * n) g) = 53) by (rewrite dig_shl; unfold g; lia).
  pose proof (dig_bounds (shl (20 * n) g)) as [Bv1 Bv2]. rewrite Dv in Bv1, Bv2.
  (* N = 8 n 2^g, as a shift of 2 n *)
  set (pN := shl (2 * n) (g + 2)).
  assert (EN : Zpos pN = 8 * Zpos n * 2 ^ g).
  { unfold pN. rewrite shl_spec by lia. rewrite Z.pow_add_r by lia.
    change (2 ^ 2) with 4. lia. }
  assert (DN : dig pN = dig (2 * n) + g + 2) by (unfold pN; rewrite dig_shl; lia).
  pose proof (dig_bounds pN) as [BN1 BN2].
  pose proof (dig_pos (2 * n)) as Hp2.
  assert (HN52 : dig pN <= 52).
  { destruct (Z_le_gt_dec (dig pN) 52); [assumption|].
    assert (2 ^ 52 <= 2 ^ (dig pN - 1)) by (apply Z.pow_le_mono_r; lia).
    change (2 ^ 53) with (2 * 2 ^ 52) in Bv2. lia. }
  (* the product *)
  set (pM := (shl (20 * n) g * 7205759403792794)%positive).
  assert (EM : Zpos pM = Zpos pN * 2 ^ 54 + Zpos pN).
  { unfold pM. rewrite Pos2Z.inj_mul, Ev, EN.
    pose proof tenth_mantissa as T.
    change (2 ^ 55) with (2 * 2 ^ 54) in T. lia. }
  assert (P1 : 0 < 2 ^ (dig pN - 1)) by (apply Z.pow_pos_nonneg; lia).
  assert (E2 : 2 ^ dig pN = 2 * 2 ^ (dig pN - 1)).
  { rewrite <- Z.pow_succ_r by lia. f_equal. lia. }
  assert (DM : dig pM = dig pN + 54).
  { apply dig_unique. rewrite EM.
    replace (dig pN + 54 - 1) with (dig pN - 1 + 54) by lia.
    rewrite !Z.pow_add_r by lia. split; nia. }
  assert (Esh : 2 ^ (dig pM - 53) = 2 * 2 ^ dig pN).
  { rewrite DM. replace (dig pN + 54 - 53) with (Z.succ (dig pN)) by lia.
    rewrite Z.pow_succ_r by lia. reflexivity. }
  assert (Pk : 0 < 2 ^ (53 - dig pN)) by (apply Z.pow_pos_nonneg; lia).
  assert (E54 : 2 ^ 54 = 2 ^ (53 - dig pN) * (2 * 2 ^ dig pN)).
  { rewrite (Z.mul_comm 2), Z.mul_assoc, <- Z.pow_add_r by lia.
    replace (53 - dig pN + dig pN) with 53 by lia. reflexivity. }
  assert (Ediv : Zpos pM / 2 ^ (dig pM - 53) = Zpos pN * 2 ^ (53 - dig pN)).
  { rewrite Esh, EM, E54. rewrite Z.mul_assoc.
    rewrite Z.div_add_l by lia. rewrite Z.div_small by lia. lia. }
  assert (Emod : Zpos pM mod 2 ^ (dig pM - 53) = Zpos pN).
  { rewrite Esh, EM, E54. rewrite Z.mul_assoc.
    rewrite Z.add_comm, Z.mod_add by lia. apply Z.mod_small. lia. }
  fold pM.
  rewrite binary_round_aux_trunc;
    [ | lia | rewrite DM; lia | rewrite Emod, Esh; lia ].
  rewrite Ediv. unfold nf.
  assert (Em : Z.to_pos (Zpos pN * 2 ^ (53 - dig pN)) = shl (2 * n) (53 - dig (2 * n))).
  { apply Pos2Z.inj. rewrite Z2Pos.id by (apply Z.mul_pos_pos; lia).
    rewrite <- shl_spec by lia. f_equal. rewrite DN. unfold pN.
    rewrite shl_shl by lia. f_equal. lia. }
  rewrite Em. f_equal. unfold g in *. lia.
Qed.

(** ** The constants of the loop *)

Lemma a1_t : F64.mul a1 t = quarter 20.
Proof. vm_compute. reflexivity. Qed.

Lemma a2_t : F64.mul a2 t = quarter (-20).
Proof. vm_compute. reflexivity. Qed.

Lemma half_a1_t_t : F64.mul (F64.mul (F64.mul F64.half a1) t) t = quarter 1.
Proof. vm_compute. reflexivity. Qed.

Lemma half_a2_t_t : F64.mul (F64.mul (F64.mul F64.half a2) t) t = quarter (-1).
Proof. vm_compute. reflexivity. Qed.

Lemma half_quarter : F64.half = quarter 2.
Proof. vm_compute. reflexivity. Qed.

Lemma zero_quarter : F64.zero = quarter 0.
Proof. reflexivity. Qed.

(** ** Order *)

Lemma mul_compare_r a b k : 0 < k -> (a * k ?= b * k) = (a ?= b).
Proof. intros H. symmetry. apply Zmult_compare_compat_r. lia. Qed.

Lemma compare_nf p q e :
  dig p <= 53 -> dig q <= 53 ->
  SFcompare (nf false p e) (nf false q e) = Some (Zpos p ?= Zpos q).
Proof.
  intros Hp Hq. unfold nf. cbn [SFcompare]. f_equal.
  pose proof (dig_bounds p) as [Bp1 Bp2]. pose proof (dig_bounds q) as [Bq1 Bq2].
  pose proof (dig_pos p). pose proof (dig_pos q).
  destruct (Z.compare_spec (e - (53 - dig p)) (e - (53 - dig q))) as [E|L|G].
  - assert (Ed : dig p = dig q) by lia. rewrite Ed.
    change (Pos.compare_cont Eq (shl p (53 - dig q)) (shl q (53 - dig q)))
      with (Zpos (shl p (53 - dig q)) ?= Zpos (shl q (53 - dig q))).
    rewrite !shl_spec by lia.
    apply mul_compare_r. apply Z.pow_pos_nonneg; lia.
  - symmetry. apply Z.compare_lt_iff.
    assert (2 ^ dig p <= 2 ^ (dig q - 1)) by (apply Z.pow_le_mono_r; lia). lia.
  - symmetry. apply Z.compare_gt_iff.
    assert (2 ^ dig q <= 2 ^ (dig p - 1)) by (apply Z.pow_le_mono_r; lia). lia.
Qed.

Lemma compare_quarter a b :
  0 <= a < 2 ^ 53 -> 0 <= b < 2 ^ 53 ->
  SFcompare (quarter a) (quarter b) = Some (a ?= b).
Proof.
  intros Ha Hb.
  destruct a as [|p|p], b as [|q|q]; try lia; try reflexivity.
  cbn [quarter]. apply compare_nf; apply dig_le_53; lia.
Qed.

Lemma ltb_quarter a b :
  0 <= a < 2 ^ 53 -> 0 <= b < 2 ^ 53 ->
  F64.ltb (quarter a) (quarter b) = (a <? b).
Proof.
  intros Ha Hb. unfold F64.ltb, SFltb. rewrite compare_quarter by assumption.
  unfold Z.ltb. destruct (a ?= b); reflexivity.
Qed.

Lemma leb_quarter a b :
  0 <= a < 2 ^ 53 -> 0 <= b < 2 ^ 53 ->
  F64.leb (quarter a) (quarter b) = (a <=? b).
Proof.
  intros Ha Hb. unfold F64.leb, SFleb. rewrite compare_quarter by assumption.
  unfold Z.leb. destruct (a ?= b); reflexivity.
Qed.

Lemma compare_Z_quarter c n :
  0 <= c < 2 ^ 53 -> F64.compare_Z (quarter c) n = Some (c ?= 4 * n).
Proof.
  intros Hc. destruct c as [|p|p]; try lia.
  - cbn. f_equal. destruct n; reflexivity.
  - cbn [quarter]. unfold nf, F64.compare_Z.
    assert (Hd : dig p <= 53) by (apply dig_le_53; lia).
    pose proof (dig_pos p).
    destruct (-2 - (53 - dig p)) as [|e|e] eqn:Ee; try lia.
    f_equal. rewrite Z.pow_pos_fold.
    replace (Zpos e) with (2 + (53 - dig p)) by lia.
    rewrite shl_spec, Z.pow_add_r by lia. change (2 ^ 2) with 4.
    assert (P : 0 < 2 ^ (53 - dig p)) by (apply Z.pow_pos_nonneg; lia).
    replace (n * (4 * 2 ^ (53 - dig p))) with (4 * n * 2 ^ (53 - dig p)) by lia.
    apply mul_compare_r. assumption.
Qed.

Lemma lt_Z_quarter c n :
  0 <= c < 2 ^ 53 -> F64.lt_Z (quarter c) n = (c <? 4 * n).
Proof.
  intros Hc. unfold F64.lt_Z. rewrite compare_Z_quarter by assumption.
  unfold Z.ltb. destruct (c ?= 4 * n); reflexivity.
Qed.

Lemma gt_Z_quarter c n :
  0 <= c < 2 ^ 53 -> F64.gt_Z (quarter c) n = (4 * n <? c).
Proof.
  intros Hc. unfold F64.gt_Z. rewrite compare_Z_quarter by assumption.
  unfold Z.ltb. rewrite (Z.compare_antisym c (4 * n)).
  destruct (c ?= 4 * n); reflexivity.
Qed.

(** ** Rounding a quarter-multiple to an integer *)


Lemma py_round_quarter m :
  0 <= m < 2 ^ 53 -> F64.py_round (quarter m) = Ok (round_quarters m).
Proof.
  intros Hm. destruct m as [|p|p]; try lia; [reflexivity|].
  cbn [quarter]. unfold nf, F64.py_round.
  assert (Hd : dig p <= 53) by (apply dig_le_53; lia).
  pose proof (dig_pos p).
  destruct (-2 - (53 - dig p)) as [|e|e] eqn:Ee; try lia.
  f_equal. rewrite Z.pow_pos_fold.
  replace (Zpos e) with (2 + (53 - dig p)) by lia.
  rewrite shl_spec, Z.pow_add_r by lia. change (2 ^ 2) with 4.
  set (k := 2 ^ (53 - dig p)).
  assert (P : 0 < k) by (apply Z.pow_pos_nonneg; lia).
  assert (Eq : Zpos p * k / (4 * k) = Zpos p / 4).
  { rewrite (Z.mul_comm 4 k), <- Z.div_div by lia. now rewrite Z.div_mul by lia. }
  assert (Er : (Zpos p * k) mod (4 * k) = Zpos p mod 4 * k).
  { rewrite Z.mul_mod_distr_r by lia. reflexivity. }
  rewrite Eq, Er. unfold round_quarters.
  replace (2 * (Zpos p mod 4 * k) ?= 4 * k) with (Zpos p mod 4 ?= 2).
  - reflexivity.
  - replace (2 * (Zpos p mod 4 * k)) with (Zpos p mod 4 * (2 * k)) by lia.
    replace (4 * k) with (2 * (2 * k)) by lia.
    symmetry. apply mul_compare_r. lia.
Qed.

(** ** The simulation loop, step by step *)







Lemma mul_velocity j :
  0 <= j -> 20 * j < 2 ^ 53 ->
  F64.mul (quarter (20 * j)) t = quarter (2 * j).
Proof.
  intros H0 H1. destruct j as [|n|n]; try lia.
  - reflexivity.
  - apply mul_tenth. assumption.
Qed.

Lemma py_max_zero x :
  0 <= x < 2 ^ 53 ->
  F64.py_max F64.zero (quarter x) = quarter x.
Proof.
  intros Hx. unfold F64.py_max. rewrite zero_quarter, ltb_quarter by lia.
  destruct (Z.ltb_spec 0 x); [reflexivity|]. f_equal. lia.
Qed.

(** One pass of the float loop is one pass of the integer loop. *)
Lemma track_step_embed D mid s :
  0 < D < 2 ^ 50 ->
  0 <= qcurrent s < 4 * D ->
  0 <= qv s < 2 ^ 40 ->
  (below mid (qcurrent s) = false -> 1 <= qv s) ->
  track_step D (quarter (4 * D)) mid (embed s) = embed (qstep D mid s).
Proof.
  intros HD Hc Hj Hdec. destruct s as [c j raw]. cbn [qcurrent qv qraw] in *.
  unfold track_step, qstep, embed. cbn [current v raw_track qcurrent qv qraw].
  fold (below mid c).
  assert (P40 : 2 ^ 40 * 64 < 2 ^ 53) by (vm_compute; reflexivity).
  assert (P50 : 8 * 2 ^ 50 = 2 ^ 53) by (vm_compute; reflexivity).
  rewrite mul_velocity by lia.
  destruct (below mid c) eqn:B.
  - (* accelerating *)
    rewrite a1_t, half_a1_t_t.
    rewrite !add_quarter by lia.
    replace (20 * j + 20) with (20 * (j + 1)) by lia.
    rewrite py_max_zero by lia.
    rewrite gt_Z_quarter by lia.
    destruct (Z.ltb_spec (4 * D) (c + (2 * j + 1))) as [Hcl|Hcl].
    + rewrite sub_quarter by lia. rewrite add_quarter by lia.
      rewrite half_quarter, leb_quarter by lia.
      destruct (2 <=? 4 * D - c); [rewrite map_app|]; reflexivity.
    + rewrite add_quarter by lia.
      rewrite half_quarter, leb_quarter by lia.
      destruct (2 <=? 2 * j + 1); [rewrite map_app|]; reflexivity.
  - (* decelerating *)
    specialize (Hdec eq_refl).
    rewrite a2_t, half_a2_t_t.
    rewrite !add_quarter by lia.
    replace (20 * j + -20) with (20 * (j - 1)) by lia.
    rewrite py_max_zero by lia.
    replace (Z.max 0 (j - 1)) with (j - 1) by lia.
    replace (2 * j + -1) with (2 * j - 1) by lia.
    rewrite gt_Z_quarter by lia.
    destruct (Z.ltb_spec (4 * D) (c + (2 * j - 1))) as [Hcl|Hcl].
    + rewrite sub_quarter by lia. rewrite add_quarter by lia.
      rewrite half_quarter, leb_quarter by lia.
      destruct (2 <=? 4 * D - c); [rewrite map_app|]; reflexivity.
    + rewrite add_quarter by lia.
      rewrite half_quarter, leb_quarter by lia.
      destruct (2 <=? 2 * j - 1); [rewrite map_app|]; reflexivity.
Qed.



Lemma sum_app l1 l2 : sum (l1 ++ l2) = sum l1 + sum l2.
Proof. induction l1 as [|x l1 IH]; cbn; [reflexivity|]. unfold sum in *. lia. Qed.

Lemma round_quarters_odd k :
  1 <= k ->
  4 * rounded (2 * k + 1) - (2 * k + 1) = if k mod 2 =? 0 then -1 else 1.
Proof.
  intros Hk. unfold rounded, round_quarters.
  pose proof (Z.div_mod (2 * k + 1) 4 ltac:(lia)) as E.
  pose proof (Z.mod_pos_bound (2 * k + 1) 4 ltac:(lia)) as B.
  pose proof (Z.div_mod k 2 ltac:(lia)) as E2.
  pose proof (Z.mod_pos_bound k 2 ltac:(lia)) as B2.
  destruct (Z.eqb_spec (k mod 2) 0) as [H0|H0];
    destruct (Z.compare_spec ((2 * k + 1) mod 4) 2) as [C|C|C];
    try destruct (Z.even ((2 * k + 1) / 4)); lia.
Qed.

Lemma round_quarters_last m :
  2 <= m -> -2 <= 4 * rounded m - m <= 2.
Proof.
  intros Hm. unfold rounded, round_quarters.
  pose proof (Z.div_mod m 4 ltac:(lia)) as E.
  pose proof (Z.mod_pos_bound m 4 ltac:(lia)) as B.
  destruct (Z.compare_spec (m mod 4) 2) as [C|C|C];
    try destruct (Z.even (m / 4)); lia.
Qed.

Lemma rounded_pos m : 1 <= rounded m.
Proof. unfold rounded. lia. Qed.

Section Loop.

Variable D : Z.
Variable mid : float.
Hypothesis D_range : 0 < D < 2 ^ 50.
(** [mid] lies above [(2 D - 1) / 4] ... *)
Hypothesis below_mid : forall c, 0 <= c <= 2 * D - 1 -> below mid c = true.
(** ... and comparing with it is monotone. *)
Hypothesis below_mono :
  forall c c', 0 <= c <= c' -> c' < 2 ^ 53 ->
    below mid c = false -> below mid c' = false.




Lemma drift_step s move :
  drift {| qcurrent := qcurrent s + move;
           qv := qv s;
           qraw := if 2 <=? move then qraw s ++ [move] else qraw s |}
  = drift s + (4 * (if 2 <=? move then rounded move else 0) - move).
Proof.
  unfold drift. cbn [qcurrent qraw].
  destruct (2 <=? move).
  - rewrite map_app, sum_app. cbn [map].
    change (sum [rounded move]) with (rounded move + 0). lia.
  - lia.
Qed.

Lemma steps_ok_step s move j' :
  steps_ok D s -> move <= 4 * D ->
  steps_ok D {| qcurrent := qcurrent s + move;
              qv := j';
              qraw := if 2 <=? move then qraw s ++ [move] else qraw s |}.
Proof.
  unfold steps_ok. cbn [qraw]. intros H Hm.
  destruct (Z.leb_spec 2 move); [|assumption].
  apply Forall_app. split; [assumption|]. constructor; [lia|constructor].
Qed.

Lemma drift_irrelevant c j j' raw :
  drift {| qcurrent := c; qv := j; qraw := raw |}
  = drift {| qcurrent := c; qv := j'; qraw := raw |}.
Proof. reflexivity. Qed.

Lemma step_delta k :
  0 <= k ->
  4 * (if 2 <=? 2 * k + 1 then rounded (2 * k + 1) else 0) - (2 * k + 1)
  = if k mod 2 =? 0 then -1 else 1.
Proof.
  intros Hk. destruct (Z.leb_spec 2 (2 * k + 1)).
  - apply round_quarters_odd. lia.
  - assert (k = 0) by lia. subst k. reflexivity.
Qed.

Lemma last_delta m :
  1 <= m -> -2 <= 4 * (if 2 <=? m then rounded m else 0) - m <= 2.
Proof.
  intros Hm. destruct (Z.leb_spec 2 m).
  - apply round_quarters_last. assumption.
  - lia.
Qed.

Lemma running_step s :
  running D mid s ->
  (running D mid (qstep D mid s) \/ arrived D (qstep D mid s)) /\
  qcurrent s < qcurrent (qstep D mid s).
Proof.
  unfold running. cbv zeta. intros (Hc & Hj & Hjj & Hok & Hph).
  destruct s as [c j raw]. cbn [qcurrent qv qraw] in *.
  unfold qstep. cbn [qcurrent qv qraw].
  pose proof (Z.mod_pos_bound j 2 ltac:(lia)) as Bj.
  destruct (below mid c) eqn:B.
  - (* accelerating: only the first phase is possible *)
    destruct Hph as [[Ec Ed]|[Bf _]]; [|congruence].
    assert (Hdelta := step_delta j Hj).
    assert (Hlast := last_delta (4 * D - c) ltac:(lia)).
    destruct (Z.ltb_spec (4 * D) (c + (2 * j + 1))) as [Hcl|Hcl].
    + split; [right|lia]. unfold arrived. cbn [qcurrent].
      split; [lia|]. split; [apply (steps_ok_step {| qcurrent := c; qv := j; qraw := raw |}); [assumption|lia]|].
      rewrite (drift_irrelevant _ _ j).
      rewrite (drift_step {| qcurrent := c; qv := j; qraw := raw |}). lia.
    + split; [|lia].
      assert (Hd' : drift {| qcurrent := c + (2 * j + 1); qv := j + 1;
                             qraw := if 2 <=? 2 * j + 1 then raw ++ [2 * j + 1] else raw |}
                    = - ((j + 1) mod 2)).
      { rewrite (drift_irrelevant _ _ j).
        rewrite (drift_step {| qcurrent := c; qv := j; qraw := raw |}).
        rewrite Hdelta, Ed.
        pose proof (Z.mod_pos_bound (j + 1) 2 ltac:(lia)).
        pose proof (Z.div_mod j 2 ltac:(lia)).
        pose proof (Z.div_mod (j + 1) 2 ltac:(lia)).
        destruct (Z.eqb_spec (j mod 2) 0); lia. }
      assert (Hok' := steps_ok_step {| qcurrent := c; qv := j; qraw := raw |}
                        (2 * j + 1) (j + 1) Hok ltac:(lia)).
      cbn [qcurrent qraw] in Hok'.
      destruct (Z.eq_dec (c + (2 * j + 1)) (4 * D)) as [Hf|Hf].
      * pose proof (Z.mod_pos_bound (j + 1) 2 ltac:(lia)).
        right. unfold arrived. cbn [qcurrent]. repeat split; try assumption; lia.
      * left. cbn [qcurrent qv]. repeat split; try assumption; lia.
  - (* decelerating *)
    assert (Hph' : 4 * D <= c + j * j /\
                   (drift {| qcurrent := c; qv := j; qraw := raw |} - j mod 2 = 0 \/
                    drift {| qcurrent := c; qv := j; qraw := raw |} - j mod 2 = -2)).
    { destruct Hph as [[Ec Ed]|[_ H]]; [|assumption].
      assert (2 * D <= c).
      { destruct (Z_le_gt_dec (2 * D) c); [assumption|].
        rewrite below_mid in B by lia. discriminate. }
      split; [lia|]. rewrite Ed. lia. }
    destruct Hph' as [Hreach Hd].
    assert (Hj1 : 1 <= j) by nia.
    replace (Z.max 0 (j - 1)) with (j - 1) by lia.
    assert (Hdelta := step_delta (j - 1) ltac:(lia)).
    replace (2 * (j - 1) + 1) with (2 * j - 1) in Hdelta by lia.
    assert (Hlast := last_delta (4 * D - c) ltac:(lia)).
    destruct (Z.ltb_spec (4 * D) (c + (2 * j - 1))) as [Hcl|Hcl].
    + split; [right|lia]. unfold arrived. cbn [qcurrent].
      split; [lia|]. split; [apply (steps_ok_step {| qcurrent := c; qv := j; qraw := raw |}); [assumption|lia]|].
      rewrite (drift_irrelevant _ _ j).
      rewrite (drift_step {| qcurrent := c; qv := j; qraw := raw |}). lia.
    + split; [|lia].
      assert (Hd' : drift {| qcurrent := c + (2 * j - 1); qv := j - 1;
                             qraw := if 2 <=? 2 * j - 1 then raw ++ [2 * j - 1] else raw |}
                    - (j - 1) mod 2
                    = drift {| qcurrent := c; qv := j; qraw := raw |} - j mod 2).
      { rewrite (drift_irrelevant _ _ j).
        rewrite (drift_step {| qcurrent := c; qv := j; qraw := raw |}).
        rewrite Hdelta.
        pose proof (Z.mod_pos_bound (j - 1) 2 ltac:(lia)).
        pose proof (Z.div_mod j 2 ltac:(lia)).
        pose proof (Z.div_mod (j - 1) 2 ltac:(lia)).
        destruct (Z.eqb_spec ((j - 1) mod 2) 0); lia. }
      assert (Hok' := steps_ok_step {| qcurrent := c; qv := j; qraw := raw |}
                        (2 * j - 1) (j - 1) Hok ltac:(lia)).
      cbn [qcurrent qraw] in Hok'.
      pose proof (Z.mod_pos_bound (j - 1) 2 ltac:(lia)).
      destruct (Z.eq_dec (c + (2 * j - 1)) (4 * D)) as [Hf|Hf].
      * right. unfold arrived. cbn [qcurrent]. repeat split; try assumption; lia.
      * left. cbn [qcurrent qv]. repeat split; try assumption; try lia; try nia.
        right. split; [|split; [nia|lia]].
        apply (below_mono c); [lia| |assumption].
        assert (8 * 2 ^ 50 = 2 ^ 53) by (vm_compute; reflexivity). lia.
Qed.

Lemma running_velocity s :
  running D mid s ->
  0 <= qv s < 2 ^ 40 /\ (below mid (qcurrent s) = false -> 1 <= qv s).
Proof.
  unfold running. cbv zeta. intros (Hc & Hj & Hjj & Hok & Hph).
  split.
  - assert (2 ^ 40 * 2 ^ 40 > 4 * 2 ^ 50) by (vm_compute; reflexivity). nia.
  - intros B. destruct Hph as [[Ec Ed]|[_ [H _]]]; [|nia].
    destruct (Z_le_gt_dec 1 (qv s)); [assumption|].
    assert (qv s = 0) by lia. rewrite below_mid in B by nia. discriminate.
Qed.

(** The float loop follows the integer loop. *)
Lemma track_loop_embed fuel : forall s,
  running D mid s \/ arrived D s ->
  track_loop fuel D (quarter (4 * D)) mid (embed s)
    = option_map embed (qloop fuel D mid s).
Proof.
  assert (P : 8 * 2 ^ 50 = 2 ^ 53) by (vm_compute; reflexivity).
  induction fuel as [|fuel IH]; intros s Hs.
  - cbn [track_loop qloop]. cbn [embed current].
    destruct Hs as [Hr|Ha].
    + destruct Hr as (Hc & _). rewrite lt_Z_quarter by lia.
      destruct (qcurrent s <? 4 * D); reflexivity.
    + destruct Ha as (Hc & _). rewrite lt_Z_quarter by lia. rewrite Hc.
      rewrite Z.ltb_irrefl. reflexivity.
  - cbn [track_loop qloop]. cbn [embed current]. fold (embed s).
    destruct Hs as [Hr|Ha].
    + pose proof Hr as (Hc & _). rewrite lt_Z_quarter by lia.
      destruct (Z.ltb_spec (qcurrent s) (4 * D)); [|lia].
      destruct (running_velocity s Hr) as [Hv Hd].
      rewrite track_step_embed by (auto; lia).
      apply IH. apply running_step. assumption.
    + destruct Ha as (Hc & _). rewrite lt_Z_quarter by lia. rewrite Hc.
      rewrite Z.ltb_irrefl. reflexivity.
Qed.

(** With enough fuel the integer loop exits, in an [arrived] state. *)
Lemma qloop_arrives fuel : forall s,
  running D mid s \/ arrived D s ->
  (Z.to_nat (4 * D - qcurrent s) <= fuel)%nat ->
  exists s', qloop fuel D mid s = Some s' /\ arrived D s'.
Proof.
  induction fuel as [|fuel IH]; intros s Hs Hf.
  - cbn [qloop]. destruct Hs as [Hr|Ha].
    + destruct Hr as (Hc & _). lia.
    + pose proof Ha as (Hc & _). rewrite Hc, Z.ltb_irrefl. eauto.
  - cbn [qloop]. destruct Hs as [Hr|Ha].
    + pose proof Hr as (Hc & _).
      destruct (Z.ltb_spec (qcurrent s) (4 * D)); [|lia].
      destruct (running_step s Hr) as [Hn Hlt].
      apply IH; [assumption|].
      destruct Hn as [(Hc' & _)|(Hc' & _)]; lia.
    + pose proof Ha as (Hc & _). rewrite Hc, Z.ltb_irrefl. eauto.
Qed.

End Loop.

(** ** Comparing with the midpoint is monotone, whatever the midpoint *)

Lemma nf_mono p q :
  Zpos p <= Zpos q -> dig p <= 53 -> dig q <= 53 ->
  dig p < dig q \/
  (dig p = dig q /\ Zpos (shl p (53 - dig p)) <= Zpos (shl q (53 - dig q))).
Proof.
  intros Hpq Hp Hq.
  pose proof (dig_bounds p) as [Bp1 Bp2]. pose proof (dig_bounds q) as [Bq1 Bq2].
  pose proof (dig_pos p). pose proof (dig_pos q).
  destruct (Z.lt_trichotomy (dig p) (dig q)) as [L|[E|G]].
  - left. assumption.
  - right. split; [assumption|]. rewrite E, !shl_spec by lia.
    apply Z.mul_le_mono_nonneg_r; [apply Z.pow_nonneg|]; lia.
  - assert (2 ^ dig q <= 2 ^ (dig p - 1)) by (apply Z.pow_le_mono_r; lia). lia.
Qed.

Lemma below_monotone mid c c' :
  0 <= c <= c' -> c' < 2 ^ 53 ->
  below mid c = false -> below mid c' = false.
Proof.
  intros Hc Hc'. unfold below, F64.ltb, SFltb.
  destruct c as [|p|p]; try lia.
  - (* [0 < mid] fails: [mid] is not positive *)
    destruct c' as [|q|q]; try lia; [auto|].
    cbn [quarter]. unfold nf.
    destruct mid as [s|s| |s m e]; cbn [SFcompare]; try destruct s; auto; discriminate.
  - destruct c' as [|q|q]; try lia.
    cbn [quarter]. unfold nf.
    assert (Hp : dig p <= 53) by (apply dig_le_53; lia).
    assert (Hq : dig q <= 53) by (apply dig_le_53; lia).
    destruct (nf_mono p q ltac:(lia) Hp Hq) as [L|[E L]].
    + destruct mid as [s|s| |s m e]; cbn [SFcompare]; try destruct s; auto.
      destruct (Z.compare_spec (-2 - (53 - dig p)) e);
        destruct (Z.compare_spec (-2 - (53 - dig q)) e); auto; try lia; discriminate.
    + destruct mid as [s|s| |s m e]; cbn [SFcompare]; try destruct s; auto.
      rewrite E.
      destruct (Z.compare_spec (-2 - (53 - dig q)) e); auto.
      rewrite E in L.
      change (Pos.compare_cont Eq (shl p (53 - dig q)) m)
        with (Zpos (shl p (53 - dig q)) ?= Zpos m).
      change (Pos.compare_cont Eq (shl q (53 - dig q)) m)
        with (Zpos (shl q (53 - dig q)) ?= Zpos m).
      destruct (Z.compare_spec (Zpos (shl p (53 - dig q))) (Zpos m));
        destruct (Z.compare_spec (Zpos (shl q (53 - dig q))) (Zpos m));
        auto; try lia; discriminate.
Qed.

(** ** Rounding the steps and mending the last one *)

Lemma round_steps_quarter raw :
  Forall (fun m => 0 <= m < 2 ^ 53) raw ->
  round_steps (map quarter raw) = Ok (map rounded raw).
Proof.
  induction 1 as [|m raw Hm _ IH]; [reflexivity|].
  cbn [map round_steps]. rewrite py_round_quarter by assumption. now rewrite IH.
Qed.

Lemma fix_last_sum track delta :
  track <> [] -> Forall (fun x => 1 <= x) track -> 0 <= delta ->
  sum (fix_last track delta) = sum track + delta.
Proof.
  intros Hne Hall Hd. induction track as [|x rest IH]; [congruence|].
  inversion Hall as [|? ? Hx Hrest]; subst.
  destruct rest as [|y rest'].
  - cbn. lia.
  - change (fix_last (x :: y :: rest') delta) with (x :: fix_last (y :: rest') delta).
    change (sum (x :: fix_last (y :: rest') delta))
      with (x + sum (fix_last (y :: rest') delta)).
    rewrite IH by (auto; congruence).
    change (sum (x :: y :: rest')) with (x + sum (y :: rest')). lia.
Qed.

Lemma fix_last_pos track delta :
  Forall (fun x => 1 <= x) track ->
  Forall (fun x => 1 <= x) (fix_last track delta).
Proof.
  induction track as [|x rest IH]; intros Hall; [constructor|].
  inversion Hall as [|? ? Hx Hrest]; subst.
  destruct rest as [|y rest'].
  - cbn. constructor; [lia|constructor].
  - change (fix_last (x :: y :: rest') delta) with (x :: fix_last (y :: rest') delta).
    constructor; auto.
Qed.

Lemma fix_last_nonempty track delta : track <> [] -> fix_last track delta <> [].
Proof. destruct track as [|x [|y rest]]; cbn; congruence. Qed.

Lemma rounded_all raw : Forall (fun x => 1 <= x) (map rounded raw).
Proof. induction raw; cbn; constructor; auto using rounded_pos. Qed.

(** ** The trajectory, given a midpoint above [(2 D - 1) / 4] *)

Lemma generate_track_exact D :
  0 < D < 2 ^ 50 ->
  (forall c, 0 <= c <= 2 * D - 1 ->
     below (mid_distance_of (quarter (4 * D))) c = true) ->
  exists track,
    generate_track (Z.to_nat (4 * D)) D = Returns track /\
    sum track = D /\ track <> [] /\ Forall (fun x => 1 <= x) track.
Proof.
  intros HD Hmid. unfold generate_track.
  destruct (Z.leb_spec D 0); [lia|].
  assert (P : 8 * 2 ^ 50 = 2 ^ 53) by (vm_compute; reflexivity).
  assert (ET : F64.py_float D = Ok (quarter (4 * D))).
  { unfold F64.py_float.
    assert (P51 : 2 ^ 50 < 2 ^ 51) by (vm_compute; reflexivity).
    rewrite of_Z_quarter by lia.
    destruct D as [|p|p]; try lia. reflexivity. }
  rewrite ET. set (mid := mid_distance_of (quarter (4 * D))) in *.
  set (s0 := {| qcurrent := 0; qv := 0; qraw := [] |}).
  change {| current := F64.zero; v := F64.zero; raw_track := [] |} with (embed s0).
  assert (R0 : running D mid s0).
  { unfold running, s0, steps_ok, drift. cbv zeta. cbn [qcurrent qv qraw map].
    change (sum []) with 0.
    split; [lia|]. split; [lia|]. split; [lia|]. split; [constructor|].
    left. split; reflexivity. }
  rewrite (track_loop_embed D mid HD Hmid (below_monotone mid)) by (left; exact R0).
  destruct (qloop_arrives D mid HD Hmid (below_monotone mid) (Z.to_nat (4 * D)) s0)
    as (s' & E & Hc & Hok & Hdrift); [left; exact R0|cbn; lia|].
  rewrite E. cbn [option_map embed raw_track].
  unfold drift in Hdrift. rewrite Hc in Hdrift.
  destruct (qraw s') as [|m raw] eqn:Eraw.
  - (* no step was kept *)
    cbn [map]. cbn [round_steps]. rewrite py_round_quarter by lia.
    cbn [map sum fold_right] in Hdrift.
    assert (D = 1) by lia. subst D. eexists. split; [reflexivity|].
    cbn. repeat split; try lia; try congruence. constructor; [lia|constructor].
  - cbn [map]. cbv iota.
    change (quarter m :: map quarter raw) with (map quarter (m :: raw)).
    rewrite round_steps_quarter.
    + eexists. split; [reflexivity|].
      set (track := map rounded (m :: raw)) in *.
      assert (Hne : track <> []) by (unfold track; cbn; congruence).
      split; [|split].
      * rewrite fix_last_sum; try lia; auto. apply rounded_all.
      * apply fix_last_nonempty. assumption.
      * apply fix_last_pos. apply rounded_all.
    + unfold steps_ok in Hok. rewrite Eraw in Hok.
      eapply Forall_impl; [|exact Hok]. cbv beta. intros a Ha. lia.
Qed.

(** ** The midpoint, through real numbers *)





Lemma bpow_pos e : (0 < bpow e)%R.
Proof. apply powerRZ_lt. lra. Qed.

Lemma bpow_add a b : bpow (a + b) = (bpow a * bpow b)%R.
Proof. apply powerRZ_add. lra. Qed.

Lemma bpow_IZR k : 0 <= k -> bpow k = IZR (2 ^ k).
Proof.
  intros Hk. unfold bpow. destruct k as [|p|p]; try lia.
  - reflexivity.
  - rewrite <- Z.pow_pos_fold. now rewrite Zpower_pos_powerRZ.
Qed.

Lemma bpow_le a b : a <= b -> (bpow a <= bpow b)%R.
Proof.
  intros H. replace b with (a + (b - a)) by lia. rewrite bpow_add.
  rewrite (bpow_IZR (b - a)) by lia.
  assert (H1 : 0 < 2 ^ (b - a)) by (apply Z.pow_pos_nonneg; lia).
  assert (H2 : 1 <= 2 ^ (b - a)) by lia.
  apply IZR_le in H2. pose proof (bpow_pos a). nra.
Qed.

Lemma u_value : (u * IZR (2 ^ 52) = 1)%R.
Proof.
  unfold u. rewrite <- (bpow_IZR 52) by lia. rewrite <- bpow_add.
  reflexivity.
Qed.

Lemma u_pos : (0 < u)%R.
Proof. apply bpow_pos. Qed.

Lemma pval_pos m e : (0 < pval m e)%R.
Proof.
  unfold pval. apply Rmult_lt_0_compat; [|apply bpow_pos].
  apply IZR_lt. lia.
Qed.

(** A 53-digit mantissa plus one unit is within [1 + u] of itself. *)
Lemma succ_within m : 2 ^ 52 <= m -> (IZR (m + 1) <= IZR m * (1 + u))%R.
Proof.
  intros H. rewrite plus_IZR. apply IZR_le in H.
  pose proof u_value. pose proof u_pos. nra.
Qed.

(** ** Rounding loses less than a factor [1 + u] *)

Lemma binary_round_aux_lower s mx e l :
  53 <= dig mx ->
  -1074 <= e + dig mx - 53 -> e + dig mx - 53 + 1 <= 971 ->
  exists m' e',
    binary_round_aux 53 1024 s (Zpos mx) e l = S754_finite s m' e' /\
    dig m' = 53 /\
    e + dig mx - 53 <= e' <= e + dig mx - 52 /\
    (pval mx e < pval m' e' * (1 + u))%R.
Proof.
  intros Hd He1 He2.
  destruct (binary_round_aux_faithful s mx e l Hd He1 He2)
    as (m' & e' & E & Dm & H).
  exists m', e'. split; [exact E|]. split; [exact Dm|].
  set (sh := dig mx - 53) in *. set (q := Zpos mx / 2 ^ sh) in *.
  assert (Psh : 0 < 2 ^ sh) by (apply Z.pow_pos_nonneg; lia).
  assert (Hq : 2 ^ 52 <= q < 2 ^ 53) by (apply trunc_bounds; assumption).
  assert (HM : Zpos mx < (q + 1) * 2 ^ sh).
  { pose proof (Z.div_mod (Zpos mx) (2 ^ sh) ltac:(lia)).
    pose proof (Z.mod_pos_bound (Zpos mx) (2 ^ sh) Psh). fold q in H0. lia. }
  apply IZR_lt in HM. rewrite mult_IZR in HM.
  rewrite <- (bpow_IZR sh) in HM by lia.
  pose proof (bpow_pos e) as Pe. pose proof (bpow_pos sh) as Ps.
  pose proof u_pos as Pu.
  unfold pval.
  destruct H as [[Ee [Hm|Hm]]|[Ee [Hm Hc]]].
  - split; [lia|]. subst e'. replace (e + dig mx - 53) with (e + sh) by lia.
    rewrite bpow_add, Hm.
    pose proof (succ_within q ltac:(lia)) as Hs.
    assert (H1 : (IZR (Zpos mx) < IZR q * (1 + u) * bpow sh)%R).
    { eapply Rlt_le_trans; [exact HM|]. apply Rmult_le_compat_r; lra. }
    apply (Rmult_lt_compat_r (bpow e)) in H1; [|exact Pe]. lra.
  - split; [lia|]. subst e'. replace (e + dig mx - 53) with (e + sh) by lia.
    rewrite bpow_add, Hm.
    assert (H0 : (0 < IZR (q + 1))%R) by (apply IZR_lt; lia).
    assert (H1 : (IZR (Zpos mx) * bpow e < IZR (q + 1) * bpow sh * bpow e)%R)
      by (apply Rmult_lt_compat_r; assumption).
    assert (H2 : (0 < IZR (q + 1) * bpow sh * bpow e * u)%R)
      by (repeat apply Rmult_lt_0_compat; assumption).
    lra.
  - split; [lia|]. subst e'. replace (e + dig mx - 53 + 1) with (e + sh + 1) by lia.
    rewrite !bpow_add, Hm. rewrite Hc in HM.
    assert (B1 : bpow 1 = 2%R) by (unfold bpow; simpl; lra).
    assert (B53 : IZR (2 ^ 53) = (2 * IZR (2 ^ 52))%R)
      by (rewrite <- mult_IZR; reflexivity).
    rewrite B1. rewrite B53 in HM.
    assert (H0 : (0 < IZR (2 ^ 52))%R) by (apply IZR_lt; lia).
    assert (H1 : (IZR (Zpos mx) * bpow e < 2 * IZR (2 ^ 52) * bpow sh * bpow e)%R)
      by (apply Rmult_lt_compat_r; [exact Pe | exact HM]).
    assert (H2 : (0 < IZR (2 ^ 52) * bpow sh * bpow e * u)%R).
    { apply Rmult_lt_0_compat; [|exact Pu].
      apply Rmult_lt_0_compat; [|exact Pe].
      apply Rmult_lt_0_compat; [exact H0|exact Ps]. }
    lra.
Qed.

Lemma dig_53_bounds m : dig m = 53 -> 2 ^ 52 <= Zpos m < 2 ^ 53.
Proof. intros H. pose proof (dig_bounds m) as B. rewrite H in B. exact B. Qed.

Lemma dig_between p lo hi :
  2 ^ lo <= Zpos p < 2 ^ hi -> 0 <= lo -> lo + 1 <= dig p <= hi.
Proof.
  intros [H1 H2] Hlo. pose proof (dig_bounds p) as [B1 B2]. pose proof (dig_pos p).
  split.
  - destruct (Z_le_gt_dec (lo + 1) (dig p)); [assumption|].
    assert (2 ^ dig p <= 2 ^ lo) by (apply Z.pow_le_mono_r; lia). lia.
  - destruct (Z_le_gt_dec (dig p) hi); [assumption|].
    assert (2 ^ hi <= 2 ^ (dig p - 1)) by (apply Z.pow_le_mono_r; lia). lia.
Qed.

Lemma pval_mul mx ex my ey :
  pval (mx * my) (ex + ey) = (pval mx ex * pval my ey)%R.
Proof. unfold pval. rewrite Pos2Z.inj_mul, mult_IZR, bpow_add. ring. Qed.

(** ** Multiplication *)

Lemma mul_lower mx ex my ey :
  dig mx = 53 -> dig my = 53 -> -500 <= ex + ey <= 500 ->
  exists m' e',
    F64.mul (S754_finite false mx ex) (S754_finite false my ey)
      = S754_finite false m' e' /\
    dig m' = 53 /\
    ex + ey + 52 <= e' <= ex + ey + 54 /\
    (pval mx ex * pval my ey < pval m' e' * (1 + u))%R.
Proof.
  intros Hx Hy He. unfold F64.mul, F64.prec, F64.emax. cbn [SFmul xorb].
  pose proof (dig_53_bounds mx Hx) as Bx. pose proof (dig_53_bounds my Hy) as By.
  assert (Hd : 105 <= dig (mx * my) <= 106).
  { change 105 with (104 + 1). apply dig_between; [|lia].
    rewrite Pos2Z.inj_mul.
    change (2 ^ 104) with (2 ^ 52 * 2 ^ 52). change (2 ^ 106) with (2 ^ 53 * 2 ^ 53).
    split; nia. }
  destruct (binary_round_aux_lower false (mx * my) (ex + ey) loc_Exact)
    as (m' & e' & E & Dm & Hr & Hv); try lia.
  exists m', e'. rewrite <- pval_mul. repeat split; auto; lia.
Qed.

(** ** Division *)

Lemma div_lower mx ex my ey :
  dig mx = 53 -> dig my = 53 -> -500 <= ex - ey <= 500 ->
  exists m' e',
    F64.div (S754_finite false mx ex) (S754_finite false my ey)
      = S754_finite false m' e' /\
    dig m' = 53 /\
    ex - ey - 53 <= e' <= ex - ey - 51 /\
    (pval mx ex < pval my ey * pval m' e' * ((1 + u) * (1 + u)))%R.
Proof.
  intros Hx Hy He. unfold F64.div, F64.prec, F64.emax. cbn [SFdiv xorb].
  unfold SFdiv_core_binary. cbn [Zdigits2].
  change (Zpos (digits2_pos mx)) with (dig mx).
  change (Zpos (digits2_pos my)) with (dig my).
  rewrite Hx, Hy.
  rewrite fexp_normal by lia.
  replace (Z.min (53 + ex - (53 + ey) - 53) (ex - ey)) with (ex - ey - 53) by lia.
  replace (ex - ey - (ex - ey - 53)) with 53 by lia. cbv iota.
  rewrite Z.shiftl_mul_pow2 by lia.
  pose proof (dig_53_bounds mx Hx) as Bx. pose proof (dig_53_bounds my Hy) as By.
  destruct (Z.div_eucl (Zpos mx * 2 ^ 53) (Zpos my)) as [q r] eqn:Eqr.
  assert (Hq : q = Zpos mx * 2 ^ 53 / Zpos my) by (unfold Z.div; now rewrite Eqr).
  assert (Hq1 : 2 ^ 52 <= q) by (subst q; apply Z.div_le_lower_bound; lia).
  assert (Hq2 : q < 2 ^ 54).
  { subst q. apply Z.div_lt_upper_bound; [lia|].
    change (2 ^ 54) with (2 * 2 ^ 53). nia. }
  assert (Hq3 : Zpos mx * 2 ^ 53 < (q + 1) * Zpos my).
  { pose proof (Z.div_mod (Zpos mx * 2 ^ 53) (Zpos my) ltac:(lia)) as Hdm.
    pose proof (Z.mod_pos_bound (Zpos mx * 2 ^ 53) (Zpos my) ltac:(lia)).
    rewrite <- Hq in Hdm. lia. }
  destruct q as [|pq|pq]; try lia.
  assert (Hd : 53 <= dig pq <= 54).
  { change 53 with (52 + 1) at 1. apply dig_between; lia. }
  destruct (binary_round_aux_lower false pq (ex - ey - 53) (new_location (Zpos my) r))
    as (m' & e' & E & Dm & Hr & Hv); try lia.
  exists m', e'. split; [exact E|]. split; [exact Dm|]. split; [lia|].
  (* the value *)
  apply IZR_lt in Hq3. rewrite !mult_IZR in Hq3.
  rewrite <- (bpow_IZR 53) in Hq3 by lia.
  pose proof (succ_within (Zpos pq) ltac:(lia)) as Hs.
  assert (Py : (0 < IZR (Zpos my))%R) by (apply IZR_lt; lia).
  assert (Pq : (0 < IZR (Zpos pq))%R) by (apply IZR_lt; lia).
  pose proof u_pos as Pu.
  assert (H1 : (IZR (Zpos mx) * bpow 53 < IZR (Zpos pq) * (1 + u) * IZR (Zpos my))%R).
  { eapply Rlt_le_trans; [exact Hq3|]. apply Rmult_le_compat_r; lra. }
  unfold pval in *.
  replace ex with (53 + (ex - ey - 53) + ey) at 1 by lia.
  rewrite !bpow_add.
  pose proof (bpow_pos (ex - ey - 53)) as P1. pose proof (bpow_pos ey) as P2.
  pose proof (bpow_pos e') as P3.
  assert (H2 : (IZR (Zpos mx) * bpow 53 * bpow (ex - ey - 53)
                < IZR (Zpos pq) * (1 + u) * IZR (Zpos my) * bpow (ex - ey - 53))%R)
    by (apply Rmult_lt_compat_r; assumption).
  assert (H3 : (IZR (Zpos pq) * bpow (ex - ey - 53) * ((1 + u) * IZR (Zpos my))
                < IZR (Zpos m') * bpow e' * (1 + u) * ((1 + u) * IZR (Zpos my)))%R).
  { apply Rmult_lt_compat_r; [|assumption].
    apply Rmult_lt_0_compat; lra. }
  assert (H4 : (IZR (Zpos mx) * bpow 53 * bpow (ex - ey - 53)
                < IZR (Zpos m') * bpow e' * (1 + u) * ((1 + u) * IZR (Zpos my)))%R) by lra.
  apply (Rmult_lt_compat_r (bpow ey)) in H4; [|exact P2]. lra.
Qed.

(** ** Square root *)

Lemma sqrt_lower mx ex :
  dig mx = 53 -> -500 <= ex <= 500 ->
  exists m' e',
    F64.sqrt (S754_finite false mx ex) = S754_finite false m' e' /\
    dig m' = 53 /\
    ex / 2 - 26 <= e' <= ex / 2 - 25 /\
    (pval mx ex
       < pval m' e' * pval m' e' * ((1 + u) * (1 + u) * ((1 + u) * (1 + u))))%R.
Proof.
  intros Hx He. unfold F64.sqrt, F64.prec, F64.emax. cbn [SFsqrt].
  unfold SFsqrt_core_binary. cbn [Zdigits2].
  change (Zpos (digits2_pos mx)) with (dig mx). rewrite Hx.
  rewrite !Z.div2_div.
  set (h := ex / 2).
  assert (Hh : ex = 2 * h + ex mod 2) by (apply Z.div_mod; lia).
  pose proof (Z.mod_pos_bound ex 2 ltac:(lia)) as Hr.
  assert (E1 : (53 + ex + 1) / 2 = h + 27).
  { replace (53 + ex + 1) with (ex + 27 * 2) by lia.
    rewrite Z.div_add by lia. reflexivity. }
  rewrite E1. rewrite fexp_normal by lia.
  replace (Z.min (h + 27 - 53) h) with (h - 26) by lia.
  set (s := ex - 2 * (h - 26)).
  assert (Hs : s = 52 + ex mod 2) by (unfold s; lia).
  pose proof (dig_53_bounds mx Hx) as Bx.
  assert (Em : match s with
               | 0 => Zpos mx
               | Zpos _ => Z.shiftl (Zpos mx) s
               | Zneg _ => 0
               end = Zpos mx * 2 ^ s).
  { destruct s as [|ps|ps] eqn:Es; try lia.
    rewrite Z.shiftl_mul_pow2 by lia. reflexivity. }
  rewrite Em. set (M := Zpos mx * 2 ^ s) in *.
  assert (Ps : 2 ^ 52 <= 2 ^ s <= 2 ^ 53).
  { split; apply Z.pow_le_mono_r; lia. }
  assert (HM : 2 ^ 52 * 2 ^ 52 <= M < 2 ^ 53 * 2 ^ 53) by (unfold M; nia).
  destruct (Z.sqrtrem M) as [q r] eqn:Eqr.
  assert (Hq : q = Z.sqrt M) by (rewrite <- Z.sqrtrem_sqrt, Eqr; reflexivity).
  pose proof (Z.sqrt_spec M ltac:(lia)) as [Sq1 Sq2]. rewrite <- Hq in Sq1, Sq2.
  assert (Hq0 : 0 <= q) by (subst q; apply Z.sqrt_nonneg).
  assert (Hq1 : 2 ^ 52 <= q) by nia.
  assert (Hq2 : q < 2 ^ 53) by nia.
  destruct q as [|pq|pq]; try lia.
  assert (Hd : dig pq = 53) by (apply dig_unique; lia).
  set (l := if r =? 0 then loc_Exact
            else loc_Inexact (if r <=? Zpos pq then Lt else Gt)).
  destruct (binary_round_aux_lower false pq (h - 26) l)
    as (m' & e' & E & Dm & Hrange & Hv); try lia.
  exists m', e'. split; [exact E|]. split; [exact Dm|]. split; [lia|].
  (* the value *)
  unfold Z.succ in Sq2.
  assert (H1 : (IZR M < IZR (Zpos pq + 1) * IZR (Zpos pq + 1))%R)
    by (rewrite <- mult_IZR; apply IZR_lt; lia).
  pose proof (succ_within (Zpos pq) ltac:(lia)) as Hsw.
  pose proof u_pos as Pu.
  assert (Pq : (0 < IZR (Zpos pq))%R) by (apply IZR_lt; lia).
  assert (Pq1 : (0 < IZR (Zpos pq + 1))%R) by (apply IZR_lt; lia).
  set (b := bpow (h - 26)) in *.
  assert (Pb : (0 < b)%R) by apply bpow_pos.
  assert (Ev : pval mx ex = (IZR M * (b * b))%R).
  { unfold pval, M, b. rewrite mult_IZR, <- (bpow_IZR s) by lia.
    rewrite <- !bpow_add, Rmult_assoc, <- bpow_add. do 2 f_equal. lia. }
  rewrite Ev. unfold pval in Hv. fold b in Hv. unfold pval.
  set (A := IZR (Zpos pq)) in *. set (A1 := IZR (Zpos pq + 1)) in *.
  set (Y := (IZR (Zpos m') * bpow e')%R) in *.
  assert (PY : (0 < Y)%R).
  { unfold Y. apply Rmult_lt_0_compat; [apply IZR_lt; lia|apply bpow_pos]. }
  (* A1 * b <= A * b * (1+u) < Y * (1+u) * (1+u) *)
  assert (H2 : (A1 * b < Y * ((1 + u) * (1 + u)))%R).
  { assert (A1 * b <= A * b * (1 + u))%R by nra.
    assert (A * b * (1 + u) < Y * (1 + u) * (1 + u))%R
      by (apply Rmult_lt_compat_r; lra).
    lra. }
  set (Z0 := (Y * ((1 + u) * (1 + u)))%R) in *.
  assert (PA1 : (0 < A1 * b)%R) by (apply Rmult_lt_0_compat; assumption).
  assert (H3 : (A1 * b * (A1 * b) < Z0 * Z0)%R)
    by (apply Rmult_le_0_lt_compat; lra).
  assert (H4 : (IZR M * (b * b) < A1 * A1 * (b * b))%R).
  { apply Rmult_lt_compat_r; [|assumption]. apply Rmult_lt_0_compat; assumption. }
  unfold Z0 in H3. lra.
Qed.

(** ** Order through values *)

Lemma ltb_of_pval mx ex my ey :
  dig mx = 53 -> dig my = 53 ->
  (pval mx ex < pval my ey)%R ->
  F64.ltb (S754_finite false mx ex) (S754_finite false my ey) = true.
Proof.
  intros Hx Hy Hv. unfold F64.ltb, SFltb. cbn [SFcompare].
  pose proof (dig_53_bounds mx Hx) as Bx. pose proof (dig_53_bounds my Hy) as By.
  unfold pval in Hv.
  destruct (Z.compare_spec ex ey) as [E|L|G].
  - subst ey.
    apply Rmult_lt_reg_r in Hv; [|apply bpow_pos]. apply lt_IZR in Hv.
    change (Pos.compare_cont Eq mx my) with (Zpos mx ?= Zpos my).
    apply Z.compare_lt_iff in Hv. now rewrite Hv.
  - reflexivity.
  - exfalso.
    assert (H1 : (bpow (ey + 1) <= bpow ex)%R) by (apply bpow_le; lia).
    rewrite bpow_add in H1.
    assert (B1 : bpow 1 = 2%R) by (unfold bpow; simpl; lra).
    rewrite B1 in H1.
    assert (H2 : (IZR (2 ^ 52) <= IZR (Zpos mx))%R) by (apply IZR_le; lia).
    assert (H3 : (IZR (Zpos my) < IZR (2 ^ 53))%R) by (apply IZR_lt; lia).
    assert (B53 : IZR (2 ^ 53) = (2 * IZR (2 ^ 52))%R)
      by (rewrite <- mult_IZR; reflexivity).
    rewrite B53 in H3.
    pose proof (bpow_pos ey) as Py. pose proof (bpow_pos ex) as Px.
    assert (P52 : (0 < IZR (2 ^ 52))%R) by (apply IZR_lt; lia).
    assert (H4 : (IZR (Zpos my) * bpow ey < 2 * IZR (2 ^ 52) * bpow ey)%R)
      by (apply Rmult_lt_compat_r; assumption).
    assert (H5 : (IZR (2 ^ 52) * (bpow ey * 2) <= IZR (2 ^ 52) * bpow ex)%R)
      by (apply Rmult_le_compat_l; lra).
    assert (H6 : (IZR (2 ^ 52) * bpow ex <= IZR (Zpos mx) * bpow ex)%R)
      by (apply Rmult_le_compat_r; lra).
    lra.
Qed.

Lemma pval_nf p e :
  dig p <= 53 ->
  pval (shl p (53 - dig p)) (e - (53 - dig p)) = (IZR (Zpos p) * bpow e)%R.
Proof.
  intros Hd. unfold pval. rewrite shl_spec by lia. rewrite mult_IZR.
  rewrite <- (bpow_IZR (53 - dig p)) by lia.
  rewrite Rmult_assoc, <- bpow_add. do 2 f_equal. lia.
Qed.

Lemma bpow_m2 : bpow (-2) = (/ 4)%R.
Proof. unfold bpow. simpl. lra. Qed.

(** ** The midpoint is above [(2 D - 1) / 4] *)

Lemma a1_value : a1 = S754_finite false 7036874417766400 (-47).
Proof. reflexivity. Qed.

Lemma half_a1_value :
  F64.mul F64.half a1 = S754_finite false 7036874417766400 (-48).
Proof. vm_compute. reflexivity. Qed.

Lemma pval_50 : pval 7036874417766400 (-47) = 50%R.
Proof.
  unfold pval. change 7036874417766400%positive with (50 * 2 ^ 47)%positive.
  rewrite Pos2Z.inj_mul, mult_IZR.
  change (Zpos (2 ^ 47)) with (2 ^ 47). rewrite <- (bpow_IZR 47) by lia.
  rewrite Rmult_assoc, <- bpow_add. change (47 + -47) with 0.
  unfold bpow. simpl. lra.
Qed.

Lemma pval_25 : pval 7036874417766400 (-48) = 25%R.
Proof.
  unfold pval. change 7036874417766400%positive with (25 * 2 ^ 48)%positive.
  rewrite Pos2Z.inj_mul, mult_IZR.
  change (Zpos (2 ^ 48)) with (2 ^ 48). rewrite <- (bpow_IZR 48) by lia.
  rewrite Rmult_assoc, <- bpow_add. change (48 + -48) with 0.
  unfold bpow. simpl. lra.
Qed.

Lemma growth_bound :
  let w := (1 + u)%R in
  (w * w * (w * w) * (w * w * (w * w)) <= 1 + 15 * u)%R.
Proof.
  cbv zeta. pose proof u_value as Hu. pose proof u_pos as Pu.
  assert (P52 : (100 <= IZR (2 ^ 52))%R) by (apply IZR_le; lia).
  assert (Hs : (u <= / 100)%R).
  { apply (Rmult_le_reg_r (IZR (2 ^ 52))); [lra|]. rewrite Hu.
    assert (/ 100 * 100 <= / 100 * IZR (2 ^ 52))%R by (apply Rmult_le_compat_l; lra).
    lra. }
  assert (H2 : ((1 + u) * (1 + u) <= 1 + 3 * u)%R) by nra.
  assert (H4 : ((1 + u) * (1 + u) * ((1 + u) * (1 + u)) <= 1 + 7 * u)%R).
  { assert (((1 + u) * (1 + u)) * ((1 + u) * (1 + u)) <= (1 + 3 * u) * (1 + 3 * u))%R
      by (apply Rmult_le_compat; nra).
    nra. }
  assert (((1 + u) * (1 + u) * ((1 + u) * (1 + u)))
          * ((1 + u) * (1 + u) * ((1 + u) * (1 + u)))
          <= (1 + 7 * u) * (1 + 7 * u))%R
    by (apply Rmult_le_compat; nra).
  nra.
Qed.

Lemma mid_distance_lower D :
  0 < D <= 2 ^ 47 ->
  exists mm em,
    mid_distance_of (quarter (4 * D)) = S754_finite false mm em /\
    dig mm = 53 /\
    (IZR (2 * D - 1) * / 4 < pval mm em)%R.
Proof.
  intros HD. destruct D as [|p|p]; try lia.
  change (4 * Zpos p) with (Zpos (4 * p)). cbn [quarter]. unfold nf.
  set (p4 := (4 * p)%positive).
  assert (B4 : 2 ^ 2 <= Zpos p4 < 2 ^ 50).
  { unfold p4. change (2 ^ 2) with 4. change (2 ^ 50) with (8 * 2 ^ 47). lia. }
  assert (Hd4 : 3 <= dig p4 <= 50).
  { change 3 with (2 + 1). apply dig_between; lia. }
  set (mD := shl p4 (53 - dig p4)). set (eD := -2 - (53 - dig p4)).
  assert (DD : dig mD = 53) by (unfold mD; rewrite dig_shl; lia).
  assert (VD : pval mD eD = IZR (Zpos p)).
  { unfold mD, eD. rewrite pval_nf by lia. rewrite bpow_m2. unfold p4.
    rewrite Pos2Z.inj_mul, mult_IZR. lra. }
  unfold mid_distance_of. rewrite a1_value.
  (* the quotient *)
  destruct (div_lower mD eD 7036874417766400 (-47) DD eq_refl)
    as (mX & eX & EX & DX & RX & VX); [unfold eD; lia|].
  rewrite EX. rewrite pval_50, VD in VX.
  assert (EM : F64.py_max (S754_finite false mX eX) F64.zero = S754_finite false mX eX)
    by reflexivity.
  rewrite EM.
  (* its square root *)
  destruct (sqrt_lower mX eX DX) as (mT & eT & ET & DT & RT & VT);
    [unfold eD in RX; lia|].
  rewrite ET.
  (* the two products *)
  rewrite <- a1_value, half_a1_value.
  assert (HeT : -60 <= eT <= 0).
  { assert (-60 <= eX <= 0) by (unfold eD in RX; lia).
    pose proof (Z.div_mod eX 2 ltac:(lia)).
    pose proof (Z.mod_pos_bound eX 2 ltac:(lia)). lia. }
  destruct (mul_lower 7036874417766400 (-48) mT eT eq_refl DT)
    as (mP & eP & EP & DP & RP & VP); [lia|].
  rewrite EP. rewrite pval_25 in VP.
  destruct (mul_lower mP eP mT eT DP DT) as (mm & em & EMid & Dmid & Rmid & Vmid);
    [lia|].
  rewrite EMid. exists mm, em. split; [reflexivity|]. split; [exact Dmid|].
  (* the chain of bounds *)
  set (d := IZR (Zpos p)) in *. set (X := pval mX eX) in *.
  set (T := pval mT eT) in *. set (P := pval mP eP) in *.
  set (M := pval mm em) in *. set (w := (1 + u)%R) in *.
  assert (PX : (0 < X)%R) by apply pval_pos.
  assert (PT : (0 < T)%R) by apply pval_pos.
  assert (PP : (0 < P)%R) by apply pval_pos.
  assert (PM : (0 < M)%R) by apply pval_pos.
  pose proof u_pos as Pu.
  assert (Pw : (1 < w)%R) by (unfold w; lra).
  set (w2 := (w * w)%R) in *. 
  assert (Pw2 : (1 < w2)%R) by (unfold w2; nra).
  set (w4 := (w2 * w2)%R) in *.
  assert (Pw4 : (1 < w4)%R) by (unfold w4; nra).
  (* 25 T T < M w2 *)
  assert (S1 : (25 * T * T < P * w * T)%R) by (apply Rmult_lt_compat_r; assumption).
  assert (S2 : (P * T * w < M * w * w)%R) by (apply Rmult_lt_compat_r; lra).
  assert (S3 : (25 * (T * T) < M * w2)%R) by (unfold w2; lra).
  (* X < T T w4, so 25 X < M w2 w4 *)
  assert (S4 : (25 * (T * T) * w4 < M * w2 * w4)%R)
    by (apply Rmult_lt_compat_r; lra).
  assert (S5 : (25 * X < M * w2 * w4)%R) by lra.
  (* d < 50 X w2, so d / 2 < M w2 w4 w2 *)
  assert (S6 : (25 * X * w2 < M * w2 * w4 * w2)%R)
    by (apply Rmult_lt_compat_r; lra).
  assert (S7 : (d * / 2 < M * (w2 * w4 * w2))%R) by lra.
  (* and the factor is at most 1 + 15 u *)
  pose proof growth_bound as G. cbv zeta in G. fold w in G. fold w2 in G.
  fold w4 in G.
  assert (G' : (w2 * w4 * w2 <= 1 + 15 * u)%R).
  { unfold w4 in *. lra. }
  assert (S8 : (M * (w2 * w4 * w2) <= M * (1 + 15 * u))%R)
    by (apply Rmult_le_compat_l; lra).
  (* d <= 2^47 and u = 2^-52 *)
  assert (Hd : (d <= IZR (2 ^ 47))%R) by (apply IZR_le; lia).
  pose proof u_value as Hu.
  assert (E52 : IZR (2 ^ 52) = (32 * IZR (2 ^ 47))%R)
    by (rewrite <- mult_IZR; reflexivity).
  rewrite E52 in Hu.
  assert (P47 : (0 < IZR (2 ^ 47))%R) by (apply IZR_lt; lia).
  assert (Hdu : (d * u <= / 32)%R).
  { assert (d * u <= IZR (2 ^ 47) * u)%R by (apply Rmult_le_compat_r; lra).
    lra. }
  assert (Ed : IZR (2 * Zpos p - 1) = (2 * d - 1)%R).
  { unfold d. rewrite minus_IZR, mult_IZR. reflexivity. }
  rewrite Ed.
  (* if M <= d/2 - 1/4 then M (1 + 15 u) <= d/2, a contradiction *)
  destruct (Rlt_le_dec ((2 * d - 1) * / 4) M) as [Hlt|Hle]; [exact Hlt|exfalso].
  assert (S9 : (M * (15 * u) <= (2 * d - 1) * / 4 * (15 * u))%R)
    by (apply Rmult_le_compat_r; lra).
  lra.
Qed.

(** Below the midpoint the loop accelerates. *)
Lemma below_midpoint D c :
  0 < D <= 2 ^ 47 -> 0 <= c <= 2 * D - 1 ->
  below (mid_distance_of (quarter (4 * D))) c = true.
Proof.
  intros HD Hc.
  destruct (mid_distance_lower D HD) as (mm & em & E & Dm & Hv).
  unfold below. rewrite E.
  destruct c as [|p|p]; try lia; [reflexivity|].
  cbn [quarter]. unfold nf.
  assert (Hp : dig p <= 53).
  { apply dig_le_53. assert (2 * 2 ^ 47 < 2 ^ 53) by (vm_compute; reflexivity). lia. }
  pose proof (dig_pos p).
  apply ltb_of_pval; [rewrite dig_shl; lia|exact Dm|].
  rewrite pval_nf by assumption. rewrite bpow_m2.
  assert (IZR (Zpos p) <= IZR (2 * D - 1))%R by (apply IZR_le; lia).
  lra.
Qed.

(** ** More fuel changes nothing *)

Lemma track_loop_more_fuel D target mid fuel : forall fuel' s r,
  track_loop fuel D target mid s = Some r ->
  (fuel <= fuel')%nat ->
  track_loop fuel' D target mid s = Some r.
Proof.
  induction fuel as [|fuel IH]; intros fuel' s r H Hle.
  - cbn [track_loop] in H. destruct fuel'; cbn [track_loop];
      destruct (F64.lt_Z (current s) D); congruence.
  - destruct fuel' as [|fuel']; [lia|]. cbn [track_loop] in *.
    destruct (F64.lt_Z (current s) D); [|assumption].
    apply IH; [assumption|lia].
Qed.

Lemma generate_track_more_fuel fuel fuel' d track :
  generate_track fuel d = Returns track ->
  (fuel <= fuel')%nat ->
  generate_track fuel' d = Returns track.
Proof.
  unfold generate_track. intros H Hle.
  destruct (d <=? 0); [assumption|].
  destruct (F64.py_float d) as [target|e]; [|assumption].
  destruct (track_loop fuel d target (mid_distance_of target) _) as [s|] eqn:E;
    [|discriminate].
  now rewrite (track_loop_more_fuel _ _ _ _ _ _ _ E Hle).
Qed.

(** The trajectory for a distance up to [2^47]. *)
Lemma generate_track_in_range d :
  0 < d <= 2 ^ 47 ->
  exists track,
    (forall fuel, (Z.to_nat (4 * d) <= fuel)%nat ->
       generate_track fuel d = Returns track) /\
    sum track = d /\ track <> [] /\ Forall (fun x => 1 <= x) track.
Proof.
  intros Hd.
  assert (P : 2 ^ 47 < 2 ^ 50) by (vm_compute; reflexivity).
  destruct (generate_track_exact d ltac:(lia)) as (track & E & Hs & Hn & Hf).
  - intros c Hc. apply below_midpoint; assumption.
  - exists track. split; [|auto].
    intros fuel Hle. exact (generate_track_more_fuel _ _ _ _ E Hle).
Qed.

Lemma overflow fuel : generate_track fuel (2 ^ 1024) = Raises OverflowError.
Proof. vm_compute. reflexivity. Qed.

Lemma generate_track_nonpositive fuel' d :
  d <= 0 -> generate_track fuel' d = Returns [].
Proof. intros H. unfold generate_track. apply Z.leb_le in H. now rewrite H. Qed.

(** C1, as the code has it.  For every distance from 0 to [2^47],
    [generate_track] returns, once the fuel covers the iterations of its
    loop, a list whose sum is the distance. *)
Theorem generate_track_sum d :
  0 <= d <= 2 ^ 47 ->
  exists track,
    (forall fuel, (Z.to_nat (4 * d) <= fuel)%nat ->
       generate_track fuel d = Returns track) /\
    sum track = d.
Proof.
  intros Hd. destruct (Z.eq_dec d 0) as [->|Hn].
  - exists []. split; [|reflexivity]. intros fuel _. reflexivity.
  - destruct (generate_track_in_range d ltac:(lia)) as (track & E & Hs & _).
    exists track. auto.
Qed.

Lemma generate_track_sum_witness :
  exists track,
    (forall fuel, (Z.to_nat (4 * 140) <= fuel)%nat ->
       generate_track fuel 140 = Returns track) /\
    sum track = 140.
Proof. apply (generate_track_sum 140). vm_compute. split; discriminate. Defined.

(** C1 as stated fails: [generate_track(2 ** 1024)] raises
    [OverflowError] at [target_distance / a1], whatever the fuel. *)
Lemma generate_track_sum_overflow :
  ~ (forall d, 0 <= d ->
       exists fuel track,
         generate_track fuel d = Returns track /\ sum track = d).
Proof.
  intros H. destruct (H (2 ^ 1024)) as (fuel & track & E & _); [lia|].
  rewrite overflow in E. discriminate.
Qed.

(** C6, as the code has it.  For every distance from 1 to [2^47],
    [generate_track] returns a non-empty list whose elements are all at
    least 1. *)
Theorem generate_track_positive d :
  0 < d <= 2 ^ 47 ->
  exists track,
    (forall fuel, (Z.to_nat (4 * d) <= fuel)%nat ->
       generate_track fuel d = Returns track) /\
    track <> [] /\ Forall (fun x => 1 <= x) track.
Proof.
  intros Hd.
  destruct (generate_track_in_range d Hd) as (track & E & _ & Hn & Hf).
  exists track. auto.
Qed.

Lemma generate_track_positive_witness :
  exists track,
    (forall fuel, (Z.to_nat (4 * 140) <= fuel)%nat ->
       generate_track fuel 140 = Returns track) /\
    track <> [] /\ Forall (fun x => 1 <= x) track.
Proof. apply (generate_track_positive 140). vm_compute. split; [reflexivity|discriminate]. Defined.

(** C6 as stated fails at [2 ** 1024], where the call raises. *)
Lemma generate_track_positive_overflow :
  ~ (forall d, 0 < d ->
       exists fuel track,
         generate_track fuel d = Returns track /\
         track <> [] /\ Forall (fun x => 1 <= x) track).
Proof.
  intros H. destruct (H (2 ^ 1024)) as (fuel & track & E & _); [lia|].
  rewrite overflow in E. discriminate.
Qed.

(** C10, as the code has it.  For every integer distance up to [2^47] the
    loop of [generate_track] exits: the call returns a list as soon as the
    fuel covers [4 * distance] iterations, and with any larger fuel. *)
Theorem generate_track_terminates d :
  d <= 2 ^ 47 ->
  exists track,
    forall fuel, (Z.to_nat (4 * d) <= fuel)%nat ->
      generate_track fuel d = Returns track.
Proof.
  intros Hd. destruct (Z_le_gt_dec d 0) as [Hn|Hp].
  - exists []. intros fuel _. now apply generate_track_nonpositive.
  - destruct (generate_track_in_range d ltac:(lia)) as (track & E & _).
    exists track. exact E.
Qed.

Lemma generate_track_terminates_witness :
  exists track,
    forall fuel, (Z.to_nat (4 * 140) <= fuel)%nat ->
      generate_track fuel 140 = Returns track.
Proof. apply (generate_track_terminates 140). vm_compute. discriminate. Defined.

(** C10 as stated fails at [2 ** 1024]: the call raises instead of
    returning a list. *)
Lemma generate_track_terminates_overflow :
  ~ (forall d, exists fuel track, generate_track fuel d = Returns track).
Proof.
  intros H. destruct (H (2 ^ 1024)) as (fuel & track & E).
  rewrite overflow in E. discriminate.
Qed.

(** * The controller *)

(** ** Running monadic code *)

Ltac break_inner :=
  match goal with
  | |- context [match ?x with _ => _ end] =>
      lazymatch x with
      | context [match _ with _ => _ end] => fail
      | _ => destruct x eqn:?
      end
  end.

Ltac run :=
  cbv beta iota delta
    [bind ret raise try_except try_finally emit lift sleep print logger_error
     ask of_reply new_chain enqueue perform];
  cbn [log chain fst snd].

Lemma count_app p (a b : trace) :
  count p (a ++ b) = (count p a + count p b)%nat.
Proof. unfold count. now rewrite filter_app, length_app. Qed.

Lemma count_cons p e (a : trace) :
  count p (e :: a) = ((if p e then 1 else 0) + count p a)%nat.
Proof. unfold count. cbn. now destruct (p e). Qed.

Lemma quiet_count p evs :
  (forall e, p e = true -> quiet e = false) ->
  forallb quiet evs = true -> count p evs = 0%nat.
Proof.
  intros Hp. induction evs as [|e evs IH]; [reflexivity|].
  cbn [forallb]. intros H. apply andb_prop in H. destruct H as [Q1 Q2].
  rewrite count_cons, (IH Q2). destruct (p e) eqn:E; [|reflexivity].
  rewrite (Hp e E) in Q1. discriminate.
Qed.

Lemma drag_only_count p evs :
  (forall e, p e = true -> drag_only e = false) ->
  forallb drag_only evs = true -> count p evs = 0%nat.
Proof.
  intros Hp. induction evs as [|e evs IH]; [reflexivity|].
  cbn [forallb]. intros H. apply andb_prop in H. destruct H as [Q1 Q2].
  rewrite count_cons, (IH Q2). destruct (p e) eqn:E; [|reflexivity].
  rewrite (Hp e E) in Q1. discriminate.
Qed.

Lemma quiet_fresh w evs : forall st,
  forallb quiet evs = true -> fold_left (fresh_step w) evs st = st.
Proof.
  induction evs as [|e evs IH]; intros st; [reflexivity|].
  cbn [forallb fold_left]. intros H. apply andb_prop in H. destruct H as [Q1 Q2].
  rewrite (IH _ Q2). destruct st as [f|]; [|reflexivity].
  destruct e as [| | [] [] | | | | |]; try discriminate; reflexivity.
Qed.

Lemma drag_only_fresh w evs : forall st,
  forallb drag_only evs = true -> fold_left (fresh_step w) evs st = st.
Proof.
  induction evs as [|e evs IH]; intros st; [reflexivity|].
  cbn [forallb fold_left]. intros H. apply andb_prop in H. destruct H as [Q1 Q2].
  rewrite (IH _ Q2). destruct st as [f|]; [|reflexivity].
  destruct e as [| | [] [] | | | | |]; try discriminate; reflexivity.
Qed.

(** ** [calculate_scale_ratio] *)

Lemma scale_total w s :
  exists r evs,
    calculate_scale_ratio w s
      = (Returns r, {| log := log s ++ evs; chain := chain s |}).
Proof.
  unfold calculate_scale_ratio. run.
  repeat (break_inner; run);
  rewrite <- ?app_assoc; eauto.
Qed.

Lemma scale_fallback w s :
  width_unusable (execute_script w ScaleRatioScript (log s)) ->
  exists evs,
    calculate_scale_ratio w s
      = (Returns F64.one, {| log := log s ++ evs; chain := chain s |}) /\
    existsb is_scale_warning evs = true.
Proof.
  intros H. unfold calculate_scale_ratio. run.
  destruct H; cbn; rewrite <- ?app_assoc;
    eexists; (split; [reflexivity|]); reflexivity.
Qed.

Lemma scale_quiet w s :
  exists r evs,
    calculate_scale_ratio w s
      = (Returns r, {| log := log s ++ evs; chain := chain s |}) /\
    forallb quiet evs = true.
Proof.
  unfold calculate_scale_ratio. run.
  repeat (break_inner; run);
  rewrite <- ?app_assoc; do 2 eexists; (split; [reflexivity|]); reflexivity.
Qed.

(** ** [drag_slider] when every gesture is accepted *)

Section Accepting.
Variable w : World.
Hypothesis gestures_accepted : forall batch tr, perform_actions w batch tr = Ok tt.

Lemma replay_accepted len track : forall i s,
  exists evs c,
    replay w len i track s
      = (Returns tt, {| log := log s ++ evs; chain := c |}) /\
    forallb drag_only evs = true.
Proof.
  induction track as [|move rest IH]; intros i s.
  - exists [], (chain s). cbn. rewrite app_nil_r. now destruct s.
  - cbn [replay]. run.
    destruct (Nat.eqb ((i + 1) mod 5) 0 || Nat.eqb i (len - 1)); run.
    + rewrite gestures_accepted. cbn [of_reply].
      match goal with |- context [replay w len (S i) rest ?s0] =>
        destruct (IH (S i) s0) as (evs & c & E & Q) end.
      rewrite E. cbn [log chain]. rewrite <- app_assoc. do 2 eexists. split; [reflexivity|].
      cbn. exact Q.
    + match goal with |- context [replay w len (S i) rest ?s0] =>
        destruct (IH (S i) s0) as (evs & c & E & Q) end.
      rewrite E. cbn [log chain]. eauto.
Qed.

Lemma drag_accepted track s el :
  wait_present w SLIDER_BUTTON 10 (log s) = Ok el ->
  exists evs,
    drag_slider w track s
      = (Returns true, {| log := log s ++ evs; chain := [Release] |}) /\
    forallb drag_only evs = true.
Proof.
  intros Hh. unfold drag_slider. run. rewrite Hh. run.
  rewrite gestures_accepted. cbn [of_reply].
  match goal with |- context [replay w ?l ?i track ?s0] =>
    destruct (replay_accepted l track i s0) as (evs & c & E & Q) end.
  rewrite E. cbn [log chain]. rewrite gestures_accepted. cbn [of_reply].
  rewrite <- !app_assoc. eexists. split; [reflexivity|].
  cbn. rewrite forallb_app, Q. reflexivity.
Qed.
End Accepting.

(** ** Log growth *)

Lemma grows_ret {A} (a : A) : grows (ret a).
Proof. intros s. exists []. cbn. now rewrite app_nil_r. Qed.

Lemma grows_lift {A} (r : reply A) : grows (lift r).
Proof. intros s. exists []. cbn. now rewrite app_nil_r. Qed.

Lemma grows_emit e : grows (emit e).
Proof. intros s. exists [e]. reflexivity. Qed.

Lemma grows_ask {A} (o : trace -> reply A) f : grows (ask o f).
Proof. intros s. eexists. reflexivity. Qed.

Lemma grows_bind {A B} (c : M A) (k : A -> M B) :
  grows c -> (forall a, grows (k a)) -> grows (bind c k).
Proof.
  intros Hc Hk s. unfold bind. destruct (Hc s) as (e1 & E1).
  destruct (c s) as [[a| |] s1]; cbn [snd] in *; eauto.
  destruct (Hk a s1) as (e2 & E2). exists (e1 ++ e2). now rewrite E2, E1, app_assoc.
Qed.

Lemma grows_try_except {A} (c : M A) h :
  grows c -> (forall e, grows (h e)) -> grows (try_except c h).
Proof.
  intros Hc Hh s. unfold try_except. destruct (Hc s) as (e1 & E1).
  destruct (c s) as [[a|e|] s1]; cbn [snd] in *; eauto.
  destruct (Hh e s1) as (e2 & E2). exists (e1 ++ e2). now rewrite E2, E1, app_assoc.
Qed.

Lemma grows_try_finally {A} (c : M A) f :
  grows c -> grows f -> grows (try_finally c f).
Proof.
  intros Hc Hf s. unfold try_finally. destruct (Hc s) as (e1 & E1).
  destruct (c s) as [r s1]; cbn [snd] in *.
  destruct (Hf s1) as (e2 & E2). exists (e1 ++ e2). now rewrite E2, E1, app_assoc.
Qed.

Lemma grows_pure {A} (o : outcome A) : grows (fun s => (o, s)).
Proof. intros s. exists []. cbn. now rewrite app_nil_r. Qed.

Lemma grows_new_chain : grows new_chain.
Proof. intros s. exists []. cbn. now rewrite app_nil_r. Qed.

Lemma grows_enqueue g : grows (enqueue g).
Proof. intros s. exists []. cbn. now rewrite app_nil_r. Qed.

Lemma grows_perform w : grows (perform w).
Proof. intros s. eexists. reflexivity. Qed.

Create HintDb grows.

Ltac grow :=
  repeat first
    [ solve [auto with grows nocore]
    | apply grows_ret | apply grows_lift | apply grows_emit | apply grows_ask
    | apply grows_pure | apply grows_new_chain | apply grows_enqueue
    | apply grows_perform
    | apply grows_bind; [|intros]
    | apply grows_try_except; [|intros]
    | apply grows_try_finally
    | match goal with
      | |- grows (if ?b then _ else _) => destruct b
      | |- grows (match ?x with _ => _ end) => destruct x
      end ].

Lemma grows_scale w : grows (calculate_scale_ratio w).
Proof. unfold calculate_scale_ratio, print, logger_error. grow. Qed.
#[local] Hint Resolve grows_scale : grows.

Lemma grows_images w : grows (get_slider_images_from_api w).
Proof. unfold get_slider_images_from_api, sleep, logger_error. grow. Qed.
#[local] Hint Resolve grows_images : grows.

Lemma grows_replay w len track : forall i, grows (replay w len i track).
Proof.
  induction track as [|m rest IH]; intros i; cbn [replay]; grow; auto.
Qed.
#[local] Hint Resolve grows_replay : grows.

Lemma grows_drag w track : grows (drag_slider w track).
Proof. unfold drag_slider, logger_error. grow. Qed.
#[local] Hint Resolve grows_drag : grows.

Lemma grows_verify w timeout : grows (verify_result w timeout).
Proof. unfold verify_result, sleep. grow. Qed.
#[local] Hint Resolve grows_verify : grows.

Lemma grows_tail cfg w fuel k d r : grows (attempt_tail cfg w fuel k d r).
Proof.
  unfold attempt_tail, print, logger_error, sleep.
  grow.
Qed.
#[local] Hint Resolve grows_tail : grows.

Lemma grows_recognize cfg w bb bs : grows (recognize_distance cfg w bb bs).
Proof. unfold recognize_distance. grow. Qed.
#[local] Hint Resolve grows_recognize : grows.

Lemma grows_attempts cfg w fuel n : forall k, grows (attempts cfg w fuel n k).
Proof.
  induction n as [|n IH]; intros k; cbn [attempts]; [grow|].
  apply grows_bind; [unfold attempt_body, print, logger_error, sleep; grow|].
  intros []; [grow|apply IH].
Qed.
#[local] Hint Resolve grows_attempts : grows.

Lemma bind_bind {A B C} (c : M A) (k1 : A -> M B) (k2 : B -> M C) s :
  bind (bind c k1) k2 s = bind c (fun a => bind (k1 a) k2) s.
Proof. unfold bind. destruct (c s) as [[a| |] s1]; reflexivity. Qed.

Lemma bind_emit {B} e (k : unit -> M B) s :
  bind (emit e) k s = k tt {| log := log s ++ [e]; chain := chain s |}.
Proof. reflexivity. Qed.

(** Every pass of the loop opens with the announcement of the attempt and a
    call of the Image Source. *)
Lemma attempts_first cfg w fuel n k s :
  exists reply rest,
    log (snd (attempts cfg w fuel (S n) k s))
      = log s ++ EvPrint (MsgAttempt k) :: EvSleep 1000
          :: EvScript BgImageScript reply :: rest.
Proof.
  cbn [attempts]. unfold attempt_body, get_slider_images_from_api, print, sleep.
  repeat (rewrite ?bind_bind, ?bind_emit; cbv beta).
  match goal with |- context [bind (ask ?o ?f) ?k0 ?s0] =>
    assert (G : forall a, grows (k0 a)); [|set (K := k0) in *] end.
  { intros a. unfold logger_error, print, sleep.
    grow. }
  unfold bind, ask. cbn [log chain].
  destruct (execute_script w BgImageScript _) as [a|e]; cbn [of_reply].
  - match goal with |- context [K a ?s1] => destruct (G a s1) as (evs & E) end.
    rewrite E. cbn [log]. rewrite <- !app_assoc. cbn [app]. eauto.
  - cbn [snd log]. rewrite <- !app_assoc. cbn [app]. eauto.
Qed.

(** ** The retry loop in two scenarios *)

Section Scenario.
Variable cfg : Settings.
Variable w : World.
Variable fuel : nat.

Hypothesis elements_found :
  forall target tr, exists el, wait_present w target 10 tr = Ok el.
Hypothesis images_served :
  forall code tr, code <> ScaleRatioScript ->
    exists src b rest,
      execute_script w code tr = Ok (JStr src) /\
      src <> EmptyString /\
      b64decode w (strip_marker src) = Ok (b :: rest).
Hypothesis matcher_answers :
  forall slider bg tr, exists x, slide_match w slider bg tr = Ok x.

Lemma images_acquired s :
  exists sb ss bb bs,
    get_slider_images_from_api w s
      = (Returns (Some bb, Some bs),
         {| log := log s ++ [EvSleep 1000;
                             EvScript BgImageScript (Ok (JStr sb));
                             EvScript SliderImageScript (Ok (JStr ss))];
            chain := chain s |}) /\
    no_bytes (Some bb) = false /\ no_bytes (Some bs) = false /\
    decodes_to w (Some (JStr sb)) bb = true /\
    decodes_to w (Some (JStr ss)) bs = true.
Proof.
  unfold get_slider_images_from_api. run.
  destruct (images_served BgImageScript (log s ++ [EvSleep 1000]))
    as (sb & b1 & r1 & E1 & N1 & D1); [discriminate|].
  destruct (images_served SliderImageScript
              ((log s ++ [EvSleep 1000]) ++ [EvScript BgImageScript (Ok (JStr sb))]))
    as (ss & b2 & r2 & E2 & N2 & D2); [discriminate|].
  rewrite E1. run. rewrite E2. run.
  assert (T1 : truthy (JStr sb) = true).
  { cbn. destruct sb; [congruence|reflexivity]. }
  assert (T2 : truthy (JStr ss) = true).
  { cbn. destruct ss; [congruence|reflexivity]. }
  rewrite T1, T2. cbn [negb orb as_text]. run. rewrite D1. run. rewrite D2. run.
  rewrite <- !app_assoc. cbn [app].
  exists sb, ss, (b1 :: r1), (b2 :: r2).
  split; [reflexivity|]. split; [reflexivity|]. split; [reflexivity|].
  unfold decodes_to. rewrite D1, D2.
  destruct (list_eq_dec Byte.byte_eq_dec (b1 :: r1) (b1 :: r1)); [|congruence].
  destruct (list_eq_dec Byte.byte_eq_dec (b2 :: r2) (b2 :: r2)); [|congruence].
  split; reflexivity.
Qed.

Lemma distance_recognized bb bs s :
  exists x,
    slide_match w bs bb (log s) = Ok x /\
    recognize_distance cfg w bb bs s
      = (Returns (x + SLIDER_DISTANCE_OFFSET cfg),
         {| log := log s ++ [EvMatch bs bb (Ok x)]; chain := chain s |}).
Proof.
  unfold recognize_distance. run.
  destruct (matcher_answers bs bb (log s)) as (x & E). rewrite E. run. eauto.
Qed.

(** Steps 1 to 3 of a pass when the images are served and the matcher
    answers. *)

Lemma attempt_prefix k s :
  exists pre bb bs tr x r s0 s0',
    slide_match w bs bb tr = Ok x /\
    calculate_scale_ratio w s0 = (Returns r, s0') /\
    attempt_body cfg w fuel k s
      = attempt_tail cfg w fuel k (x + SLIDER_DISTANCE_OFFSET cfg) r
          {| log := log s ++ pre; chain := chain s |} /\
    count is_image_call pre = 1%nat /\
    count is_verify_call pre = 0%nat /\
    count is_drag_event pre = 0%nat /\
    count is_empty_track_log pre = 0%nat /\
    fold_left (fresh_step w) pre (Some no_fresh) = Some no_fresh.
Proof.
  unfold attempt_body. run.
  match goal with |- context [get_slider_images_from_api w ?s0] =>
    destruct (images_acquired s0) as (sb & ss & bb & bs & E & Nb & Ns & Db & Ds) end.
  rewrite E. cbn [fst snd log chain]. rewrite Nb, Ns. cbn [orb bytes_of].
  match goal with |- context [recognize_distance cfg w bb bs ?s0] =>
    destruct (distance_recognized bb bs s0) as (x & Hx & Ex) end.
  rewrite Ex. cbn [log chain].
  destruct (x + SLIDER_DISTANCE_OFFSET cfg <? 20); run;
  (match goal with |- context [calculate_scale_ratio w ?s0] =>
    destruct (scale_quiet w s0) as (r & sevs & Er & Qs) end;
  rewrite Er; cbn [log chain];
  rewrite <- !app_assoc; cbn [app];
  do 8 eexists; (split; [exact Hx|]); (split; [exact Er|]); (split; [reflexivity|]);
  repeat split;
  [ repeat rewrite ?count_cons, ?count_app; cbn [is_image_call];
    rewrite !(quiet_count is_image_call sevs); auto;
    intros [] ; try discriminate; intros; repeat match goal with c : script |- _ => destruct c end; try discriminate; reflexivity
  | repeat rewrite ?count_cons, ?count_app; cbn [is_verify_call];
    rewrite !(quiet_count is_verify_call sevs); auto;
    intros [] ; try discriminate; intros; repeat match goal with c : locator |- _ => destruct c end; try discriminate; reflexivity
  | repeat rewrite ?count_cons, ?count_app; cbn [is_drag_event];
    rewrite !(quiet_count is_drag_event sevs); auto;
    intros [] ; try discriminate; intros; repeat match goal with c : locator |- _ => destruct c end; try discriminate; reflexivity
  | repeat rewrite ?count_cons, ?count_app; cbn [is_empty_track_log];
    rewrite !(quiet_count is_empty_track_log sevs); auto;
    intros [] ; try discriminate; intros; repeat match goal with c : message |- _ => destruct c end; try discriminate; reflexivity
  | cbn [fold_left fresh_step fresh_bg fresh_slider]; rewrite Db, Ds; cbn [andb];
    rewrite !quiet_fresh; auto ]).
Qed.


Section AlwaysFailing.
Hypothesis track_produced :
  forall slider bg tr x s r s',
    slide_match w slider bg tr = Ok x ->
    calculate_scale_ratio w s = (Returns r, s') ->
    exists adjusted step steps,
      adjust_distance (x + SLIDER_DISTANCE_OFFSET cfg) r = Ok adjusted /\
      generate_track fuel (adjusted - SLIDER_SAFE_MARGIN cfg)
        = Returns (step :: steps).
Hypothesis gestures_accepted :
  forall batch tr, perform_actions w batch tr = Ok tt.
Hypothesis popup_stays :
  forall tr, exists el els,
    find_elements w SLIDER_CAPTCHA_POPUP tr = Ok (el :: els).

Lemma tail_fails k d r adjusted step steps s :
  adjust_distance d r = Ok adjusted ->
  generate_track fuel (adjusted - SLIDER_SAFE_MARGIN cfg) = Returns (step :: steps) ->
  exists post c,
    attempt_tail cfg w fuel k d r s
      = (Returns false, {| log := log s ++ post; chain := c |}) /\
    count is_image_call post = 0%nat /\
    count is_verify_call post = 1%nat /\
    forall st, fold_left (fresh_step w) post st = st.
Proof.
  intros Ea Et. unfold attempt_tail. run. rewrite Ea. run. rewrite Et.
  match goal with |- context [drag_slider w ?t ?s0] =>
    destruct (elements_found SLIDER_BUTTON (log s0)) as (el & Eh);
    destruct (drag_accepted w gestures_accepted t s0 el Eh) as (devs & Ed & Qd) end.
  rewrite Ed. cbn [negb log chain]. unfold verify_result. run.
  match goal with |- context [find_elements w SLIDER_CAPTCHA_POPUP ?tr0] =>
    destruct (popup_stays tr0) as (p & ps & Ep) end.
  rewrite Ep. run. rewrite <- !app_assoc. cbn [app].
  do 2 eexists. split; [reflexivity|].
  repeat split.
  - repeat rewrite ?count_cons, ?count_app. cbn [is_image_call].
    rewrite (drag_only_count is_image_call devs); auto.
    intros []; try discriminate; intros; repeat match goal with c : script |- _ => destruct c end; try discriminate; reflexivity.
  - repeat rewrite ?count_cons, ?count_app. cbn [is_verify_call].
    rewrite (drag_only_count is_verify_call devs); auto.
    intros []; try discriminate; intros; repeat match goal with c : locator |- _ => destruct c end; try discriminate; reflexivity.
  - intros st. destruct st as [f|]; cbn [fold_left fresh_step];
      rewrite fold_left_app, (drag_only_fresh w devs _ Qd); reflexivity.
Qed.

Lemma attempt_fails k s :
  exists evs c,
    attempt_body cfg w fuel k s
      = (Returns false, {| log := log s ++ evs; chain := c |}) /\
    count is_image_call evs = 1%nat /\
    count is_verify_call evs = 1%nat /\
    fold_left (fresh_step w) evs (Some no_fresh) = Some no_fresh.
Proof.
  destruct (attempt_prefix k s)
    as (pre & bb & bs & tr & x & r & s0 & s0' & Hx & Hr & E & C1 & C2 & _ & _ & F).
  destruct (track_produced _ _ _ _ _ _ _ Hx Hr) as (adj & step & steps & Ea & Et).
  destruct (tail_fails k _ r adj step steps {| log := log s ++ pre; chain := chain s |} Ea Et)
    as (post & c & E' & C1' & C2' & F').
  exists (pre ++ post), c. rewrite E, E'. cbn [log]. rewrite app_assoc.
  split; [reflexivity|]. rewrite !count_app, fold_left_app, F, F'. repeat split; lia.
Qed.

Lemma attempts_fail n : forall k s,
  exists evs c,
    attempts cfg w fuel n k s
      = (Returns false, {| log := log s ++ evs; chain := c |}) /\
    count is_image_call evs = n /\
    count is_verify_call evs = n /\
    fold_left (fresh_step w) evs (Some no_fresh) = Some no_fresh.
Proof.
  induction n as [|n IH]; intros k s.
  - exists [], (chain s). cbn. rewrite app_nil_r. now destruct s.
  - cbn [attempts]. unfold bind at 1.
    destruct (attempt_fails k s) as (evs & c & E & C1 & C2 & F). rewrite E.
    destruct (IH (k + 1) {| log := log s ++ evs; chain := c |})
      as (evs' & c' & E' & C1' & C2' & F').
    rewrite E'. cbn [log]. exists (evs ++ evs'), c'. rewrite app_assoc.
    split; [reflexivity|]. rewrite !count_app, fold_left_app, F, F'. repeat split; lia.
Qed.

(** C5.  With [max_attempts = N], when the popup is shown, the images are
    served, the matcher answers, the trajectory stage yields a non-empty
    track, every gesture is accepted and the popup is still present after
    each drag, [handle_slider_captcha] returns [False] without raising,
    having called the Image Source exactly [N] times and the Verifier
    exactly [N] times; every matcher call was fed the images acquired in
    its own attempt. *)
Theorem retry_bound (max_attempts : Z) :
  exists s',
    handle_slider_captcha cfg w fuel max_attempts start = (Returns false, s') /\
    count is_image_call (log s') = Z.to_nat max_attempts /\
    count is_verify_call (log s') = Z.to_nat max_attempts /\
    images_fresh w (log s') = true.
Proof.
  unfold handle_slider_captcha. run.
  destruct (elements_found SLIDER_CAPTCHA_POPUP []) as (el & E). cbn [start log chain app].
  rewrite E. run. cbn [negb]. run.
  match goal with |- context [attempts cfg w fuel ?n ?k ?s0] =>
    destruct (attempts_fail n k s0) as (evs & c & Ea & C1 & C2 & F) end.
  rewrite Ea. cbn [log chain]. eexists. split; [reflexivity|]. cbn [log].
  unfold images_fresh.
  repeat rewrite ?count_cons, ?count_app, ?fold_left_app. cbn [fold_left fresh_step].
  rewrite F, C1, C2. cbn. repeat split; lia.
Qed.

End AlwaysFailing.

Section Degenerate.
Hypothesis nothing_to_drag :
  forall slider bg tr x s r s',
    slide_match w slider bg tr = Ok x ->
    calculate_scale_ratio w s = (Returns r, s') ->
    exists adjusted,
      adjust_distance (x + SLIDER_DISTANCE_OFFSET cfg) r = Ok adjusted /\
      adjusted - SLIDER_SAFE_MARGIN cfg <= 0.

Lemma tail_degenerate k d r adjusted s :
  adjust_distance d r = Ok adjusted ->
  adjusted - SLIDER_SAFE_MARGIN cfg <= 0 ->
  attempt_tail cfg w fuel k d r s
    = (Returns false,
       {| log := log s ++
            [EvPrint (MsgAdjusted adjusted r);
             EvPrint (MsgFinal (adjusted - SLIDER_SAFE_MARGIN cfg) (SLIDER_SAFE_MARGIN cfg));
             EvLogError (MsgEmptyTrack k (adjusted - SLIDER_SAFE_MARGIN cfg));
             EvSleep 500];
          chain := chain s |}).
Proof.
  intros Ea Hd. unfold attempt_tail. run. rewrite Ea. run.
  rewrite (generate_track_nonpositive _ _ Hd). run.
  rewrite <- !app_assoc. reflexivity.
Qed.

Lemma attempt_degenerate k s :
  exists evs,
    attempt_body cfg w fuel k s
      = (Returns false, {| log := log s ++ evs; chain := chain s |}) /\
    count is_image_call evs = 1%nat /\
    count is_drag_event evs = 0%nat /\
    count is_empty_track_log evs = 1%nat.
Proof.
  destruct (attempt_prefix k s)
    as (pre & bb & bs & tr & x & r & s0 & s0' & Hx & Hr & E & C1 & _ & C3 & C4 & _).
  destruct (nothing_to_drag _ _ _ _ _ _ _ Hx Hr) as (adj & Ea & Hd).
  rewrite E, (tail_degenerate k _ r adj _ Ea Hd). cbn [log chain].
  rewrite <- app_assoc. eexists. split; [reflexivity|].
  rewrite !count_app, C1, C3, C4. repeat split.
Qed.

Lemma attempts_degenerate n : forall k s,
  exists evs,
    attempts cfg w fuel n k s
      = (Returns false, {| log := log s ++ evs; chain := chain s |}) /\
    count is_image_call evs = n /\
    count is_drag_event evs = 0%nat /\
    count is_empty_track_log evs = n.
Proof.
  induction n as [|n IH]; intros k s.
  - exists []. cbn. rewrite app_nil_r. now destruct s.
  - cbn [attempts]. unfold bind at 1.
    destruct (attempt_degenerate k s) as (evs & E & C1 & C2 & C3). rewrite E.
    destruct (IH (k + 1) {| log := log s ++ evs; chain := chain s |})
      as (evs' & E' & C1' & C2' & C3').
    rewrite E'. cbn [log chain]. exists (evs ++ evs'). rewrite app_assoc.
    split; [reflexivity|]. rewrite !count_app. repeat split; lia.
Qed.

(** C7.  [generate_track] returns the empty list for every non-positive
    distance; and when every final distance is non-positive, each of the
    [max_attempts] passes logs the empty track, issues no request of the
    Drag Executor, and the next pass acquires the images again: the Image
    Source is called [max_attempts] times and the overall result is
    [False]. *)
Theorem degenerate_retries (max_attempts : Z) :
  (forall fuel' d, d <= 0 -> generate_track fuel' d = Returns []) /\
  exists s',
    handle_slider_captcha cfg w fuel max_attempts start = (Returns false, s') /\
    count is_image_call (log s') = Z.to_nat max_attempts /\
    count is_empty_track_log (log s') = Z.to_nat max_attempts /\
    count is_drag_event (log s') = 0%nat.
Proof.
  split; [exact generate_track_nonpositive|].
  unfold handle_slider_captcha. run.
  destruct (elements_found SLIDER_CAPTCHA_POPUP []) as (el & E). cbn [start log chain app].
  rewrite E. run. cbn [negb]. run.
  match goal with |- context [attempts cfg w fuel ?n ?k ?s0] =>
    destruct (attempts_degenerate n k s0) as (evs & Ea & C1 & C2 & C3) end.
  rewrite Ea. cbn [log chain]. eexists. split; [reflexivity|]. cbn [log].
  repeat rewrite ?count_cons, ?count_app.
  rewrite C1, C2, C3. cbn. repeat split; lia.
Qed.

End Degenerate.
End Scenario.

(** ** The claims on the controller *)

(** C2.  The retryable failures are not all absorbed: a matcher that raises
    and a drag handle that cannot be located both make
    [handle_slider_captcha] raise to its caller. *)
Theorem handle_slider_captcha_raises :
  fst (handle_slider_captcha settings (stub_world matcher_raises) 100 10 start)
    = Raises MatcherException /\
  fst (handle_slider_captcha settings (stub_world handle_missing) 100 10 start)
    = Raises TimeoutException.
Proof. split; vm_compute; reflexivity. Qed.

(** C3.  On the track [[3; 4]], when the flush of the moves raises
    [MoveTargetOutOfBoundsException], [drag_slider] returns [False] after
    the press was accepted, and no release gesture has reached the
    surface: the release of the [finally] clause stays in the queue. *)
Theorem drag_slider_release_not_issued :
  fst (drag_slider (stub_world move_out_of_bounds) [3; 4] start)
    = Returns false /\
  presses_accepted
    (log (snd (drag_slider (stub_world move_out_of_bounds) [3; 4] start)))
    = 1%nat /\
  releases_issued
    (log (snd (drag_slider (stub_world move_out_of_bounds) [3; 4] start)))
    = 0%nat /\
  chain (snd (drag_slider (stub_world move_out_of_bounds) [3; 4] start))
    = [Release].
Proof. vm_compute. repeat split; reflexivity. Qed.

Lemma py_int_truncates x num den :
  exact_fraction x = Some (num, den) -> F64.py_int x = Ok (num ÷ den).
Proof.
  destruct x as [s| s | | s m e]; cbn [exact_fraction F64.py_int]; try discriminate.
  - intros H. inversion H. reflexivity.
  - intros H. inversion H. subst. clear H. f_equal.
    destruct e as [|p|p].
    + cbn [Z.max Z.opp]. change (2 ^ 0) with 1. rewrite Z.quot_1_r, !Z.mul_1_r.
      destruct s; reflexivity.
    + replace (Z.max (Z.pos p) 0) with (Z.pos p) by lia.
      replace (Z.max (- Z.pos p) 0) with 0 by lia.
      change (2 ^ 0) with 1. rewrite Z.quot_1_r. destruct s; [|reflexivity].
      change (Z.neg m) with (- Z.pos m). lia.
    + replace (Z.max (Z.neg p) 0) with 0 by lia.
      replace (Z.max (- Z.neg p) 0) with (Z.pos p) by lia.
      change (2 ^ 0) with 1. rewrite Z.mul_1_r.
      rewrite Z.pow_pos_fold.
      assert (0 < 2 ^ Z.pos p) by (apply Z.pow_pos_nonneg; lia).
      destruct s.
      * change (Z.neg m) with (- Z.pos m). rewrite Z.quot_opp_l by lia.
        rewrite Z.quot_div_nonneg by lia. reflexivity.
      * rewrite Z.quot_div_nonneg by lia. reflexivity.
Qed.

(** C4, as the code has it.  The corrected distance is the product
    [raw_offset * scale_ratio], computed in binary64, truncated toward zero
    by [int(..)]; the target is that minus the safety margin.  The two
    examples of the specification hold. *)
Theorem correct_truncates raw_offset scale_ratio safety_margin x num den :
  F64.py_float raw_offset = Ok x ->
  exact_fraction (F64.mul x scale_ratio) = Some (num, den) ->
  correct raw_offset scale_ratio safety_margin
    = Ok (num ÷ den - safety_margin) /\
  correct 100 F64.one 0 = Ok 100 /\
  correct 100 F64.half 5 = Ok 45.
Proof.
  intros Hx Hp. split; [|split; vm_compute; reflexivity].
  unfold correct, adjust_distance. rewrite Hx.
  now rewrite (py_int_truncates _ _ _ Hp).
Qed.

Lemma correct_truncates_witness :
  correct 5 three_quarters 0 = Ok 3.
Proof.
  edestruct (correct_truncates 5 three_quarters 0) as [H _];
    [vm_compute; reflexivity | vm_compute; reflexivity | ].
  rewrite H. vm_compute. reflexivity.
Defined.

(** C4 as stated fails: on raw offset 5 and ratio 0.75 the code yields 3
    where rounding to nearest yields 4. *)
Lemma correct_not_rounding :
  correct 5 three_quarters 0 <> spec_correct 5 three_quarters 0.
Proof. vm_compute. discriminate. Qed.

(** C5 at a world where everything works and the popup stays. *)
Lemma retry_bound_witness :
  exists s',
    handle_slider_captcha settings (stub_world calm) 100 3 start
      = (Returns false, s') /\
    count is_image_call (log s') = 3%nat /\
    count is_verify_call (log s') = 3%nat /\
    images_fresh (stub_world calm) (log s') = true.
Proof.
  apply (retry_bound settings (stub_world calm) 100).
  - intros [] tr; eexists; reflexivity.
  - intros [] tr H; try congruence;
      exists sample_src, Byte.x01, []; repeat split; discriminate.
  - intros; eexists; reflexivity.
  - intros slider bg tr x s r s' Hx Hr.
    cbn in Hx. inversion Hx; subst x.
    vm_compute in Hr. inversion Hr; subst r.
    exists 200. do 2 eexists. split; [vm_compute; reflexivity|].
    vm_compute. reflexivity.
  - intros batch tr. cbn. destruct (has_move batch); reflexivity.
  - intros tr. do 2 eexists. reflexivity.
Defined.

(** C7 at a world whose matcher always answers 0. *)
Lemma degenerate_retries_witness :
  (forall fuel' d, d <= 0 -> generate_track fuel' d = Returns []) /\
  exists s',
    handle_slider_captcha settings (stub_world notch_at_origin) 100 3 start
      = (Returns false, s') /\
    count is_image_call (log s') = 3%nat /\
    count is_empty_track_log (log s') = 3%nat /\
    count is_drag_event (log s') = 0%nat.
Proof.
  apply (degenerate_retries settings (stub_world notch_at_origin) 100).
  - intros [] tr; eexists; reflexivity.
  - intros [] tr H; try congruence;
      exists sample_src, Byte.x01, []; repeat split; discriminate.
  - intros; eexists; reflexivity.
  - intros slider bg tr x s r s' Hx Hr.
    cbn in Hx. inversion Hx; subst x.
    vm_compute in Hr. inversion Hr; subst r.
    exists 0. split; [vm_compute; reflexivity|]. vm_compute. discriminate.
Defined.

(** C8, as the code has it.  When the wait for the popup raises,
    [handle_slider_captcha] raises nothing: it logs the condition and
    returns [False] at once, the value that exhaustion gives.  No pass of
    the loop starts and neither the Image Source, the matcher nor the Drag
    Executor is called.  When the popup is shown and [max_attempts] is at
    least 1, the first pass starts and calls the Image Source, whatever
    happens afterwards.  When the popup is shown and [max_attempts] is 0 or
    less, the loop is empty and the exhaustion is logged at once. *)
Theorem popup_gate cfg w fuel (max_attempts : Z) :
  (forall e,
     wait_present w SLIDER_CAPTCHA_POPUP 10 [] = Err e ->
     handle_slider_captcha cfg w fuel max_attempts start
       = (Returns false,
          {| log := [EvWait SLIDER_CAPTCHA_POPUP 10 (Err e);
                     EvLogError (MsgPopupAbsent e)];
             chain := [] |})) /\
  (forall el,
     wait_present w SLIDER_CAPTCHA_POPUP 10 [] = Ok el ->
     1 <= max_attempts ->
     exists reply rest,
       log (snd (handle_slider_captcha cfg w fuel max_attempts start))
         = [EvWait SLIDER_CAPTCHA_POPUP 10 (Ok el); EvSleep 200;
            EvPrint (MsgAttempt 1); EvSleep 1000;
            EvScript BgImageScript reply] ++ rest) /\
  (forall el,
     wait_present w SLIDER_CAPTCHA_POPUP 10 [] = Ok el ->
     max_attempts <= 0 ->
     handle_slider_captcha cfg w fuel max_attempts start
       = (Returns false,
          {| log := [EvWait SLIDER_CAPTCHA_POPUP 10 (Ok el); EvSleep 200;
                     EvLogError (MsgExhausted max_attempts)];
             chain := [] |})).
Proof.
  split; [|split].
  - intros e E. unfold handle_slider_captcha. run. cbn [start log chain app].
    rewrite E. reflexivity.
  - intros el E Hn. unfold handle_slider_captcha. run. cbn [start log chain app].
    rewrite E. run. cbn [negb]. run.
    destruct (Z.to_nat max_attempts) as [|n] eqn:En; [lia|].
    match goal with |- context [attempts cfg w fuel (S n) 1 ?s0] =>
      destruct (attempts_first cfg w fuel n 1 s0) as (reply & rest & Ef);
      destruct (attempts cfg w fuel (S n) 1 s0) as [[[]| |] s1] end;
      cbn [snd log app] in *; rewrite ?Ef; cbn [app]; eauto.
  - intros el E Hn. unfold handle_slider_captcha. run. cbn [start log chain app].
    rewrite E. run. cbn [negb]. run.
    destruct (Z.to_nat max_attempts) as [|n] eqn:En; [|lia].
    cbn [attempts]. run. reflexivity.
Qed.

Lemma popup_gate_witness :
  handle_slider_captcha settings (stub_world popup_absent) 100 10 start
    = (Returns false,
       {| log := [EvWait SLIDER_CAPTCHA_POPUP 10 (Err TimeoutException);
                  EvLogError (MsgPopupAbsent TimeoutException)];
          chain := [] |}) /\
  (exists reply rest,
     log (snd (handle_slider_captcha settings (stub_world calm) 100 10 start))
       = [EvWait SLIDER_CAPTCHA_POPUP 10 (Ok 1%nat); EvSleep 200;
          EvPrint (MsgAttempt 1); EvSleep 1000;
          EvScript BgImageScript reply] ++ rest) /\
  handle_slider_captcha settings (stub_world calm) 100 0 start
    = (Returns false,
       {| log := [EvWait SLIDER_CAPTCHA_POPUP 10 (Ok 1%nat); EvSleep 200;
                  EvLogError (MsgExhausted 0)];
          chain := [] |}).
Proof.
  split; [|split].
  - apply (proj1 (popup_gate settings (stub_world popup_absent) 100 10)).
    reflexivity.
  - apply (proj1 (proj2 (popup_gate settings (stub_world calm) 100 10)) 1%nat).
    + reflexivity.
    + lia.
  - apply (proj2 (proj2 (popup_gate settings (stub_world calm) 100 0)) 1%nat).
    + reflexivity.
    + lia.
Defined.

(** C8 as stated fails: an absent popup is not a fatal condition of its
    own.  With the popup absent the call raises nothing; it returns
    [False], the very result of a run that uses up its ten attempts with
    the popup shown.  The caller, which reads the result only, cannot tell
    the two apart. *)
Lemma popup_absent_not_escalated :
  wait_present (stub_world popup_absent) SLIDER_CAPTCHA_POPUP 10 []
    = Err TimeoutException /\
  fst (handle_slider_captcha settings (stub_world popup_absent) 1000 10 start)
    = Returns false /\
  count is_attempt
    (log (snd (handle_slider_captcha settings (stub_world calm) 1000 10 start)))
    = 10%nat /\
  fst (handle_slider_captcha settings (stub_world calm) 1000 10 start)
    = fst (handle_slider_captcha settings (stub_world popup_absent) 1000 10
             start).
Proof. vm_compute. repeat split. Qed.

(** C9.  [calculate_scale_ratio] always returns, whatever the scale query
    answers; and when the query raises, finds no element, or finds one
    whose natural width is missing or 0, it returns exactly [1.0] after
    printing or logging that it fell back. *)
Theorem calculate_scale_ratio_total w s :
  (exists r evs,
     calculate_scale_ratio w s
       = (Returns r, {| log := log s ++ evs; chain := chain s |})) /\
  (width_unusable (execute_script w ScaleRatioScript (log s)) ->
   exists evs,
     calculate_scale_ratio w s
       = (Returns F64.one, {| log := log s ++ evs; chain := chain s |}) /\
     existsb is_scale_warning evs = true).
Proof. split; [apply scale_total | apply scale_fallback]. Qed.

Lemma calculate_scale_ratio_total_witness :
  exists evs,
    calculate_scale_ratio (stub_world scale_query_raises) start
      = (Returns F64.one, {| log := [] ++ evs; chain := [] |}) /\
    existsb is_scale_warning evs = true.
Proof.
  apply (proj2 (calculate_scale_ratio_total
                  (stub_world scale_query_raises) start)).
  apply query_raises.
Defined.

(** * Further properties *)

(** ** [drag_slider] on every surface *)

Lemma gestures_sent_app a b :
  gestures_sent (a ++ b) = gestures_sent a ++ gestures_sent b.
Proof. apply flat_map_app. Qed.

Lemma batch_sizes_app a b :
  batch_sizes (a ++ b) = batch_sizes a ++ batch_sizes b.
Proof. apply flat_map_app. Qed.

(** Division and remainder by 5, for [lia]. *)
Ltac divmod5_at a :=
  let q := fresh "q" in let r := fresh "r" in
  let Eq := fresh "E" in let Er := fresh "E" in
  pose proof (Nat.div_mod_eq a 5);
  pose proof (Nat.mod_upper_bound a 5 ltac:(discriminate));
  remember (a / 5)%nat as q eqn:Eq; clear Eq;
  remember (a mod 5)%nat as r eqn:Er; clear Er.

Ltac divmod5 :=
  repeat match goal with
  | |- context [(?a / 5)%nat] => divmod5_at a
  | |- context [(?a mod 5)%nat] => divmod5_at a
  | H : context [(?a / 5)%nat] |- _ => divmod5_at a
  | H : context [(?a mod 5)%nat] |- _ => divmod5_at a
  end.

(** The number of requests that [replay] sends from index [i] on is the
    number of indices [j] in [i .. len - 1] with [(j + 1) % 5 == 0] or
    [j == len - 1]. *)
Lemma flush_count (i len : nat) :
  (i < len)%nat ->
  ((if Nat.eqb ((i + 1) mod 5) 0 || Nat.eqb i (len - 1) then 1 else 0)
   + (if Nat.eqb (S i) len then 0 else (len + 4) / 5 - S i / 5)
   = (len + 4) / 5 - i / 5)%nat.
Proof.
  intros H.
  replace (S i) with (i + 1)%nat by lia.
  pose proof (Nat.div_mod_eq (i + 1) 5).
  pose proof (Nat.mod_upper_bound (i + 1) 5 ltac:(discriminate)).
  destruct (Nat.eqb_spec ((i + 1) mod 5) 0) as [E1|E1];
  destruct (Nat.eqb_spec i (len - 1)) as [E2|E2];
  destruct (Nat.eqb_spec (i + 1) len) as [E3|E3]; cbn [orb]; try lia.
  all: divmod5; lia.
Qed.

Section Replay.
Variable w : World.

(** The loop over the track, from index [i] on, on any surface: the
    requests are accepted up to the first one that raises, and what was
    sent plus what is still queued are the queue and the moves so far. *)
Lemma replay_spec len track : forall i s,
  len = (i + List.length track)%nat ->
  (List.length (chain s) <= i mod 5)%nat ->
  exists accepted,
    forallb is_accepted accepted = true /\
    Forall (fun n => (n <= 5)%nat) (batch_sizes accepted) /\
    ((exists c,
        replay w len i track s
          = (Returns tt, {| log := log s ++ accepted; chain := c |}) /\
        gestures_sent accepted ++ c
          = chain s ++ map (fun move => MoveByOffset move 0) track /\
        (track <> [] -> c = []) /\
        count is_perform accepted
          = (if Nat.eqb i len then 0 else (len + 4) / 5 - i / 5)%nat)
     \/
     (exists batch exc rest,
        replay w len i track s
          = (Raises exc,
             {| log := log s ++ accepted ++ [EvPerform batch (Err exc)];
                chain := [] |}) /\
        gestures_sent accepted ++ batch ++ rest
          = chain s ++ map (fun move => MoveByOffset move 0) track /\
        (List.length batch <= 5)%nat /\
        (count is_perform accepted < (len + 4) / 5 - i / 5)%nat)).
Proof.
  induction track as [|move rest IH]; intros i s Hlen Hq.
  - exists []. repeat split; [constructor|]. left. exists (chain s).
    cbn [replay List.length] in *. unfold ret. rewrite !app_nil_r.
    destruct s as [l0 c0]. cbn [log chain]. repeat split; [congruence|].
    replace len with i by lia. now rewrite Nat.eqb_refl.
  - cbn [List.length] in Hlen. cbn [replay]. run.
    assert (Hi : (i < len)%nat) by lia.
    assert (Hne : Nat.eqb i len = false) by (apply Nat.eqb_neq; lia).
    rewrite Hne.
    pose proof (flush_count i len Hi) as FC.
    assert (Hm : (i mod 5 < 5)%nat) by (apply Nat.mod_upper_bound; lia).
    destruct (Nat.eqb ((i + 1) mod 5) 0 || Nat.eqb i (len - 1)) eqn:Efl; run.
    + (* the queue is flushed *)
      destruct (perform_actions w (chain s ++ [MoveByOffset move 0]) (log s))
        as [[]|exc] eqn:Ep; cbn [of_reply].
      * match goal with |- context [replay w len (S i) rest ?s0] =>
          destruct (IH (S i) s0) as (acc & A1 & A2 & A3);
            [lia | cbn [chain List.length]; lia |] end.
        cbn [log chain] in A3.
        exists (EvPerform (chain s ++ [MoveByOffset move 0]) (Ok tt) :: acc).
        split; [cbn; exact A1|].
        split.
        { cbn [batch_sizes flat_map app]. constructor; [|exact A2].
          rewrite length_app. cbn [List.length]. lia. }
        destruct A3 as [(c & E & G & Hc & Cn)|(batch & exc & rest' & E & G & Hb & Cn)].
        -- left. exists c. rewrite E. rewrite <- app_assoc. cbn [app].
           split; [reflexivity|].
           split.
           { cbn [gestures_sent flat_map]. fold (gestures_sent acc).
             rewrite <- !app_assoc. rewrite G. cbn [app map]. reflexivity. }
           split.
           { intros _. destruct rest; [|apply Hc; discriminate].
             cbn [replay] in E. unfold ret in E. now inversion E. }
           rewrite count_cons. cbn [is_perform]. rewrite Cn.
           try rewrite Efl in FC. lia.
        -- right. exists batch, exc, rest'. rewrite E. rewrite <- !app_assoc. cbn [app].
           split; [reflexivity|].
           split.
           { cbn [gestures_sent flat_map]. fold (gestures_sent acc).
             rewrite <- !app_assoc. rewrite G. cbn [app map]. reflexivity. }
           split; [exact Hb|].
           rewrite count_cons. cbn [is_perform].
           try rewrite Efl in FC.
           destruct (Nat.eqb (S i) len) eqn:E3; [|lia].
           apply Nat.eqb_eq in E3. exfalso.
           destruct rest; [|cbn [List.length] in Hlen; lia].
           cbn [replay] in E. unfold ret in E. discriminate.
      * exists []. split; [reflexivity|]. split; [constructor|].
        right. exists (chain s ++ [MoveByOffset move 0]), exc,
          (map (fun move => MoveByOffset move 0) rest).
        cbn [app]. split; [reflexivity|].
        split; [cbn [gestures_sent flat_map app map]; now rewrite <- app_assoc|].
        split; [rewrite length_app; cbn [List.length]; lia|].
        unfold count. cbn [filter List.length]. destruct (Nat.eqb (S i) len); lia.
    + (* the move stays in the queue *)
      apply orb_false_iff in Efl. destruct Efl as [F1 F2].
      apply Nat.eqb_neq in F1. apply Nat.eqb_neq in F2.
      match goal with |- context [replay w len (S i) rest ?s0] =>
        destruct (IH (S i) s0) as (acc & A1 & A2 & A3);
          [lia | cbn [chain]; rewrite length_app; cbn [List.length];
                 replace (S i) with (i + 1)%nat by lia; divmod5; lia |] end.
      cbn [log chain] in A3.
      exists acc. split; [exact A1|]. split; [exact A2|].
      assert (E3 : Nat.eqb (S i) len = false) by (apply Nat.eqb_neq; lia).
      assert (Ed : (S i / 5 = i / 5)%nat)
        by (replace (S i) with (i + 1)%nat by lia; divmod5; lia).
      rewrite E3, Ed in A3.
      destruct A3 as [(c & E & G & Hc & Cn)|(batch & exc & rest' & E & G & Hb & Cn)].
      * left. exists c. rewrite E. split; [reflexivity|].
        split; [rewrite G, <- app_assoc; reflexivity|].
        split; [|exact Cn].
        intros _. destruct rest; [cbn [List.length] in Hlen; lia|].
        apply Hc. discriminate.
      * right. exists batch, exc, rest'. rewrite E. split; [reflexivity|].
        split; [rewrite G, <- app_assoc; reflexivity|].
        split; [exact Hb|]. exact Cn.
Qed.

End Replay.

(** [drag_slider] once the handle is found, on any surface. *)
Lemma drag_spec w track s slider_btn :
  wait_present w SLIDER_BUTTON 10 (log s) = Ok slider_btn ->
  exists accepted,
    forallb is_accepted accepted = true /\
    Forall (fun n => (n <= 5)%nat) (batch_sizes accepted) /\
    ((drag_slider w track s
        = (Returns true,
           {| log := log s ++ EvWait SLIDER_BUTTON 10 (Ok slider_btn) :: accepted;
              chain := [Release] |}) /\
      gestures_sent accepted = drag_gestures slider_btn track /\
      count is_perform accepted = (2 + (List.length track + 4) / 5)%nat)
     \/
     (exists batch exc rest,
        drag_slider w track s
          = (Returns false,
             {| log := log s ++ EvWait SLIDER_BUTTON 10 (Ok slider_btn)
                         :: accepted ++ [EvPerform batch (Err exc);
                                         EvLogError (drag_error exc)];
                chain := [Release] |}) /\
        gestures_sent accepted ++ batch ++ rest
          = drag_gestures slider_btn track /\
        (List.length batch <= 5)%nat /\
        (count is_perform accepted < 2 + (List.length track + 4) / 5)%nat)).
Proof.
  intros Hh. unfold drag_slider. run. rewrite Hh. run. cbn [app].
  match goal with |- context [perform_actions w [ClickAndHold slider_btn] ?tr] =>
    destruct (perform_actions w [ClickAndHold slider_btn] tr) as [[]|exc] eqn:Ep
  end; cbn [of_reply].
  - match goal with |- context [replay w ?l 0 track ?s0] =>
      destruct (replay_spec w l track 0%nat s0) as (acc & A1 & A2 & A3);
        [reflexivity | cbn [chain List.length]; lia |] end.
    cbn [log chain app] in A3. rewrite Nat.sub_0_r in A3.
    destruct A3 as [(c & E & G & Hc & Cn)|(batch & exc & rest & E & G & Hb & Cn)].
    + rewrite E. cbn [log chain].
      assert (c = []).
      { destruct track; [|apply Hc; discriminate].
        cbn [replay] in E. unfold ret in E. now inversion E. }
      subst c. rewrite app_nil_r in G. cbn [app].
      match goal with |- context [perform_actions w [Release] ?tr] =>
        destruct (perform_actions w [Release] tr) as [[]|exc] eqn:Er
      end; cbn [of_reply].
      * exists (EvPerform [ClickAndHold slider_btn] (Ok tt)
                  :: acc ++ [EvPerform [Release] (Ok tt)]).
        split; [cbn [forallb is_accepted andb]; rewrite forallb_app, A1; reflexivity|].
        split.
        { cbn [batch_sizes flat_map app List.length].
          constructor; [lia|]. fold (batch_sizes (acc ++ [EvPerform [Release] (Ok tt)])).
          rewrite batch_sizes_app. apply Forall_app. split; [exact A2|].
          cbn. constructor; [lia|constructor]. }
        left. rewrite <- !app_assoc. cbn [app].
        split; [reflexivity|].
        split.
        { cbn [gestures_sent flat_map app].
          fold (gestures_sent (acc ++ [EvPerform [Release] (Ok tt)])).
          rewrite gestures_sent_app, G. reflexivity. }
        rewrite count_cons, count_app. cbn [is_perform]. rewrite Cn.
        unfold count. cbn [filter is_perform List.length].
        destruct (Nat.eqb 0 (List.length track)) eqn:E0.
        -- apply Nat.eqb_eq in E0. rewrite <- E0. reflexivity.
        -- change (0 / 5)%nat with 0%nat. lia.
      * exists (EvPerform [ClickAndHold slider_btn] (Ok tt) :: acc).
        split; [cbn [forallb is_accepted andb]; exact A1|].
        split.
        { cbn [batch_sizes flat_map app List.length].
          constructor; [lia|exact A2]. }
        right. exists [Release], exc, [].
        split.
        { destruct exc; cbn [drag_error]; run; rewrite <- !app_assoc; reflexivity. }
        split.
        { cbn [gestures_sent flat_map app]. fold (gestures_sent acc).
          rewrite G. reflexivity. }
        split; [cbn; lia|].
        rewrite count_cons. cbn [is_perform]. rewrite Cn.
        destruct (Nat.eqb 0 (List.length track)) eqn:E0; [lia|].
        change (0 / 5)%nat with 0%nat. lia.
    + rewrite E. cbn [log chain].
      exists (EvPerform [ClickAndHold slider_btn] (Ok tt) :: acc).
      split; [cbn [forallb is_accepted andb]; exact A1|].
      split.
      { cbn [batch_sizes flat_map app List.length].
        constructor; [lia|exact A2]. }
      right. exists batch, exc, (rest ++ [Release]).
      split.
      { destruct exc; cbn [drag_error]; run; rewrite <- !app_assoc; reflexivity. }
      split.
      { cbn [gestures_sent flat_map app]. fold (gestures_sent acc).
        unfold drag_gestures. rewrite <- G, <- !app_assoc. reflexivity. }
      split; [exact Hb|].
      rewrite count_cons. cbn [is_perform].
      change (0 / 5)%nat with 0%nat in Cn. lia.
  - exists []. split; [reflexivity|]. split; [constructor|].
    right. exists [ClickAndHold slider_btn], exc,
      (map (fun move => MoveByOffset move 0) track ++ [Release]).
    split.
    { destruct exc; cbn [drag_error]; run; rewrite <- !app_assoc; reflexivity. }
    split; [reflexivity|]. split; [cbn; lia|].
    unfold count. cbn. lia.
Qed.

Lemma moves_sum track :
  sum (flat_map (fun g => match g with MoveByOffset x _ => [x] | _ => [] end)
         (map (fun move => MoveByOffset move 0) track ++ [Release]))
  = sum track.
Proof.
  induction track as [|x rest IH]; [reflexivity|].
  cbn [map app flat_map sum fold_right]. fold (sum rest). unfold sum in *.
  now rewrite <- IH.
Qed.

Lemma moved_wait l t r evs : moved (EvWait l t r :: evs) = moved evs.
Proof. reflexivity. Qed.

(** X1.  [drag_slider] raises only when the handle cannot be located, and then
    nothing was sent.  Once the handle is found it returns: [True] after
    every request was accepted, the whole sequence (press, the moves of
    the track in order, release) having been sent; [False] at the first
    refused request, which is logged and after which nothing more is
    sent.  What was sent is a prefix of that sequence.  Either way one
    release that was never sent is left in the queue. *)
Theorem drag_slider_stops_at_refusal w track s :
  match wait_present w SLIDER_BUTTON 10 (log s) with
  | Err exc =>
      drag_slider w track s
        = (Raises exc,
           {| log := log s ++ [EvWait SLIDER_BUTTON 10 (Err exc)];
              chain := chain s |})
  | Ok slider_btn =>
      exists accepted,
        forallb is_accepted accepted = true /\
        ((drag_slider w track s
            = (Returns true,
               {| log := log s ++ EvWait SLIDER_BUTTON 10 (Ok slider_btn)
                           :: accepted;
                  chain := [Release] |}) /\
          gestures_sent accepted = drag_gestures slider_btn track)
         \/
         (exists batch exc rest,
            drag_slider w track s
              = (Returns false,
                 {| log := log s ++ EvWait SLIDER_BUTTON 10 (Ok slider_btn)
                             :: accepted ++ [EvPerform batch (Err exc);
                                             EvLogError (drag_error exc)];
                    chain := [Release] |}) /\
            gestures_sent accepted ++ batch ++ rest
              = drag_gestures slider_btn track))
  end.
Proof.
  destruct (wait_present w SLIDER_BUTTON 10 (log s)) as [slider_btn|exc] eqn:Hh.
  - destruct (drag_spec w track s slider_btn Hh) as (acc & A1 & _ & A3).
    exists acc. split; [exact A1|].
    destruct A3 as [(E & G & _)|(batch & exc & rest & E & G & _)].
    + left. now split.
    + right. exists batch, exc, rest. now split.
  - unfold drag_slider. run. rewrite Hh. reflexivity.
Qed.

(** X2.  Once the handle is found, a drag along a track of [n] moves costs at
    most [2 + ceil(n / 5)] requests to the surface, none of more than 5
    gestures, and exactly that many when it returns [True]. *)
Theorem drag_slider_request_budget w track s slider_btn :
  wait_present w SLIDER_BUTTON 10 (log s) = Ok slider_btn ->
  exists evs,
    log (snd (drag_slider w track s)) = log s ++ evs /\
    (count is_perform evs <= 2 + (List.length track + 4) / 5)%nat /\
    Forall (fun n => (n <= 5)%nat) (batch_sizes evs) /\
    (fst (drag_slider w track s) = Returns true ->
     count is_perform evs = (2 + (List.length track + 4) / 5)%nat).
Proof.
  intros Hh.
  destruct (drag_spec w track s slider_btn Hh) as (acc & A1 & A2 & A3).
  destruct A3 as [(E & G & Cn)|(batch & exc & rest & E & G & Hb & Cn)];
    rewrite E; cbn [fst snd log]; eexists; (split; [reflexivity|]).
  - rewrite count_cons. cbn [is_perform batch_sizes flat_map app].
    fold (batch_sizes acc). repeat split; [lia|exact A2|intros _; lia].
  - rewrite count_cons, count_app. cbn [is_perform batch_sizes flat_map app].
    fold (batch_sizes (acc ++ [EvPerform batch (Err exc); EvLogError (drag_error exc)])).
    rewrite batch_sizes_app. unfold count at 2. cbn [filter is_perform List.length].
    repeat split; [lia| |discriminate].
    apply Forall_app. split; [exact A2|].
    cbn. constructor; [exact Hb|constructor].
Qed.

Lemma drag_slider_request_budget_witness :
  exists evs,
    log (snd (drag_slider (stub_world calm) [1; 2; 3; 4; 5; 6; 7] start))
      = log start ++ evs /\
    (count is_perform evs <= 2 + (7 + 4) / 5)%nat /\
    Forall (fun n => (n <= 5)%nat) (batch_sizes evs) /\
    (fst (drag_slider (stub_world calm) [1; 2; 3; 4; 5; 6; 7] start)
       = Returns true ->
     count is_perform evs = (2 + (7 + 4) / 5)%nat).
Proof.
  apply (drag_slider_request_budget (stub_world calm) [1; 2; 3; 4; 5; 6; 7]
           start 2%nat).
  reflexivity.
Defined.

Lemma releases_issued_sent tr :
  releases_issued tr = List.length (filter is_release (gestures_sent tr)).
Proof.
  induction tr as [|e tr IH]; [reflexivity|].
  cbn [releases_issued fold_right gestures_sent flat_map].
  fold (releases_issued tr). fold (gestures_sent tr).
  destruct e; cbn [app]; try exact IH.
  now rewrite filter_app, length_app, IH.
Qed.

Lemma drag_gestures_release slider_btn track :
  List.length (filter is_release (drag_gestures slider_btn track)) = 1%nat.
Proof.
  unfold drag_gestures. cbn [filter is_release].
  induction track as [|x rest IH]; [reflexivity|exact IH].
Qed.

(** A drag on a surface that accepts every request. *)
Lemma drag_accepting w track s slider_btn :
  (forall batch tr, perform_actions w batch tr = Ok tt) ->
  wait_present w SLIDER_BUTTON 10 (log s) = Ok slider_btn ->
  exists evs,
    drag_slider w track s
      = (Returns true, {| log := log s ++ evs; chain := [Release] |}) /\
    gestures_sent evs = drag_gestures slider_btn track /\
    moved evs = sum track /\
    releases_issued evs = 1%nat.
Proof.
  intros Hacc Hh.
  destruct (drag_accepted w Hacc track s slider_btn Hh) as (evs & Ed & _).
  destruct (drag_spec w track s slider_btn Hh) as (acc & _ & _ & A3).
  destruct A3 as [(E & G & _)|(batch & exc & rest & E & _)];
    [|rewrite Ed in E; discriminate].
  eexists. split; [exact E|].
  assert (G' : gestures_sent (EvWait SLIDER_BUTTON 10 (Ok slider_btn) :: acc)
               = drag_gestures slider_btn track) by exact G.
  split; [exact G'|]. split.
  - unfold moved. rewrite G'. unfold drag_gestures.
    cbn [flat_map app]. apply moves_sum.
  - rewrite releases_issued_sent, G'. apply drag_gestures_release.
Qed.


(** X3.  On a surface that accepts every request, a drag returns [True] and the
    moves that reached the surface, taken in order, are the track: the
    handle has travelled [sum(track)] pixels between one press and one
    release. *)
Theorem drag_slider_delivers w track s slider_btn :
  (forall batch tr, perform_actions w batch tr = Ok tt) ->
  wait_present w SLIDER_BUTTON 10 (log s) = Ok slider_btn ->
  exists evs,
    drag_slider w track s
      = (Returns true, {| log := log s ++ evs; chain := [Release] |}) /\
    gestures_sent evs = drag_gestures slider_btn track /\
    moved evs = sum track /\
    releases_issued evs = 1%nat.
Proof. apply drag_accepting. Qed.

Lemma drag_slider_delivers_witness :
  exists evs,
    drag_slider (stub_world calm) [3; 4; 5] start
      = (Returns true, {| log := log start ++ evs; chain := [Release] |}) /\
    gestures_sent evs = drag_gestures 2%nat [3; 4; 5] /\
    moved evs = sum [3; 4; 5] /\
    releases_issued evs = 1%nat.
Proof.
  apply (drag_slider_delivers (stub_world calm) [3; 4; 5] start 2%nat).
  - intros batch tr. cbn. now destruct (has_move batch).
  - reflexivity.
Defined.

(** ** The retry loop on every surface *)

Lemma stages_app a b : stages (a ++ b) = stages a ++ stages b.
Proof. apply flat_map_app. Qed.

Lemma attempt_numbers_app a b :
  attempt_numbers (a ++ b) = attempt_numbers a ++ attempt_numbers b.
Proof. apply flat_map_app. Qed.

Lemma slept_app a b : slept (a ++ b) = slept a + slept b.
Proof.
  induction a as [|e a IH]; [reflexivity|].
  cbn [app slept fold_right]. fold (slept (a ++ b)). fold (slept a).
  rewrite IH. destruct e; lia.
Qed.

Lemma slept_cons e tr :
  slept (e :: tr) = match e with EvSleep ms => ms | _ => 0 end + slept tr.
Proof. cbn [slept fold_right]. fold (slept tr). destruct e; lia. Qed.

Lemma slept_nil : slept [] = 0.
Proof. reflexivity. Qed.

Lemma accepted_slept evs : forallb is_accepted evs = true -> slept evs = 0.
Proof.
  induction evs as [|e evs IH]; [reflexivity|].
  cbn [forallb]. intros H. apply andb_prop in H. destruct H as [Q1 Q2].
  rewrite slept_cons, (IH Q2). destruct e; try discriminate; reflexivity.
Qed.

Lemma scale_silent w s :
  exists r evs,
    calculate_scale_ratio w s
      = (Returns r, {| log := log s ++ evs; chain := chain s |}) /\
    forallb quiet evs = true /\ slept evs = 0.
Proof.
  unfold calculate_scale_ratio. run.
  repeat (break_inner; run);
  rewrite <- ?app_assoc; do 2 eexists; (split; [reflexivity|]); split; reflexivity.
Qed.

Lemma quiet_stages evs : forallb quiet evs = true -> stages evs = [].
Proof.
  induction evs as [|e evs IH]; [reflexivity|].
  cbn [forallb]. intros H. apply andb_prop in H. destruct H as [Q1 Q2].
  cbn [stages flat_map]. fold (stages evs). rewrite (IH Q2), app_nil_r.
  destruct e as [| [] | [] | | | [] | [] | ]; try discriminate; reflexivity.
Qed.

Lemma quiet_numbers evs : forallb quiet evs = true -> attempt_numbers evs = [].
Proof.
  induction evs as [|e evs IH]; [reflexivity|].
  cbn [forallb]. intros H. apply andb_prop in H. destruct H as [Q1 Q2].
  cbn [attempt_numbers flat_map]. fold (attempt_numbers evs).
  rewrite (IH Q2), app_nil_r.
  destruct e as [| | | | | | [] | ]; try discriminate; reflexivity.
Qed.

Lemma plain_stages evs : forallb plain evs = true -> stages evs = [].
Proof.
  induction evs as [|e evs IH]; [reflexivity|].
  cbn [forallb]. intros H. apply andb_prop in H. destruct H as [Q1 Q2].
  cbn [stages flat_map]. fold (stages evs). rewrite (IH Q2), app_nil_r.
  unfold plain in Q1. destruct (stage_of e); [discriminate|reflexivity].
Qed.

Lemma plain_numbers evs :
  forallb plain evs = true -> attempt_numbers evs = [].
Proof.
  induction evs as [|e evs IH]; [reflexivity|].
  cbn [forallb]. intros H. apply andb_prop in H. destruct H as [Q1 Q2].
  cbn [attempt_numbers flat_map]. fold (attempt_numbers evs).
  rewrite (IH Q2), app_nil_r.
  destruct e as [| | | | | | [] | ]; try discriminate; reflexivity.
Qed.

Lemma images_stages w s :
  exists evs,
    log (snd (get_slider_images_from_api w s)) = log s ++ evs /\
    stages evs = [Images] /\ attempt_numbers evs = [] /\ slept evs = 1000.
Proof.
  unfold get_slider_images_from_api. run.
  repeat (break_inner; run); cbn [snd log];
    rewrite <- ?app_assoc; eexists; (split; [reflexivity|]);
    repeat split; reflexivity.
Qed.

Lemma recognize_stages cfg w bb bs s :
  exists evs,
    log (snd (recognize_distance cfg w bb bs s)) = log s ++ evs /\
    stages evs = [Matcher] /\ attempt_numbers evs = [] /\ slept evs = 0.
Proof.
  unfold recognize_distance. run.
  repeat (break_inner; run); cbn [snd log];
    rewrite <- ?app_assoc; eexists; (split; [reflexivity|]);
    repeat split; reflexivity.
Qed.

Lemma accepted_plain evs : forallb is_accepted evs = true -> forallb plain evs = true.
Proof.
  induction evs as [|e evs IH]; [reflexivity|].
  cbn [forallb]. intros H. apply andb_prop in H. destruct H as [Q1 Q2].
  rewrite (IH Q2), andb_true_r.
  destruct e; try discriminate; reflexivity.
Qed.

Lemma drag_stages w track s :
  exists evs,
    log (snd (drag_slider w track s)) = log s ++ evs /\
    stages evs = [Drag] /\ attempt_numbers evs = [] /\ slept evs = 0.
Proof.
  destruct (wait_present w SLIDER_BUTTON 10 (log s)) as [slider_btn|exc] eqn:Hh.
  - destruct (drag_spec w track s slider_btn Hh) as (acc & A1 & _ & A3).
    pose proof (accepted_slept _ A1) as A0.
    apply accepted_plain in A1.
    destruct A3 as [(E & _)|(batch & exc & rest & E & _)]; rewrite E;
      cbn [snd log]; eexists; (split; [reflexivity|]).
    + rewrite slept_cons, A0.
      cbn [stages attempt_numbers flat_map stage_of app].
      fold (stages acc). fold (attempt_numbers acc).
      now rewrite plain_stages, plain_numbers.
    + rewrite slept_cons, slept_app, A0.
      cbn [stages attempt_numbers flat_map stage_of app].
      fold (stages (acc ++ [EvPerform batch (Err exc); EvLogError (drag_error exc)])).
      fold (attempt_numbers (acc ++ [EvPerform batch (Err exc); EvLogError (drag_error exc)])).
      rewrite stages_app, attempt_numbers_app, plain_stages, plain_numbers by assumption.
      repeat split; reflexivity.
  - unfold drag_slider. run. rewrite Hh. cbn [of_reply snd log].
    eexists; (split; [reflexivity|]); repeat split; reflexivity.
Qed.

(** The shape of the trace of [verify_result] and its answer. *)
Lemma verify_shape w timeout s :
  exists r,
    log (snd (verify_result w timeout s))
      = log s ++ [EvSleep timeout; EvFind SLIDER_CAPTCHA_POPUP r] /\
    (fst (verify_result w timeout s) = Returns true -> r = Ok []).
Proof.
  unfold verify_result. run.
  repeat (break_inner; run); cbn [snd fst log]; rewrite <- ?app_assoc;
    eexists; (split; [reflexivity|]); congruence.
Qed.

Lemma stages_cons e tr :
  stages (e :: tr)
  = match stage_of e with Some st => [st] | None => [] end ++ stages tr.
Proof. reflexivity. Qed.

Lemma attempt_numbers_cons e tr :
  attempt_numbers (e :: tr)
  = match e with EvPrint (MsgAttempt k) => [k] | _ => [] end
    ++ attempt_numbers tr.
Proof. reflexivity. Qed.

Lemma stages_nil : stages [] = [].
Proof. reflexivity. Qed.

Lemma attempt_numbers_nil : attempt_numbers [] = [].
Proof. reflexivity. Qed.

Lemma suffix_app {A} (a b t : list A) :
  (exists pre, b = pre ++ t) -> exists pre, a ++ b = pre ++ t.
Proof. intros (pre & ->). exists (a ++ pre). now rewrite app_assoc. Qed.

Lemma suffix_cons {A} (e : A) (b t : list A) :
  (exists pre, b = pre ++ t) -> exists pre, e :: b = pre ++ t.
Proof. intros (pre & ->). exists (e :: pre). reflexivity. Qed.

Ltac suffix :=
  repeat first
    [ solve [exists []; reflexivity]
    | apply suffix_cons
    | apply suffix_app ].

Ltac tally :=
  repeat rewrite ?stages_app, ?attempt_numbers_app, ?stages_cons,
    ?attempt_numbers_cons, ?stages_nil, ?attempt_numbers_nil,
    ?slept_app, ?slept_cons, ?slept_nil;
  cbn [stage_of app].

(** Steps 4 to 8 of a pass, on any surface. *)
Lemma tail_spec cfg w fuel k d r s :
  exists evs rest,
    log (snd (attempt_tail cfg w fuel k d r s)) = log s ++ evs /\
    stages evs ++ rest = [Drag; Verifier] /\
    attempt_numbers evs = [] /\
    0 <= slept evs <= 1500 /\
    (fst (attempt_tail cfg w fuel k d r s) = Returns true ->
     rest = [] /\
     exists pre,
       evs = pre ++ [EvFind SLIDER_CAPTCHA_POPUP (Ok []); EvPrint MsgSuccess]).
Proof.
  unfold attempt_tail. run.
  destruct (adjust_distance d r) as [adjusted|e]; cbn [of_reply].
  2:{ exists [], [Drag; Verifier]. cbn [snd fst]. rewrite app_nil_r.
      repeat split; try discriminate; cbn; lia. }
  destruct (generate_track fuel (adjusted - SLIDER_SAFE_MARGIN cfg))
    as [track|e|]; cbn [snd fst log chain].
  2,3: rewrite <- !app_assoc; eexists; exists [Drag; Verifier];
       (split; [reflexivity|]); repeat split; try discriminate; cbn; lia.
  destruct track as [|step steps]; run.
  { rewrite <- !app_assoc. eexists. exists [Drag; Verifier].
    split; [reflexivity|]. repeat split; try discriminate; cbn; lia. }
  match goal with |- context [drag_slider w ?t ?s0] =>
    destruct (drag_stages w t s0) as (devs & Ed & Sd & Nd & Zd);
    destruct (drag_slider w t s0) as [[dragged|e|] s1]
  end; cbn [snd fst log chain] in *.
  2,3: rewrite Ed; rewrite <- !app_assoc; eexists; exists [Verifier];
       (split; [reflexivity|]);
       tally; rewrite Sd, Nd, Zd;
       repeat split; try discriminate; lia.
  destruct dragged; cbn [negb]; run.
  2:{ rewrite Ed, <- !app_assoc. eexists. exists [Verifier].
      split; [reflexivity|]. tally. rewrite Sd, Nd, Zd.
      repeat split; try discriminate; lia. }
  match goal with |- context [verify_result w 1000 ?s0] =>
    destruct (verify_shape w 1000 s0) as (rv & Ev & Hv);
    destruct (verify_result w 1000 s0) as [[verified|e|] s2]
  end; cbn [snd fst log chain] in *.
  2,3: rewrite Ev, Ed; rewrite <- !app_assoc; eexists; exists [];
       (split; [reflexivity|]);
       tally; rewrite Sd, Nd, Zd;
       repeat split; try discriminate; lia.
  destruct verified; run.
  - rewrite Ev, Ed, <- !app_assoc. eexists. exists [].
    split; [reflexivity|]. tally. rewrite Sd, Nd, Zd.
    rewrite (Hv eq_refl).
    repeat split; try lia.
    suffix.
  - rewrite Ev, Ed, <- !app_assoc. eexists. exists [].
    split; [reflexivity|]. tally. rewrite Sd, Nd, Zd.
    repeat split; try discriminate; lia.
Qed.

(** One pass of the loop, on any surface. *)
Lemma attempt_spec cfg w fuel k s :
  exists evs rest,
    log (snd (attempt_body cfg w fuel k s)) = log s ++ evs /\
    stages evs ++ rest = pipeline /\
    (2 <= List.length (stages evs))%nat /\
    attempt_numbers evs = [k] /\
    0 <= slept evs <= 2600 /\
    (fst (attempt_body cfg w fuel k s) = Returns true ->
     rest = [] /\
     exists pre,
       evs = pre ++ [EvFind SLIDER_CAPTCHA_POPUP (Ok []); EvPrint MsgSuccess]).
Proof.
  unfold attempt_body. run.
  match goal with |- context [get_slider_images_from_api w ?s0] =>
    destruct (images_stages w s0) as (ievs & Ei & Si & Ni & Zi);
    destruct (get_slider_images_from_api w s0) as [[images|e|] s1]
  end; cbn [snd fst log chain] in *.
  2,3: rewrite Ei, <- !app_assoc; eexists; exists [Matcher; Drag; Verifier];
       (split; [reflexivity|]); tally; rewrite Si, Ni, Zi;
       repeat split; try discriminate; cbn; lia.
  destruct (no_bytes (fst images) || no_bytes (snd images)); run.
  { rewrite Ei, <- !app_assoc. eexists. exists [Matcher; Drag; Verifier].
    split; [reflexivity|]. tally. rewrite Si, Ni, Zi.
    repeat split; try discriminate; cbn; lia. }
  match goal with |- context [recognize_distance cfg w ?bb ?bs ?s0] =>
    destruct (recognize_stages cfg w bb bs s0) as (mevs & Em & Sm & Nm & Zm);
    destruct (recognize_distance cfg w bb bs s0) as [[distance|e|] s2]
  end; cbn [snd fst log chain] in *.
  2,3: rewrite Em, Ei, <- !app_assoc; eexists; exists [Drag; Verifier];
       (split; [reflexivity|]); tally; rewrite Si, Ni, Zi, Sm, Nm, Zm;
       repeat split; try discriminate; cbn; lia.
  assert (Hs : forall s3,
    exists evs rest,
      log (snd (bind (calculate_scale_ratio w)
                  (fun scale_ratio =>
                     attempt_tail cfg w fuel k distance scale_ratio) s3))
        = log s3 ++ evs /\
      stages evs ++ rest = [Drag; Verifier] /\
      attempt_numbers evs = [] /\
      0 <= slept evs <= 1500 /\
      (fst (bind (calculate_scale_ratio w)
              (fun scale_ratio =>
                 attempt_tail cfg w fuel k distance scale_ratio) s3)
         = Returns true ->
       rest = [] /\
       exists pre,
         evs = pre ++ [EvFind SLIDER_CAPTCHA_POPUP (Ok []); EvPrint MsgSuccess])).
  { intros s3. unfold bind.
    destruct (scale_silent w s3) as (r & sevs & Es & Qs & Zs). rewrite Es.
    match goal with |- context [attempt_tail cfg w fuel k distance r ?s0] =>
      destruct (tail_spec cfg w fuel k distance r s0)
        as (tevs & rest & Et & St & Nt & Zt & Ht) end.
    cbn [log] in Et. exists (sevs ++ tevs), rest.
    rewrite Et, <- app_assoc. split; [reflexivity|].
    tally. rewrite (quiet_stages _ Qs), (quiet_numbers _ Qs), Zs.
    split; [exact St|]. split; [exact Nt|]. split; [lia|].
    intros H. destruct (Ht H) as (-> & pre & ->).
    split; [reflexivity|]. exists (sevs ++ pre). now rewrite app_assoc. }
  destruct (distance <? 20); run;
    match goal with |- context [calculate_scale_ratio w ?s0] =>
      destruct (Hs s0) as (tevs & rest & Et & St & Nt & Zt & Ht) end;
    unfold bind in Et, Ht; cbn [log chain] in Et;
    match type of Et with log (snd ?T) = _ =>
      remember T as res eqn:Eres; clear Eres end;
    rewrite Et, Em, Ei, <- !app_assoc; eexists; exists rest;
    (split; [reflexivity|]); tally; rewrite Si, Ni, Zi, Sm, Nm, Zm, Nt;
    cbn [app]; rewrite St;
    (split; [reflexivity|]);
    (split; [cbn; lia|]);
    (split; [reflexivity|]);
    (split; [lia|]);
    intros H; destruct (Ht H) as (-> & pre & ->);
    (split; [reflexivity|]); suffix.
Qed.

(** The passes of the loop, on any surface. *)
Lemma attempts_spec cfg w fuel n : forall k s,
  exists blocks : list (list event),
    log (snd (attempts cfg w fuel n k s)) = log s ++ List.concat blocks /\
    (List.length blocks <= n)%nat /\
    Forall (fun b => block_ok (stages b)) blocks /\
    attempt_numbers (List.concat blocks) = py_range k (List.length blocks) /\
    0 <= slept (List.concat blocks) <= 2600 * Z.of_nat (List.length blocks) /\
    (fst (attempts cfg w fuel n k s) = Returns false ->
     List.length blocks = n) /\
    (fst (attempts cfg w fuel n k s) = Returns true ->
     exists pre,
       List.concat blocks
         = pre ++ [EvFind SLIDER_CAPTCHA_POPUP (Ok []); EvPrint MsgSuccess]).
Proof.
  induction n as [|n IH]; intros k s.
  - exists []. cbn. rewrite app_nil_r.
    repeat split; try constructor; try discriminate.
  - cbn [attempts]. unfold bind.
    destruct (attempt_spec cfg w fuel k s)
      as (evs & rest & E & S1 & L1 & N1 & Z1 & T1).
    destruct (attempt_body cfg w fuel k s) as [[solved|e|] s1];
      cbn [fst snd] in *.
    + destruct solved.
      * exists [evs]. cbn [List.concat List.length py_range]. rewrite app_nil_r.
        unfold ret. cbn [fst snd]. split; [exact E|]. split; [lia|].
        split; [constructor; [split; eauto|constructor]|].
        split; [exact N1|]. split; [lia|]. split; [discriminate|].
        intros _. destruct (T1 eq_refl) as (_ & pre & ->). eauto.
      * destruct (IH (k + 1) s1) as (blocks & Eb & Lb & Fb & Nb & Zb & Hf & Ht).
        exists (evs :: blocks). cbn [List.concat List.length py_range].
        rewrite Eb, E, <- app_assoc. split; [reflexivity|]. split; [lia|].
        split; [constructor; [split; eauto|exact Fb]|].
        split; [rewrite attempt_numbers_app, N1, Nb; reflexivity|].
        split; [rewrite slept_app; lia|].
        split; [intros H; rewrite (Hf H); reflexivity|].
        intros H. destruct (Ht H) as (pre & ->). exists (evs ++ pre).
        now rewrite app_assoc.
    + exists [evs]. cbn [List.concat List.length py_range]. rewrite app_nil_r.
      split; [exact E|]. split; [lia|].
      split; [constructor; [split; eauto|constructor]|].
      split; [exact N1|]. split; [lia|]. split; discriminate.
    + exists [evs]. cbn [List.concat List.length py_range]. rewrite app_nil_r.
      split; [exact E|]. split; [lia|].
      split; [constructor; [split; eauto|constructor]|].
      split; [exact N1|]. split; [lia|]. split; discriminate.
Qed.

Lemma stages_concat blocks :
  stages (List.concat blocks) = List.concat (map stages blocks).
Proof.
  induction blocks as [|b blocks IH]; [reflexivity|].
  cbn [List.concat map]. now rewrite stages_app, IH.
Qed.

(** The whole run: the wait for the popup, then the passes, then the
    report of exhaustion. *)
Lemma handle_spec cfg w fuel max_attempts :
  (exists e,
     handle_slider_captcha cfg w fuel max_attempts start
       = (Returns false,
          {| log := [EvWait SLIDER_CAPTCHA_POPUP 10 (Err e);
                     EvLogError (MsgPopupAbsent e)];
             chain := [] |}))
  \/
  (exists el (blocks : list (list event)) closing,
     log (snd (handle_slider_captcha cfg w fuel max_attempts start))
       = [EvWait SLIDER_CAPTCHA_POPUP 10 (Ok el); EvSleep 200]
           ++ List.concat blocks ++ closing /\
     (List.length blocks <= Z.to_nat max_attempts)%nat /\
     Forall (fun b => block_ok (stages b)) blocks /\
     attempt_numbers (List.concat blocks) = py_range 1 (List.length blocks) /\
     0 <= slept (List.concat blocks) <= 2600 * Z.of_nat (List.length blocks) /\
     (closing = [] \/ closing = [EvLogError (MsgExhausted max_attempts)]) /\
     (fst (handle_slider_captcha cfg w fuel max_attempts start) = Returns false ->
      List.length blocks = Z.to_nat max_attempts /\
      closing = [EvLogError (MsgExhausted max_attempts)]) /\
     (fst (handle_slider_captcha cfg w fuel max_attempts start) = Returns true ->
      closing = [] /\
      exists pre,
        List.concat blocks
          = pre ++ [EvFind SLIDER_CAPTCHA_POPUP (Ok []); EvPrint MsgSuccess])).
Proof.
  unfold handle_slider_captcha. run. cbn [start log chain app].
  destruct (wait_present w SLIDER_CAPTCHA_POPUP 10 []) as [el|e]; run.
  2:{ left. exists e. reflexivity. }
  right. cbn [negb]. run.
  match goal with |- context [attempts cfg w fuel ?n ?k ?s0] =>
    destruct (attempts_spec cfg w fuel n k s0)
      as (blocks & Eb & Lb & Fb & Nb & Zb & Hf & Ht);
    destruct (attempts cfg w fuel n k s0) as [[solved|e|] s1]
  end; cbn [fst snd log chain] in *.
  - destruct solved; run.
    + exists el, blocks, []. rewrite Eb, app_nil_r.
      split; [reflexivity|]. split; [exact Lb|]. split; [exact Fb|].
      split; [exact Nb|]. split; [exact Zb|].
      split; [now left|]. split; [discriminate|].
      intros _. split; [reflexivity|]. apply Ht. reflexivity.
    + exists el, blocks, [EvLogError (MsgExhausted max_attempts)].
      rewrite Eb, <- app_assoc.
      split; [reflexivity|]. split; [exact Lb|]. split; [exact Fb|].
      split; [exact Nb|]. split; [exact Zb|]. split; [now right|].
      split; [|discriminate].
      intros _. split; [apply Hf|]; reflexivity.
  - exists el, blocks, []. rewrite Eb, app_nil_r.
    split; [reflexivity|]. split; [exact Lb|]. split; [exact Fb|].
    split; [exact Nb|]. split; [exact Zb|]. split; [now left|].
    split; discriminate.
  - exists el, blocks, []. rewrite Eb, app_nil_r.
    split; [reflexivity|]. split; [exact Lb|]. split; [exact Fb|].
    split; [exact Nb|]. split; [exact Zb|]. split; [now left|].
    split; discriminate.
Qed.

(** X4.  Whatever the collaborators answer, a run of [handle_slider_captcha]
    consists of at most [max_attempts] passes, and each pass goes through
    the stages in the same order: announcement, Image Source, matcher,
    drag, verifier, stopping at any stage after the Image Source.  So the
    matcher is never called without an image acquisition earlier in the
    same pass, nor the drag without the matcher, nor the verifier without
    a drag. *)
Theorem stages_follow_pipeline cfg w fuel max_attempts :
  exists blocks : list (list stage),
    stages (log (snd (handle_slider_captcha cfg w fuel max_attempts start)))
      = List.concat blocks /\
    (List.length blocks <= Z.to_nat max_attempts)%nat /\
    Forall block_ok blocks.
Proof.
  destruct (handle_spec cfg w fuel max_attempts)
    as [(e & E)|(el & blocks & closing & E & L & F & _ & _ & C & _)].
  - rewrite E. exists []. cbn. repeat split; [lia|constructor].
  - rewrite E. exists (map stages blocks). tally.
    rewrite stages_concat. split.
    + destruct C as [-> | ->]; cbn; now rewrite app_nil_r.
    + rewrite length_map. split; [exact L|].
      apply Forall_map. exact F.
Qed.

(** X5.  [handle_slider_captcha] returns [True] only right after the verifier
    found no popup left: the trace then ends with that answer and the
    report of success. *)
Theorem success_is_verified cfg w fuel max_attempts :
  fst (handle_slider_captcha cfg w fuel max_attempts start) = Returns true ->
  exists pre,
    log (snd (handle_slider_captcha cfg w fuel max_attempts start))
      = pre ++ [EvFind SLIDER_CAPTCHA_POPUP (Ok []); EvPrint MsgSuccess].
Proof.
  intros H.
  destruct (handle_spec cfg w fuel max_attempts)
    as [(e & E)|(el & blocks & closing & E & _ & _ & _ & _ & _ & _ & Ht)].
  - rewrite E in H. discriminate.
  - destruct (Ht H) as (-> & pre & Ep). rewrite E, Ep, app_nil_r. suffix.
Qed.

Lemma success_is_verified_witness :
  exists pre,
    log (snd (handle_slider_captcha settings (stub_world popup_gone) 1000 10 start))
      = pre ++ [EvFind SLIDER_CAPTCHA_POPUP (Ok []); EvPrint MsgSuccess].
Proof.
  apply (success_is_verified settings (stub_world popup_gone) 1000 10).
  vm_compute. reflexivity.
Defined.

(** X6.  [handle_slider_captcha] returns [False] in two cases only: the popup
    did not appear, and then nothing else was done; or [max_attempts]
    passes were made, numbered 1 to [max_attempts], and the exhaustion was
    logged last. *)
Theorem failure_is_exhaustion cfg w fuel max_attempts :
  fst (handle_slider_captcha cfg w fuel max_attempts start) = Returns false ->
  (exists e,
     log (snd (handle_slider_captcha cfg w fuel max_attempts start))
       = [EvWait SLIDER_CAPTCHA_POPUP 10 (Err e);
          EvLogError (MsgPopupAbsent e)])
  \/
  (exists pre,
     log (snd (handle_slider_captcha cfg w fuel max_attempts start))
       = pre ++ [EvLogError (MsgExhausted max_attempts)] /\
     attempt_numbers pre = py_range 1 (Z.to_nat max_attempts)).
Proof.
  intros H.
  destruct (handle_spec cfg w fuel max_attempts)
    as [(e & E)|(el & blocks & closing & E & _ & _ & N & _ & _ & Hf & _)].
  - left. exists e. rewrite E. reflexivity.
  - right. destruct (Hf H) as (L & ->).
    exists ([EvWait SLIDER_CAPTCHA_POPUP 10 (Ok el); EvSleep 200]
              ++ List.concat blocks).
    rewrite E, <- app_assoc. split; [reflexivity|].
    tally. rewrite N, L. reflexivity.
Qed.

Lemma failure_is_exhaustion_witness :
  (exists e,
     log (snd (handle_slider_captcha settings (stub_world calm) 1000 2 start))
       = [EvWait SLIDER_CAPTCHA_POPUP 10 (Err e);
          EvLogError (MsgPopupAbsent e)])
  \/
  (exists pre,
     log (snd (handle_slider_captcha settings (stub_world calm) 1000 2 start))
       = pre ++ [EvLogError (MsgExhausted 2)] /\
     attempt_numbers pre = py_range 1 (Z.to_nat 2)).
Proof.
  apply (failure_is_exhaustion settings (stub_world calm) 1000 2).
  vm_compute. reflexivity.
Defined.

(** X7.  Whatever the collaborators answer, the [time.sleep] calls that
    [handle_slider_captcha] and the methods it calls make themselves add
    up to at most [0.2 + 2.6 * max_attempts] seconds; a run in which every
    verification fails asks for exactly that.  The polling of the two
    [WebDriverWait]s is not part of this count. *)
Theorem sleep_budget cfg w fuel max_attempts :
  0 <= slept (log (snd (handle_slider_captcha cfg w fuel max_attempts start)))
    <= 200 + 2600 * Z.max 0 max_attempts /\
  slept (log (snd (handle_slider_captcha settings (stub_world calm) 1000 3 start)))
    = 200 + 2600 * 3.
Proof.
  split; [|vm_compute; reflexivity].
  destruct (handle_spec cfg w fuel max_attempts)
    as [(e & E)|(el & blocks & closing & E & L & _ & _ & Zb & C & _)].
  - rewrite E. cbn [snd log]. tally. lia.
  - rewrite E. tally.
    assert (slept closing = 0) by (destruct C as [-> | ->]; reflexivity).
    lia.
Qed.

(** ** A cooperative surface *)




Section Solving.
Variable cfg : Settings.
Variable w : World.
Variable fuel : nat.
Variable x : Z.
Variable r : float.
Variable final : Z.

Hypothesis elements_found :
  forall target tr, exists el, wait_present w target 10 tr = Ok el.
Hypothesis images_served :
  forall code tr, code <> ScaleRatioScript ->
    exists src b rest,
      execute_script w code tr = Ok (JStr src) /\
      src <> EmptyString /\
      b64decode w (strip_marker src) = Ok (b :: rest).
Hypothesis matcher_constant :
  forall slider bg tr, slide_match w slider bg tr = Ok x.
Hypothesis scale_constant :
  forall s, fst (calculate_scale_ratio w s) = Returns r.
Hypothesis corrected :
  correct (x + SLIDER_DISTANCE_OFFSET cfg) r (SLIDER_SAFE_MARGIN cfg) = Ok final.
Hypothesis in_range : 0 < final <= 2 ^ 47.
Hypothesis enough_fuel : (Z.to_nat (4 * final) <= fuel)%nat.
Hypothesis gestures_accepted :
  forall batch tr, perform_actions w batch tr = Ok tt.
Hypothesis popup_closes :
  forall tr, find_elements w SLIDER_CAPTCHA_POPUP tr = Ok [].




End Solving.


(** ** The Image Source *)

Open Scope string_scope.

Lemma prefix_marker_comma s :
  prefix base64_marker s = true -> mentions "," s = true.
Proof.
  unfold base64_marker.
  destruct s as [|c1 [|c2 [|c3 [|c4 [|c5 [|c6 [|c7 s]]]]]]]; cbn [prefix];
    repeat match goal with
    | |- context [ascii_dec ?a ?b] => destruct (ascii_dec a b); try discriminate
    end; try discriminate.
  intros _. subst. cbn. rewrite ?orb_true_r. reflexivity.
Qed.

Lemma mentions_app c a b : mentions c (a ++ b) = mentions c a || mentions c b.
Proof.
  induction a as [|x a IH]; [reflexivity|].
  cbn [append mentions]. now rewrite IH, orb_assoc.
Qed.

(** No occurrence of the marker starts inside a text without comma that
    the marker follows. *)
Lemma prefix_straddle c p rest :
  mentions "," (String c p) = false ->
  prefix base64_marker (String c p ++ base64_marker ++ rest) = false.
Proof.
  intros H. destruct (prefix _ _) eqn:E; [|reflexivity]. exfalso.
  revert E. unfold base64_marker.
  destruct p as [|c2 [|c3 [|c4 [|c5 [|c6 [|c7 p]]]]]];
    cbn [prefix append];
    repeat match goal with
    | |- context [ascii_dec ?a ?b] => destruct (ascii_dec a b); try discriminate
    end; try discriminate.
  intros _. subst. cbn in H. rewrite ?orb_true_r in H. discriminate.
Qed.

Lemma index_after p : forall rest,
  mentions "," p = false ->
  index 0 base64_marker (p ++ base64_marker ++ rest) = Some (String.length p).
Proof.
  induction p as [|c p IH]; intros rest H.
  - destruct rest; reflexivity.
  - assert (Hp : mentions "," p = false).
    { cbn [mentions] in H. now apply orb_false_iff in H. }
    change (index 0 base64_marker (String c p ++ base64_marker ++ rest))
      with (if prefix base64_marker (String c p ++ base64_marker ++ rest)
            then Some 0%nat
            else match index 0 base64_marker (p ++ base64_marker ++ rest) with
                 | Some n => Some (S n)
                 | None => None
                 end).
    rewrite (prefix_straddle c p rest H), (IH rest Hp). reflexivity.
Qed.

Lemma index_absent s :
  mentions "," s = false -> index 0 base64_marker s = None.
Proof.
  induction s as [|c s IH]; intros H; [reflexivity|].
  assert (Hp : mentions "," s = false).
  { cbn [mentions] in H. now apply orb_false_iff in H. }
  change (index 0 base64_marker (String c s))
    with (if prefix base64_marker (String c s)
          then Some 0%nat
          else match index 0 base64_marker s with
               | Some n => Some (S n)
               | None => None
               end).
  rewrite (IH Hp).
  destruct (prefix base64_marker (String c s)) eqn:E; [|reflexivity].
  apply prefix_marker_comma in E. congruence.
Qed.

Lemma substring_all s : substring 0 (String.length s) s = s.
Proof. induction s as [|c s IH]; [reflexivity|]. cbn. now rewrite IH. Qed.

Lemma substring_skip a : forall b n,
  substring (String.length a) n (a ++ b) = substring 0 n b.
Proof. induction a as [|c a IH]; intros b n; [reflexivity|]. cbn. apply IH. Qed.

Lemma length_append a b :
  String.length (a ++ b) = (String.length a + String.length b)%nat.
Proof. induction a as [|c a IH]; [reflexivity|]. cbn. now rewrite IH. Qed.

Lemma append_assoc (a b c : string) : (a ++ b) ++ c = a ++ b ++ c.
Proof. induction a as [|x a IH]; [reflexivity|]. cbn. now rewrite IH. Qed.

(** X9.  [s.split('base64,')[1]] on a data URI: when neither the part before
    the marker nor the payload holds a comma (the base64 alphabet has
    none), what goes to [b64decode] is the payload. *)
Theorem strip_marker_payload mime payload :
  mentions "," mime = false ->
  mentions "," payload = false ->
  has_marker (mime ++ base64_marker ++ payload) = true /\
  strip_marker (mime ++ base64_marker ++ payload) = payload /\
  strip_marker payload = payload.
Proof.
  intros Hm Hp.
  assert (E : index 0 base64_marker (mime ++ base64_marker ++ payload)
              = Some (String.length mime)) by (apply index_after; exact Hm).
  assert (N : index 0 base64_marker payload = None)
    by (apply index_absent; exact Hp).
  split; [unfold has_marker; now rewrite E|].
  split.
  - unfold strip_marker, has_marker, after_marker. rewrite E.
    set (from := (String.length mime + String.length base64_marker)%nat).
    assert (R : substring from
                  (String.length (mime ++ base64_marker ++ payload) - from)
                  (mime ++ base64_marker ++ payload) = payload).
    { rewrite <- append_assoc.
      replace from with (String.length (mime ++ base64_marker))
        by (unfold from; apply length_append).
      rewrite substring_skip, length_append.
      replace (String.length (mime ++ base64_marker) + String.length payload
               - String.length (mime ++ base64_marker))%nat
        with (String.length payload) by lia.
      apply substring_all. }
    rewrite R, N. reflexivity.
  - unfold strip_marker, has_marker. now rewrite N.
Qed.

Lemma strip_marker_payload_witness :
  has_marker ("data:image/png;" ++ base64_marker ++ "AQ==") = true /\
  strip_marker ("data:image/png;" ++ base64_marker ++ "AQ==") = "AQ==" /\
  strip_marker "AQ==" = "AQ==".
Proof.
  apply (strip_marker_payload "data:image/png;" "AQ=="); reflexivity.
Defined.

Close Scope string_scope.

(** ** Images that are not there yet *)

Section ImagesMissing.
Variable cfg : Settings.
Variable w : World.
Variable fuel : nat.
Variable popup : element.

Hypothesis popup_shown :
  wait_present w SLIDER_CAPTCHA_POPUP 10 [] = Ok popup.
Hypothesis snippets_answer :
  forall code tr, code <> ScaleRatioScript ->
    exists x, execute_script w code tr = Ok x.
Hypothesis image_missing :
  forall tr1 tr2 bg slider,
    execute_script w BgImageScript tr1 = Ok bg ->
    execute_script w SliderImageScript tr2 = Ok slider ->
    truthy bg && truthy slider = false.

Lemma attempt_without_images k s :
  exists bg slider,
    attempt_body cfg w fuel k s
      = (Returns false,
         {| log := log s ++
              [EvPrint (MsgAttempt k); EvSleep 1000;
               EvScript BgImageScript (Ok bg);
               EvScript SliderImageScript (Ok slider);
               EvLogError MsgImagesUnavailable;
               EvLogError (MsgAttemptNoImages k); EvSleep 500];
            chain := chain s |}).
Proof.
  unfold attempt_body, get_slider_images_from_api. run.
  match goal with |- context [execute_script w BgImageScript ?tr] =>
    destruct (snippets_answer BgImageScript tr) as (bg & Eb); [discriminate|];
    rewrite Eb end.
  run.
  match goal with |- context [execute_script w SliderImageScript ?tr] =>
    destruct (snippets_answer SliderImageScript tr) as (sl & Es); [discriminate|];
    rewrite Es end.
  run.
  pose proof (image_missing _ _ _ _ Eb Es) as M.
  assert (N : negb (truthy bg) || negb (truthy sl) = true).
  { destruct (truthy bg), (truthy sl); cbn in *; congruence. }
  rewrite N. run. cbn [no_bytes orb]. run.
  rewrite <- !app_assoc. cbn [app]. eauto.
Qed.

Lemma attempts_without_images n : forall k s,
  exists evs,
    attempts cfg w fuel n k s
      = (Returns false, {| log := log s ++ evs; chain := chain s |}) /\
    count is_image_call evs = n /\
    count is_match_call evs = 0%nat /\
    count is_drag_event evs = 0%nat /\
    attempt_numbers evs = py_range k n /\
    slept evs = 1500 * Z.of_nat n.
Proof.
  induction n as [|n IH]; intros k s.
  - exists []. cbn. rewrite app_nil_r. now destruct s.
  - cbn [attempts]. unfold bind at 1.
    destruct (attempt_without_images k s) as (bg & sl & E). rewrite E.
    match goal with |- context [attempts cfg w fuel n (k + 1) ?s0] =>
      destruct (IH (k + 1) s0) as (evs & E' & C1 & C2 & C3 & C4 & C5) end.
    rewrite E'. cbn [log chain]. rewrite <- app_assoc.
    eexists. split; [reflexivity|].
    rewrite !count_app, attempt_numbers_app, slept_app, C1, C2, C3, C4, C5.
    cbn [py_range]. unfold count.
    cbn [filter List.length is_image_call is_match_call
      is_drag_event attempt_numbers flat_map slept fold_right app].
    repeat split; lia.
Qed.

(** X10.  When the popup is shown but the two images are never both available
    (a snippet answers [null] or an empty text), every pass logs the
    failure and retries: [handle_slider_captcha] acquires the images
    [max_attempts] times, never calls the matcher nor the Drag Executor,
    sleeps 1.5 s per pass, and returns [False]. *)
Theorem missing_images_retry (max_attempts : Z) :
  exists s',
    handle_slider_captcha cfg w fuel max_attempts start = (Returns false, s') /\
    count is_image_call (log s') = Z.to_nat max_attempts /\
    count is_match_call (log s') = 0%nat /\
    count is_drag_event (log s') = 0%nat /\
    attempt_numbers (log s') = py_range 1 (Z.to_nat max_attempts) /\
    slept (log s') = 200 + 1500 * Z.max 0 max_attempts.
Proof.
  unfold handle_slider_captcha. run. cbn [start log chain app].
  rewrite popup_shown. run. cbn [negb]. run.
  match goal with |- context [attempts cfg w fuel ?n ?k ?s0] =>
    destruct (attempts_without_images n k s0)
      as (evs & Ea & C1 & C2 & C3 & C4 & C5) end.
  rewrite Ea. cbn [log chain]. eexists. split; [reflexivity|]. cbn [log].
  rewrite !count_app, !attempt_numbers_app, !slept_app, C1, C2, C3, C4, C5.
  unfold count. cbn [filter List.length is_image_call is_match_call
    is_drag_event attempt_numbers flat_map slept fold_right app].
  rewrite ?app_nil_r. repeat split; lia.
Qed.

End ImagesMissing.

Lemma missing_images_retry_witness :
  exists s',
    handle_slider_captcha settings blank_world 100 3 start = (Returns false, s') /\
    count is_image_call (log s') = Z.to_nat 3 /\
    count is_match_call (log s') = 0%nat /\
    count is_drag_event (log s') = 0%nat /\
    attempt_numbers (log s') = py_range 1 (Z.to_nat 3) /\
    slept (log s') = 200 + 1500 * Z.max 0 3.
Proof.
  apply (missing_images_retry settings blank_world 100 1%nat).
  - reflexivity.
  - intros [] tr H; try congruence; eexists; reflexivity.
  - intros tr1 tr2 bg slider H1 H2. cbn in H1. inversion H1. reflexivity.
Defined.

(** ** Scaling by 1.0 and by 0.5 *)

(** Multiplying a normal number by [2^k], for [k] 0 or -1, only moves its
    exponent. *)
Lemma mul_pow2 s m e k :
  dig m = 53 -> -1000 <= e <= 900 -> -1 <= k <= 0 ->
  F64.mul (S754_finite s m e) (S754_finite false 4503599627370496 (k - 52))
    = S754_finite s m (e + k).
Proof.
  intros Hd He Hk. unfold F64.mul. cbn [SFmul xorb].
  replace (xorb s false) with s by (destruct s; reflexivity).
  assert (Em : (m * 4503599627370496)%positive = shl m 52).
  { apply Pos2Z.inj. rewrite shl_spec by lia. reflexivity. }
  rewrite Em.
  assert (D : dig (shl m 52) = 105) by (rewrite dig_shl; lia).
  assert (P : 0 < 2 ^ 52) by (vm_compute; reflexivity).
  rewrite binary_round_aux_trunc; rewrite ?D.
  - change (105 - 53) with 52. rewrite shl_spec by lia.
    rewrite Z.div_mul by lia. cbn [Z.to_pos]. f_equal. lia.
  - lia.
  - unfold F64.prec, F64.emax in *. lia.
  - change (105 - 53) with 52. rewrite shl_spec by lia.
    rewrite Z.mod_mul by lia. lia.
Qed.

Lemma one_bits : F64.one = S754_finite false 4503599627370496 (0 - 52).
Proof. vm_compute. reflexivity. Qed.

Lemma half_bits : F64.half = S754_finite false 4503599627370496 (-1 - 52).
Proof. reflexivity. Qed.

Lemma mul_quarter_one k :
  Z.abs k < 2 ^ 53 -> F64.mul (quarter k) F64.one = quarter k.
Proof.
  intros Hk. destruct k as [|p|p]; [reflexivity| |];
    cbn [quarter]; unfold nf; rewrite one_bits;
    assert (dig p <= 53) by (apply dig_le_53; lia);
    pose proof (dig_pos p);
    rewrite mul_pow2; rewrite ?dig_shl; try lia;
    f_equal; lia.
Qed.

Lemma mul_quarter_half d :
  Z.abs d < 2 ^ 51 -> F64.mul (quarter (4 * d)) F64.half = quarter (2 * d).
Proof.
  intros Hd. destruct d as [|p|p]; [reflexivity| |].
  - change (4 * Zpos p) with (Zpos (shl p 2)).
    change (2 * Zpos p) with (Zpos (shl p 1)).
    cbn [quarter].
    assert (dig p <= 51).
    { destruct (Z_le_gt_dec (dig p) 51); [assumption|].
      pose proof (dig_bounds p) as [B _].
      assert (2 ^ 51 <= 2 ^ (dig p - 1)) by (apply Z.pow_le_mono_r; lia). lia. }
    pose proof (dig_pos p).
    rewrite !nf_shl by lia. unfold nf. rewrite half_bits.
    rewrite mul_pow2; rewrite ?dig_shl; try lia.
    f_equal. lia.
  - change (4 * Zneg p) with (Zneg (shl p 2)).
    change (2 * Zneg p) with (Zneg (shl p 1)).
    cbn [quarter].
    assert (dig p <= 51).
    { destruct (Z_le_gt_dec (dig p) 51); [assumption|].
      pose proof (dig_bounds p) as [B _].
      assert (2 ^ 51 <= 2 ^ (dig p - 1)) by (apply Z.pow_le_mono_r; lia). lia. }
    pose proof (dig_pos p).
    rewrite !nf_shl by lia. unfold nf. rewrite half_bits.
    rewrite mul_pow2; rewrite ?dig_shl; try lia.
    f_equal. lia.
Qed.

(** [int(k / 4)] *)
Lemma py_int_quarter k :
  Z.abs k < 2 ^ 53 -> F64.py_int (quarter k) = Ok (k ÷ 4).
Proof.
  intros Hk. destruct k as [|p|p]; [reflexivity| |];
    cbn [quarter]; unfold nf, F64.py_int;
    assert (Hd : dig p <= 53) by (apply dig_le_53; lia);
    pose proof (dig_pos p);
    (destruct (-2 - (53 - dig p)) as [|e|e] eqn:Ee; try lia);
    f_equal; rewrite Z.pow_pos_fold;
    replace (Zpos e) with (2 + (53 - dig p)) by lia;
    rewrite shl_spec, Z.pow_add_r by lia; change (2 ^ 2) with 4;
    assert (P : 0 < 2 ^ (53 - dig p)) by (apply Z.pow_pos_nonneg; lia);
    rewrite Z.div_mul_cancel_r by lia.
  - rewrite Z.quot_div_nonneg by lia. reflexivity.
  - change (Zneg p) with (- Zpos p). rewrite Z.quot_opp_l by lia.
    rewrite Z.quot_div_nonneg by lia. reflexivity.
Qed.

(** X11.  With a scale ratio of 1.0 the recognised distance is only reduced by
    the safety margin; with a ratio of 0.5 it is halved first, toward
    zero. *)
Theorem correct_unit_and_half distance margin :
  Z.abs distance < 2 ^ 51 ->
  correct distance F64.one margin = Ok (distance - margin) /\
  correct distance F64.half margin = Ok (distance ÷ 2 - margin).
Proof.
  intros Hd.
  assert (P : 4 * 2 ^ 51 = 2 ^ 53) by (vm_compute; reflexivity).
  assert (Ef : F64.py_float distance = Ok (quarter (4 * distance))).
  { unfold F64.py_float. rewrite (of_Z_quarter distance Hd).
    destruct distance as [|p|p]; reflexivity. }
  unfold correct, adjust_distance. rewrite Ef. split.
  - rewrite mul_quarter_one by lia. rewrite py_int_quarter by lia.
    rewrite Z.mul_comm, Z.quot_mul by lia. reflexivity.
  - rewrite mul_quarter_half by lia. rewrite py_int_quarter by lia.
    replace (2 * distance ÷ 4) with (distance ÷ 2); [reflexivity|].
    change 4 with (2 * 2). rewrite Z.quot_mul_cancel_l by lia. reflexivity.
Qed.

Lemma correct_unit_and_half_witness :
  correct (-5) F64.one 2 = Ok (-5 - 2) /\
  correct (-5) F64.half 2 = Ok (-5 ÷ 2 - 2).
Proof. apply (correct_unit_and_half (-5) 2). reflexivity. Defined.

(** ** A background image that is not displayed *)

Lemma of_Z_finite n :
  n <> 0 -> Z.abs n < 2 ^ 51 -> exists s m e, F64.of_Z n = S754_finite s m e.
Proof.
  intros Hn Hb. rewrite of_Z_quarter by assumption.
  destruct n as [|p|p]; [congruence| |]; cbn [Z.mul quarter]; unfold nf; eauto.
Qed.

Lemma scale_of_hidden w s n :
  n <> 0 -> Z.abs n < 2 ^ 51 ->
  execute_script w ScaleRatioScript (log s)
    = Ok (js_scale_script (BgElement (Some n) 0)) ->
  exists sign, fst (calculate_scale_ratio w s) = Returns (S754_zero sign).
Proof.
  intros Hn Hb H. destruct (of_Z_finite n Hn Hb) as (sn & mn & en & En).
  unfold calculate_scale_ratio. run. rewrite H.
  destruct n as [|p|p]; [congruence| |];
    cbn -[F64.of_Z F64.div]; rewrite En; cbn; eauto.
Qed.

Lemma adjust_by_zero d sign :
  Z.abs d < 2 ^ 51 -> adjust_distance d (S754_zero sign) = Ok 0.
Proof.
  intros Hd. unfold adjust_distance, F64.py_float.
  rewrite of_Z_quarter by assumption.
  destruct d as [|p|p]; cbn [Z.mul quarter]; unfold nf; reflexivity.
Qed.

Section HiddenImage.
Variable cfg : Settings.
Variable w : World.
Variable fuel : nat.
Variable naturalWidth : Z.

Hypothesis elements_found :
  forall target tr, exists el, wait_present w target 10 tr = Ok el.
Hypothesis images_served :
  forall code tr, code <> ScaleRatioScript ->
    exists src b rest,
      execute_script w code tr = Ok (JStr src) /\
      src <> EmptyString /\
      b64decode w (strip_marker src) = Ok (b :: rest).
Hypothesis matcher_answers :
  forall slider bg tr, exists x,
    slide_match w slider bg tr = Ok x /\
    Z.abs (x + SLIDER_DISTANCE_OFFSET cfg) < 2 ^ 51.
Hypothesis natural_width : naturalWidth <> 0 /\ Z.abs naturalWidth < 2 ^ 51.
Hypothesis not_displayed :
  forall tr,
    execute_script w ScaleRatioScript tr
      = Ok (js_scale_script (BgElement (Some naturalWidth) 0)).
Hypothesis margin_nonnegative : 0 <= SLIDER_SAFE_MARGIN cfg.

(** X12.  When the background image has a natural width but is displayed with
    [clientWidth] 0, the scale ratio is measured as 0.0, not replaced by
    1.0: every corrected distance is 0, no track is generated, and
    [handle_slider_captcha] gives up after [max_attempts] passes without a
    single request of the Drag Executor. *)
Theorem hidden_image_never_drags (max_attempts : Z) :
  exists s',
    handle_slider_captcha cfg w fuel max_attempts start = (Returns false, s') /\
    count is_image_call (log s') = Z.to_nat max_attempts /\
    count is_empty_track_log (log s') = Z.to_nat max_attempts /\
    count is_drag_event (log s') = 0%nat.
Proof.
  assert (Hm : forall slider bg tr, exists x, slide_match w slider bg tr = Ok x).
  { intros slider bg tr. destruct (matcher_answers slider bg tr) as (x & E & _).
    eauto. }
  assert (Hd : forall slider bg tr x s r s',
    slide_match w slider bg tr = Ok x ->
    calculate_scale_ratio w s = (Returns r, s') ->
    exists adjusted,
      adjust_distance (x + SLIDER_DISTANCE_OFFSET cfg) r = Ok adjusted /\
      adjusted - SLIDER_SAFE_MARGIN cfg <= 0).
  { intros slider bg tr x s r s' Hx Hr.
    destruct (matcher_answers slider bg tr) as (x' & Hx' & Hb).
    rewrite Hx in Hx'. inversion Hx'; subst x'.
    destruct natural_width as [N0 Nb].
    destruct (scale_of_hidden w s naturalWidth N0 Nb (not_displayed (log s)))
      as (sign & Es).
    rewrite Hr in Es. cbn [fst] in Es. inversion Es; subst r.
    exists 0. split; [apply adjust_by_zero; exact Hb|lia]. }
  unfold handle_slider_captcha. run.
  destruct (elements_found SLIDER_CAPTCHA_POPUP []) as (el & E).
  cbn [start log chain app]. rewrite E. run. cbn [negb]. run.
  match goal with |- context [attempts cfg w fuel ?n ?k ?s0] =>
    destruct (attempts_degenerate cfg w fuel images_served Hm Hd n k s0)
      as (evs & Ea & C1 & C2 & C3) end.
  rewrite Ea. cbn [log chain]. eexists. split; [reflexivity|]. cbn [log].
  repeat rewrite ?count_cons, ?count_app.
  rewrite C1, C2, C3. cbn. repeat split; lia.
Qed.

End HiddenImage.

Lemma hidden_image_never_drags_witness :
  exists s',
    handle_slider_captcha settings (stub_world image_hidden) 100 3 start
      = (Returns false, s') /\
    count is_image_call (log s') = Z.to_nat 3 /\
    count is_empty_track_log (log s') = Z.to_nat 3 /\
    count is_drag_event (log s') = 0%nat.
Proof.
  apply (hidden_image_never_drags settings (stub_world image_hidden) 100 400).
  - intros [] tr; eexists; reflexivity.
  - intros [] tr H; try congruence;
      exists sample_src, Byte.x01, []; repeat split; discriminate.
  - intros slider bg tr. exists 200. split; reflexivity.
  - split; [discriminate|reflexivity].
  - reflexivity.
  - vm_compute. discriminate.
Defined.

(** ** How many steps a trajectory has *)

Section Pace.
Variable D : Z.
Variable mid : float.
Hypothesis D_range : 0 < D < 2 ^ 50.
Hypothesis below_mid : forall c, 0 <= c <= 2 * D - 1 -> below mid c = true.
Hypothesis below_mono :
  forall c c', 0 <= c <= c' -> c' < 2 ^ 53 ->
    below mid c = false -> below mid c' = false.

Lemma paced_step n s :
  running D mid s -> paced D mid n s ->
  (running D mid (qstep D mid s) -> paced D mid (n + 1) (qstep D mid s)) /\
  (arrived D (qstep D mid s) ->
   Z.of_nat (List.length (qraw (qstep D mid s))) <= n + 1 /\
   (n + 1) * (n + 1) <= 16 * D).
Proof.
  intros Hr (Hl & Hn & Hp).
  destruct (running_step D mid D_range below_mid below_mono s Hr) as [_ Hlt].
  destruct (running_velocity D mid D_range below_mid s Hr) as [Hv Hv1].
  assert (P : 8 * 2 ^ 50 = 2 ^ 53) by (vm_compute; reflexivity).
  pose proof Hr as (Hc & Hj & Hjj & _ & _).
  cbv zeta in Hc, Hj, Hjj.
  assert (Hlen : Z.of_nat (List.length (qraw (qstep D mid s))) <= n + 1).
  { unfold qstep. cbn [qraw].
    match goal with |- context [if ?b then qraw s ++ [?m] else qraw s] =>
      destruct b end; [rewrite length_app; cbn [List.length]|]; lia. }
  destruct (below mid (qcurrent s)) eqn:B.
  - (* accelerating *)
    destruct Hp as [[En Ec]|[Bf _]]; [|congruence].
    assert (Ev : qv (qstep D mid s) = qv s + 1)
      by (unfold qstep; cbn [qv]; now rewrite B).
    split.
    + intros Hr'. split; [exact Hlen|]. split; [lia|]. left.
      rewrite Ev. split; [lia|].
      destruct Hr' as (Hc' & _). cbv zeta in Hc'.
      revert Hc'. unfold qstep. cbn [qcurrent]. rewrite B.
      destruct (4 * D <? qcurrent s + (2 * qv s + 1)) eqn:Ecap; intros Hc'.
      * lia.
      * rewrite Ec. ring.
    + intros _. split; [exact Hlen|]. rewrite En. nia.
  - (* decelerating *)
    specialize (Hv1 eq_refl).
    assert (Ev : qv (qstep D mid s) = qv s - 1)
      by (unfold qstep; cbn [qv]; rewrite B; lia).
    assert (HJ : exists J, 0 <= J /\ J * J < 4 * D /\ n + qv s <= 2 * J).
    { destruct Hp as [[En Ec]|[_ HJ]]; [|exact HJ].
      exists (qv s). repeat split; lia. }
    destruct HJ as (J & J0 & JJ & Jn).
    split.
    + intros Hr'. split; [exact Hlen|]. split; [lia|]. right. split.
      * destruct Hr' as (Hc' & _). cbv zeta in Hc'.
        apply (below_mono (qcurrent s)); [lia|lia|exact B].
      * exists J. rewrite Ev. repeat split; lia.
    + intros _. split; [exact Hlen|]. nia.
Qed.

Lemma qloop_paced fuel : forall n s s',
  running D mid s -> paced D mid n s ->
  qloop fuel D mid s = Some s' ->
  exists n',
    Z.of_nat (List.length (qraw s')) <= n' /\ 0 <= n' /\ n' * n' <= 16 * D.
Proof.
  induction fuel as [|fuel IH]; intros n s s' Hr Hp E.
  - cbn [qloop] in E. destruct Hr as (Hc & _). cbv zeta in Hc.
    destruct (Z.ltb_spec (qcurrent s) (4 * D)); [discriminate|lia].
  - cbn [qloop] in E. pose proof Hr as (Hc & _). cbv zeta in Hc.
    destruct (Z.ltb_spec (qcurrent s) (4 * D)); [|lia].
    destruct (paced_step n s Hr Hp) as [Hrun Harr].
    pose proof Hp as (_ & Hn & _).
    destruct (running_step D mid D_range below_mid below_mono s Hr)
      as [[Hr'|Ha'] _].
    + exact (IH (n + 1) _ s' Hr' (Hrun Hr') E).
    + destruct (Harr Ha') as [Hl Hb].
      destruct fuel; cbn [qloop] in E;
        destruct Ha' as (Hc' & _); rewrite Hc', Z.ltb_irrefl in E;
        inversion E; subst s'; exists (n + 1); repeat split; lia.
Qed.

End Pace.

(** ** Inside [generate_track] *)

(** The loop and the rounding of its steps, for a target in range. *)
Lemma track_stages D :
  0 < D <= 2 ^ 47 ->
  exists s,
    track_loop (Z.to_nat (4 * D)) D (quarter (4 * D))
      (mid_distance_of (quarter (4 * D)))
      {| current := F64.zero; v := F64.zero; raw_track := [] |}
      = Some (embed s) /\
    qcurrent s = 4 * D /\
    qraw s <> [] /\
    round_steps (map quarter (qraw s)) = Ok (map rounded (qraw s)) /\
    0 <= D - sum (map rounded (qraw s)) <= 1 /\
    Z.of_nat (List.length (qraw s)) * Z.of_nat (List.length (qraw s)) <= 16 * D.
Proof.
  intros HD.
  assert (P47 : 2 ^ 47 < 2 ^ 50) by (vm_compute; reflexivity).
  assert (P : 8 * 2 ^ 50 = 2 ^ 53) by (vm_compute; reflexivity).
  assert (HD' : 0 < D < 2 ^ 50) by lia.
  set (mid := mid_distance_of (quarter (4 * D))).
  assert (Hmid : forall c, 0 <= c <= 2 * D - 1 -> below mid c = true)
    by (intros c Hc; apply below_midpoint; assumption).
  set (s0 := {| qcurrent := 0; qv := 0; qraw := [] |}).
  change {| current := F64.zero; v := F64.zero; raw_track := [] |} with (embed s0).
  assert (R0 : running D mid s0).
  { unfold running, s0, steps_ok, drift. cbv zeta. cbn [qcurrent qv qraw map].
    change (sum []) with 0.
    split; [lia|]. split; [lia|]. split; [lia|]. split; [constructor|].
    left. split; reflexivity. }
  rewrite (track_loop_embed D mid HD' Hmid (below_monotone mid)) by (left; exact R0).
  destruct (qloop_arrives D mid HD' Hmid (below_monotone mid) (Z.to_nat (4 * D)) s0)
    as (s' & E & Hc & Hok & Hdrift); [left; exact R0|cbn; lia|].
  rewrite E. cbn [option_map]. exists s'. split; [reflexivity|].
  split; [exact Hc|].
  unfold drift in Hdrift. rewrite Hc in Hdrift.
  split.
  { intros Eraw. rewrite Eraw in Hdrift. cbn [map] in Hdrift.
    change (sum []) with 0 in Hdrift.
    assert (D = 1) by lia. subst D.
    vm_compute in E. inversion E as [E']. subst s'. discriminate. }
  split.
  { apply round_steps_quarter. unfold steps_ok in Hok.
    eapply Forall_impl; [|exact Hok]. cbv beta. intros a Ha. lia. }
  split; [lia|].
  assert (P0 : paced D mid 0 s0).
  { unfold paced, s0. cbn [qraw qv qcurrent List.length].
    split; [lia|]. split; [lia|]. left. split; reflexivity. }
  destruct (qloop_paced D mid HD' Hmid (below_monotone mid) _ 0 s0 s' R0 P0 E)
    as (n & Hl & Hn & Hb).
  nia.
Qed.

Lemma fix_last_last track delta :
  track <> [] -> Forall (fun x => 1 <= x) track -> 0 <= delta ->
  last (fix_last track delta) 0 = last track 0 + delta.
Proof.
  intros Hn Hall H0. induction track as [|x rest IH]; [congruence|].
  inversion Hall as [|? ? Hx Hrest]; subst.
  destruct rest as [|y rest'].
  - cbn. lia.
  - change (fix_last (x :: y :: rest') delta)
      with (x :: fix_last (y :: rest') delta).
    assert (F : fix_last (y :: rest') delta <> [])
      by (apply fix_last_nonempty; discriminate).
    destruct (fix_last (y :: rest') delta) as [|z zs] eqn:Ef; [congruence|].
    change (last (x :: z :: zs) 0) with (last (z :: zs) 0).
    change (last (x :: y :: rest') 0) with (last (y :: rest') 0).
    apply IH; [discriminate|assumption].
Qed.

(** X13.  For a target [d] from 1 to [2^47], the simulation loop of
    [generate_track] stops with [current] exactly equal to the target,
    having kept at least one step; the rounded steps are all at least 1
    and add up to [d] or to [d - 1].  So the closing correction adds 0 or
    1 to the last step: it never shortens it, and the floor of 1 in
    [max(1, track[-1] + delta)] never applies. *)
Theorem generate_track_correction d :
  0 < d <= 2 ^ 47 ->
  exists s track,
    (forall fuel, (Z.to_nat (4 * d) <= fuel)%nat ->
       track_loop fuel d (F64.of_Z d) (mid_distance_of (F64.of_Z d))
         {| current := F64.zero; v := F64.zero; raw_track := [] |} = Some s) /\
    current s = F64.of_Z d /\
    raw_track s <> [] /\
    round_steps (raw_track s) = Ok track /\
    Forall (fun x => 1 <= x) track /\
    0 <= d - sum track <= 1 /\
    (forall fuel, (Z.to_nat (4 * d) <= fuel)%nat ->
       generate_track fuel d = Returns (fix_last track (d - sum track))) /\
    last (fix_last track (d - sum track)) 0 = last track 0 + (d - sum track).
Proof.
  intros Hd.
  assert (P47 : 2 ^ 47 < 2 ^ 51) by (vm_compute; reflexivity).
  assert (Eo : F64.of_Z d = quarter (4 * d)) by (apply of_Z_quarter; lia).
  destruct (track_stages d Hd) as (q & El & Hc & Hne & Er & Hdelta & _).
  rewrite Eo. exists (embed q), (map rounded (qraw q)).
  assert (Hraw : raw_track (embed q) <> []).
  { cbn [embed raw_track]. destruct (qraw q); [congruence|discriminate]. }
  split; [intros fuel Hf; exact (track_loop_more_fuel _ _ _ _ _ _ _ El Hf)|].
  split; [cbn [embed current]; now rewrite Hc|].
  split; [exact Hraw|].
  split; [exact Er|].
  split; [apply rounded_all|].
  split; [exact Hdelta|].
  split.
  - intros fuel Hf. unfold generate_track.
    destruct (Z.leb_spec d 0); [lia|].
    assert (ET : F64.py_float d = Ok (quarter (4 * d))).
    { unfold F64.py_float. rewrite Eo. destruct d as [|p|p]; try lia. reflexivity. }
    rewrite ET, (track_loop_more_fuel _ _ _ _ _ _ _ El Hf).
    destruct (raw_track (embed q)) as [|x l] eqn:Ex; [congruence|].
    rewrite <- Ex. cbn [embed raw_track]. rewrite Er. reflexivity.
  - apply fix_last_last; [|apply rounded_all|lia].
    destruct (qraw q); [congruence|discriminate].
Qed.

Lemma generate_track_correction_witness :
  exists s track,
    (forall fuel, (Z.to_nat (4 * 140) <= fuel)%nat ->
       track_loop fuel 140 (F64.of_Z 140) (mid_distance_of (F64.of_Z 140))
         {| current := F64.zero; v := F64.zero; raw_track := [] |} = Some s) /\
    current s = F64.of_Z 140 /\
    raw_track s <> [] /\
    round_steps (raw_track s) = Ok track /\
    Forall (fun x => 1 <= x) track /\
    0 <= 140 - sum track <= 1 /\
    (forall fuel, (Z.to_nat (4 * 140) <= fuel)%nat ->
       generate_track fuel 140 = Returns (fix_last track (140 - sum track))) /\
    last (fix_last track (140 - sum track)) 0 = last track 0 + (140 - sum track).
Proof.
  apply (generate_track_correction 140). split; [reflexivity|discriminate].
Defined.

Lemma fix_last_length track delta :
  List.length (fix_last track delta) = List.length track.
Proof.
  induction track as [|x rest IH]; [reflexivity|].
  destruct rest as [|y rest']; [reflexivity|].
  change (fix_last (x :: y :: rest') delta)
    with (x :: fix_last (y :: rest') delta).
  cbn [List.length] in *. now rewrite IH.
Qed.

(** X14.  The number of moves grows like the square root of the distance: for a
    target [d] from 1 to [2^47], the track that [generate_track] returns
    has at most [4 * sqrt(d)] elements. *)
Theorem generate_track_length d :
  0 < d <= 2 ^ 47 ->
  exists track,
    (forall fuel, (Z.to_nat (4 * d) <= fuel)%nat ->
       generate_track fuel d = Returns track) /\
    Z.of_nat (List.length track) * Z.of_nat (List.length track) <= 16 * d.
Proof.
  intros Hd.
  assert (P47 : 2 ^ 47 < 2 ^ 51) by (vm_compute; reflexivity).
  destruct (track_stages d Hd) as (q & El & Hc & Hne & Er & Hdelta & Hlen).
  exists (fix_last (map rounded (qraw q)) (d - sum (map rounded (qraw q)))).
  split.
  - intros fuel Hf. unfold generate_track.
    destruct (Z.leb_spec d 0); [lia|].
    assert (ET : F64.py_float d = Ok (quarter (4 * d))).
    { unfold F64.py_float. rewrite of_Z_quarter by lia.
      destruct d as [|p|p]; try lia. reflexivity. }
    rewrite ET, (track_loop_more_fuel _ _ _ _ _ _ _ El Hf).
    assert (Hraw : raw_track (embed q) <> []).
    { cbn [embed raw_track]. destruct (qraw q); [congruence|discriminate]. }
    destruct (raw_track (embed q)) as [|x l] eqn:Ex; [congruence|].
    rewrite <- Ex. cbn [embed raw_track]. rewrite Er. reflexivity.
  - rewrite fix_last_length, length_map. exact Hlen.
Qed.

Lemma generate_track_length_witness :
  exists track,
    (forall fuel, (Z.to_nat (4 * 140) <= fuel)%nat ->
       generate_track fuel 140 = Returns track) /\
    Z.of_nat (List.length track) * Z.of_nat (List.length track) <= 16 * 140.
Proof.
  apply (generate_track_length 140). split; [reflexivity|discriminate].
Defined.

(** ** The reservation flow *)

Ltac rrun :=
  cbv beta iota delta
    [Reservation.bind Reservation.ret Reservation.emit Reservation.sleep
     Reservation.logger_error Reservation.ask of_reply];
  cbn [fst snd].

Lemma behaves_ret {A} ok (a : A) (P : A -> Prop) :
  P a -> Reservation.behaves ok (Reservation.ret a) P.
Proof.
  intros Ha h. exists []. cbn. rewrite app_nil_r.
  repeat split. intros a' E. inversion E. subst. exact Ha.
Qed.

Lemma behaves_emit ok e :
  ok e = true -> Reservation.passes e = true ->
  Reservation.behaves ok (Reservation.emit e) (fun _ => True).
Proof.
  intros Ho Hp h. exists [e]. cbn. rewrite Ho, Hp. repeat split.
Qed.

Lemma behaves_bind {A B} ok (c : Reservation.RM A) (k : A -> Reservation.RM B)
    (P : A -> Prop) (Q : B -> Prop) :
  Reservation.behaves ok c P ->
  (forall a, P a -> Reservation.behaves ok (k a) Q) ->
  Reservation.behaves ok (Reservation.bind c k) Q.
Proof.
  intros Hc Hk h. unfold Reservation.bind.
  destruct (Hc h) as (e1 & E1 & U1 & O1 & P1).
  destruct (c h) as [[a|exc|] h1]; cbn [fst snd] in *.
  - subst h1.
    destruct (Hk a (P1 a eq_refl) (h ++ e1)) as (e2 & E2 & U2 & O2 & P2).
    exists (e1 ++ e2). rewrite E2, app_assoc. split; [reflexivity|].
    split.
    + destruct (fst (k a (h ++ e1))) as [b|exc|]; unfold Reservation.uncaught in *.
      * now rewrite forallb_app, U1, U2.
      * destruct U2 as (pre & e & -> & Up & Ue).
        exists (e1 ++ pre), e. rewrite app_assoc, forallb_app, U1, Up. auto.
      * destruct U2 as (pre & solver & -> & Up).
        exists (e1 ++ pre), solver. rewrite app_assoc, forallb_app, U1, Up. auto.
    + split; [now rewrite forallb_app, O1, O2|exact P2].
  - exists e1. repeat split; auto. discriminate.
  - exists e1. repeat split; auto. discriminate.
Qed.

Lemma behaves_weaken {A} (ok ok' : Reservation.event -> bool)
    (m : Reservation.RM A) (P P' : A -> Prop) :
  (forall e, ok e = true -> ok' e = true) ->
  (forall a, P a -> P' a) ->
  Reservation.behaves ok m P -> Reservation.behaves ok' m P'.
Proof.
  intros Ho Hp Hm h. destruct (Hm h) as (evs & E & U & O & Pa).
  exists evs. repeat split; auto.
  rewrite forallb_forall in *. auto.
Qed.

Lemma behaves_until site locator timeout condition :
  Reservation.behaves Reservation.of_helper
    (Reservation.ask (Reservation.until site locator timeout condition)
       (Reservation.EvUntil locator timeout condition))
    (fun _ => True).
Proof.
  intros h. unfold Reservation.ask. cbv zeta.
  exists [Reservation.EvUntil locator timeout condition
            (Reservation.until site locator timeout condition h)].
  split; [reflexivity|].
  destruct (Reservation.until site locator timeout condition h) as [el|exc];
    cbn; repeat split; auto.
  exists [], (Reservation.EvUntil locator timeout condition (Err exc)). auto.
Qed.

Lemma behaves_script site code :
  Reservation.behaves Reservation.of_helper
    (Reservation.ask (Reservation.execute site code) (Reservation.EvScript code))
    (fun _ => True).
Proof.
  intros h. unfold Reservation.ask. cbv zeta.
  exists [Reservation.EvScript code (Reservation.execute site code h)].
  split; [reflexivity|].
  destruct (Reservation.execute site code h) as [el|exc];
    cbn; repeat split; auto.
  exists [], (Reservation.EvScript code (Err exc)). auto.
Qed.

(** [wait_for_element] never returns [None]: it returns the element, or
    the exception of the wait goes to the caller. *)
Lemma behaves_wait site locator timeout condition :
  Reservation.behaves Reservation.of_helper
    (Reservation.wait_for_element site locator timeout condition)
    (fun element => Reservation.found element = true).
Proof.
  unfold Reservation.wait_for_element. cbv zeta.
  eapply behaves_bind; [apply behaves_until|].
  intros el _. apply behaves_ret. reflexivity.
Qed.

Lemma behaves_scroll site element :
  Reservation.behaves Reservation.of_helper
    (Reservation.scroll_to_element site element) (fun _ => True).
Proof.
  unfold Reservation.scroll_to_element.
  eapply behaves_bind; [apply behaves_script|].
  intros _ _. apply behaves_emit; reflexivity.
Qed.

Lemma range_first retries :
  1 <= retries ->
  exists rest, py_range 0 (Z.to_nat retries) = 0 :: rest.
Proof.
  intros H. destruct (Z.to_nat retries) as [|n] eqn:E; [lia|].
  cbn [py_range]. eauto.
Qed.

(** [safe_click] on an element, with at least one try: [True], or an
    exception. *)
Lemma behaves_safe_click site element retries :
  1 <= retries ->
  Reservation.behaves Reservation.of_helper
    (Reservation.safe_click site (Reservation.Element element) retries)
    (fun clicked => clicked = true).
Proof.
  intros Hr. unfold Reservation.safe_click.
  destruct (range_first retries Hr) as (rest & ->).
  eapply behaves_bind with (P := fun resolved => resolved = Some element);
    [apply behaves_ret; reflexivity|].
  intros resolved ->. cbn [Reservation.for_each].
  eapply behaves_bind with (P := fun returned => returned = Some true).
  - eapply behaves_bind; [apply behaves_script|]. intros _ _.
    eapply behaves_bind; [apply behaves_scroll|]. intros _ _.
    eapply behaves_bind; [apply behaves_script|]. intros _ _.
    apply behaves_ret. reflexivity.
  - intros returned ->. apply behaves_ret. reflexivity.
Qed.

(** [click_and_wait] with at least one try: [True], or an exception. *)
Lemma behaves_click_and_wait site click_locator expected_locator retries wait_time :
  1 <= retries ->
  Reservation.behaves Reservation.of_helper
    (Reservation.click_and_wait site click_locator expected_locator
       retries wait_time)
    (fun done => done = true).
Proof.
  intros Hr. unfold Reservation.click_and_wait.
  destruct (range_first retries Hr) as (rest & ->).
  cbn [Reservation.for_each].
  eapply behaves_bind with (P := fun returned => returned = Some true).
  - eapply behaves_bind; [apply behaves_wait|].
    intros element ->. cbn [negb].
    eapply behaves_bind; [apply behaves_safe_click; lia|].
    intros clicked ->. cbn [negb].
    eapply behaves_bind; [apply behaves_wait|].
    intros expected ->. apply behaves_ret. reflexivity.
  - intros returned ->. apply behaves_ret. reflexivity.
Qed.

Lemma helper_before e :
  Reservation.of_helper e = true -> Reservation.before_captcha e = true.
Proof. destruct e; try discriminate; reflexivity. Qed.

Ltac helper_step lemma :=
  eapply behaves_bind;
    [eapply behaves_weaken; [exact helper_before|intros ? H; exact H|lemma]|].

Lemma behaves_enter site :
  Reservation.behaves Reservation.before_captcha
    (Reservation.enter_reservation_page site) (fun entered => entered = true).
Proof.
  unfold Reservation.enter_reservation_page.
  helper_step ltac:(apply behaves_click_and_wait; lia).
  intros entered ->. apply behaves_ret. reflexivity.
Qed.

Lemma behaves_select_room site room_name :
  Reservation.behaves Reservation.before_captcha
    (Reservation.select_room site room_name) (fun room => room = true).
Proof.
  unfold Reservation.select_room. cbv zeta.
  helper_step ltac:(apply behaves_click_and_wait; lia).
  intros clicked ->. cbn [negb].
  helper_step ltac:(apply behaves_wait).
  intros calendar ->. cbn [negb].
  eapply behaves_bind; [apply behaves_emit; reflexivity|].
  intros _ _. apply behaves_ret. reflexivity.
Qed.

Lemma behaves_clock site :
  Reservation.behaves Reservation.before_captcha
    (Reservation.get_tomorrow_date site) (fun _ => True).
Proof.
  intros h. unfold Reservation.get_tomorrow_date.
  exists [Reservation.EvClock (Reservation.tomorrow site h)].
  cbn. repeat split.
Qed.

Lemma behaves_select_date site :
  Reservation.behaves Reservation.before_captcha
    (Reservation.select_date site) (fun dated => dated = true).
Proof.
  unfold Reservation.select_date.
  eapply behaves_bind; [apply behaves_clock|]. intros info _. cbv zeta.
  helper_step ltac:(apply behaves_wait).
  intros date_element ->. cbn [negb].
  helper_step ltac:(apply behaves_scroll). intros _ _.
  eapply behaves_bind; [apply behaves_emit; reflexivity|]. intros _ _.
  helper_step ltac:(apply behaves_wait).
  intros date_element' _.
  helper_step ltac:(apply behaves_safe_click; lia).
  intros clicked ->. cbn [negb].
  eapply behaves_bind; [apply behaves_emit; reflexivity|]. intros _ _.
  helper_step ltac:(apply behaves_click_and_wait; lia).
  intros confirmed ->. cbn [negb].
  helper_step ltac:(apply behaves_wait).
  intros seat_item ->. cbn [negb].
  eapply behaves_bind; [apply behaves_emit; reflexivity|]. intros _ _.
  apply behaves_ret. reflexivity.
Qed.

Lemma behaves_select_seat site seat_numbers :
  Reservation.behaves Reservation.before_captcha
    (Reservation.select_seat site seat_numbers)
    (fun seated => seated = false -> seat_numbers = []).
Proof.
  unfold Reservation.select_seat.
  destruct seat_numbers as [|seat_number rest]; cbn [Reservation.for_each].
  - eapply behaves_bind; [apply behaves_emit; reflexivity|]. intros _ _.
    apply behaves_ret. reflexivity.
  - eapply behaves_bind with (P := fun returned => returned = Some true).
    + cbv zeta.
      helper_step ltac:(apply behaves_wait).
      intros seat_element ->. cbn [negb].
      helper_step ltac:(apply behaves_safe_click; lia).
      intros clicked ->. cbn [negb].
      eapply behaves_bind; [apply behaves_emit; reflexivity|]. intros _ _.
      apply behaves_ret. reflexivity.
    + intros returned ->. apply behaves_ret. discriminate.
Qed.

Lemma behaves_confirm site :
  Reservation.behaves Reservation.before_captcha
    (Reservation.confirm_reservation site) (fun confirmed => confirmed = true).
Proof.
  unfold Reservation.confirm_reservation.
  helper_step ltac:(apply behaves_wait).
  intros confirm_button ->. cbn [negb].
  helper_step ltac:(apply behaves_safe_click; lia).
  intros clicked ->. cbn [negb].
  helper_step ltac:(apply behaves_wait).
  intros popup ->. cbn [negb].
  apply behaves_ret. reflexivity.
Qed.

Lemma flows_bind {A} seat_numbers (c : Reservation.RM A)
    (k : A -> Reservation.RM bool) (P : A -> Prop) :
  Reservation.behaves Reservation.before_captcha c P ->
  (forall a, P a -> Reservation.flows seat_numbers (k a)) ->
  Reservation.flows seat_numbers (Reservation.bind c k).
Proof.
  intros Hc Hk h. unfold Reservation.bind.
  destruct (Hc h) as (e1 & E1 & U1 & O1 & P1).
  destruct (c h) as [[a|exc|] h1]; cbn [fst snd] in *.
  - subst h1.
    destruct (Hk a (P1 a eq_refl) (h ++ e1)) as (e2 & E2 & U2 & N2).
    exists (e1 ++ e2). rewrite E2, app_assoc. split; [reflexivity|].
    unfold Reservation.uncaught in U1.
    split.
    + destruct (fst (k a (h ++ e1))) as [b|exc|]; unfold Reservation.uncaught in *.
      * now rewrite forallb_app, U1, U2.
      * destruct U2 as (pre & e & -> & Up & Ue).
        exists (e1 ++ pre), e. rewrite app_assoc, forallb_app, U1, Up. auto.
      * destruct U2 as (pre & solver & -> & Up).
        exists (e1 ++ pre), solver. rewrite app_assoc, forallb_app, U1, Up. auto.
    + destruct N2 as [(B & Nt & Nf)|(pre & solver & B & N2)].
      * left. rewrite forallb_app, O1, B. auto.
      * right. exists (e1 ++ pre), solver. rewrite forallb_app, O1, B.
        split; [reflexivity|].
        destruct N2 as [(-> & R)|[(fm & -> & R)|[(exc & -> & R)|(-> & R)]]].
        -- left. split; [now rewrite app_assoc|exact R].
        -- right. left. exists fm. split; [now rewrite app_assoc|exact R].
        -- right. right. left. exists exc. split; [now rewrite app_assoc|exact R].
        -- right. right. right. split; [now rewrite app_assoc|exact R].
  - exists e1. split; [assumption|]. split; [assumption|].
    left. repeat split; auto; discriminate.
  - exists e1. split; [assumption|]. split; [assumption|].
    left. repeat split; auto; discriminate.
Qed.

Lemma flows_stop seat_numbers :
  seat_numbers = [] -> Reservation.flows seat_numbers (Reservation.ret false).
Proof.
  intros E h. exists []. cbn. rewrite app_nil_r. split; [reflexivity|].
  split; [reflexivity|]. left. repeat split; auto. discriminate.
Qed.

(** The end of [reserve]: the solver, then the check of the success
    message. *)
Lemma flows_captcha site fuel seat_numbers :
  Reservation.flows seat_numbers
    (Reservation.bind (Reservation.slider_captcha site fuel)
       (fun solved =>
          if negb solved then
            Reservation.bind
              (Reservation.logger_error Reservation.MsgCaptchaFailed)
              (fun _ => Reservation.ret false)
          else
            Reservation.bind (Reservation.verify_success site)
              (fun succeeded =>
                 if succeeded then Reservation.ret true
                 else
                   Reservation.bind
                     (Reservation.logger_error Reservation.MsgReservationFailed)
                     (fun _ => Reservation.ret false)))).
Proof.
  intros h. unfold Reservation.slider_captcha, Reservation.verify_success,
    Reservation.wait_for_element. rrun. cbv zeta.
  set (run := handle_slider_captcha settings (Reservation.captcha site h) fuel 10 start).
  destruct (fst run) as [[|]|exc|] eqn:Er; cbn [negb fst snd].
  - (* the solver returned True *)
    match goal with |- context [Reservation.until site ?l ?t ?c ?h0] =>
      destruct (Reservation.until site l t c h0) as [el|exc] eqn:Eu end;
      cbn [fst snd Reservation.found]; rewrite <- !app_assoc; cbn [app];
      eexists; (split; [reflexivity|]).
    + split; [reflexivity|]. right. exists [], (log (snd run)).
      split; [reflexivity|]. right. left. exists (Ok el). split; reflexivity.
    + split.
      * exists [Reservation.EvCaptcha (log (snd run)) (Returns true)].
        eexists. split; [reflexivity|]. split; reflexivity.
      * right. exists [], (log (snd run)).
        split; [reflexivity|]. right. left. exists (Err exc). split; reflexivity.
  - (* the solver returned False *)
    rewrite <- !app_assoc. cbn [app]. eexists. split; [reflexivity|].
    split; [reflexivity|]. right. exists [], (log (snd run)).
    split; [reflexivity|]. left. split; reflexivity.
  - eexists. split; [reflexivity|]. split.
    + exists [], (Reservation.EvCaptcha (log (snd run)) (Raises exc)).
      repeat split.
    + right. exists [], (log (snd run)). split; [reflexivity|].
      right. right. left. exists exc. split; reflexivity.
  - eexists. split; [reflexivity|]. split.
    + exists [], (log (snd run)). split; reflexivity.
    + right. exists [], (log (snd run)). split; [reflexivity|].
      right. right. right. split; reflexivity.
Qed.

(** [reserve], on any page and any solver surface. *)
Lemma reserve_flows site fuel seat_numbers :
  Reservation.flows seat_numbers (Reservation.reserve site fuel seat_numbers).
Proof.
  unfold Reservation.reserve.
  eapply flows_bind; [apply behaves_enter|]. intros entered ->. cbn [negb].
  eapply flows_bind; [apply behaves_select_room|]. intros room ->. cbn [negb].
  eapply flows_bind; [apply behaves_select_date|]. intros dated ->. cbn [negb].
  eapply flows_bind; [apply behaves_select_seat|]. intros seated Hs.
  destruct seated; cbn [negb]; [|apply flows_stop; auto].
  eapply flows_bind; [apply behaves_confirm|]. intros confirmed ->. cbn [negb].
  apply flows_captcha.
Qed.

Ltac rbreak :=
  match goal with
  | |- context [match ?x with _ => _ end] =>
      lazymatch x with
      | context [match _ with _ => _ end] => fail
      | _ => destruct x eqn:?
      end
  end.

Lemma range_none retries : retries <= 0 -> py_range 0 (Z.to_nat retries) = [].
Proof. intros H. replace (Z.to_nat retries) with 0%nat by lia. reflexivity. Qed.

(** X15.  [safe_click] does not retry.  With [retries] at least 1 it runs the
    three scripts (hide the overlays, scroll, click) once, with the pause
    after the scroll, and returns [True]; a script that raises ends it
    with that exception; it never returns [False].  With [retries] 0 or
    less it returns [False] without touching the page. *)
Theorem safe_click_single_try site target retries h :
  (retries <= 0 ->
   Reservation.safe_click site (Reservation.Element target) retries h
     = (Returns false, h)) /\
  (1 <= retries ->
   exists evs,
     snd (Reservation.safe_click site (Reservation.Element target) retries h)
       = h ++ evs /\
     Reservation.uncaught
       (fst (Reservation.safe_click site (Reservation.Element target) retries h))
       evs /\
     fst (Reservation.safe_click site (Reservation.Element target) retries h)
       <> Returns false /\
     (fst (Reservation.safe_click site (Reservation.Element target) retries h)
        = Returns true ->
      evs = [Reservation.EvScript Reservation.HideOverlays (Ok tt);
             Reservation.EvScript (Reservation.ScrollIntoView target) (Ok tt);
             Reservation.EvSleep 300;
             Reservation.EvScript (Reservation.Click target) (Ok tt)])).
Proof.
  split.
  - intros Hr. unfold Reservation.safe_click. rewrite (range_none retries Hr).
    reflexivity.
  - intros Hr. unfold Reservation.safe_click.
    destruct (range_first retries Hr) as (rest & ->).
    cbn [Reservation.for_each].
    unfold Reservation.remove_overlays, Reservation.scroll_to_element.
    rrun. cbv zeta.
    repeat (rbreak; cbn [fst snd]); rewrite <- ?app_assoc; cbn [app];
      eexists; (split; [reflexivity|]);
      (split; [|split; [discriminate|try discriminate]]).
    all: try (intros _; repeat match goal with u : unit |- _ => destruct u end;
              reflexivity).
    all: unfold Reservation.uncaught.
    all: try reflexivity.
    all: try (eexists [_; _; _], _; split; [reflexivity|]; split; reflexivity).
    all: try (eexists [_], _; split; [reflexivity|]; split; reflexivity).
    all: try (eexists [], _; split; [reflexivity|]; split; reflexivity).
Qed.

Lemma safe_click_single_try_witness :
  exists evs,
    snd (Reservation.safe_click (Reservation.smooth (stub_world calm))
           (Reservation.Element (Some 7%nat)) 3 [])
      = [] ++ evs /\
    Reservation.uncaught
      (fst (Reservation.safe_click (Reservation.smooth (stub_world calm))
              (Reservation.Element (Some 7%nat)) 3 []))
      evs /\
    fst (Reservation.safe_click (Reservation.smooth (stub_world calm))
           (Reservation.Element (Some 7%nat)) 3 [])
      <> Returns false /\
    (fst (Reservation.safe_click (Reservation.smooth (stub_world calm))
            (Reservation.Element (Some 7%nat)) 3 [])
       = Returns true ->
     evs = [Reservation.EvScript Reservation.HideOverlays (Ok tt);
            Reservation.EvScript (Reservation.ScrollIntoView (Some 7%nat)) (Ok tt);
            Reservation.EvSleep 300;
            Reservation.EvScript (Reservation.Click (Some 7%nat)) (Ok tt)]).
Proof.
  apply (proj2 (safe_click_single_try (Reservation.smooth (stub_world calm))
                  (Some 7%nat) 3 [])).
  lia.
Defined.

(** X16.  [click_and_wait] does not retry either.  With [retries] at least 1 it
    makes one pass: wait for the element to click, click it, wait for the
    expected element, and return [True]; if a wait times out or a script
    raises, the exception ends the call; it never pauses for another try
    and never returns [False].  With [retries] 0 or less it returns
    [False] at once. *)
Theorem click_and_wait_single_pass site click_locator expected_locator
    retries wait_time h :
  (retries <= 0 ->
   Reservation.click_and_wait site click_locator expected_locator
     retries wait_time h = (Returns false, h)) /\
  (1 <= retries ->
   exists evs,
     snd (Reservation.click_and_wait site click_locator expected_locator
            retries wait_time h) = h ++ evs /\
     Reservation.uncaught
       (fst (Reservation.click_and_wait site click_locator expected_locator
               retries wait_time h)) evs /\
     fst (Reservation.click_and_wait site click_locator expected_locator
            retries wait_time h) <> Returns false /\
     forallb (fun e => negb (Reservation.is_retry_pause e)) evs = true /\
     (fst (Reservation.click_and_wait site click_locator expected_locator
             retries wait_time h) = Returns true ->
      exists el el',
        evs = [Reservation.EvUntil click_locator wait_time
                 Reservation.element_to_be_clickable (Ok el);
               Reservation.EvScript Reservation.HideOverlays (Ok tt);
               Reservation.EvScript (Reservation.ScrollIntoView (Some el)) (Ok tt);
               Reservation.EvSleep 300;
               Reservation.EvScript (Reservation.Click (Some el)) (Ok tt);
               Reservation.EvUntil expected_locator wait_time
                 Reservation.visibility_of_element_located (Ok el')])).
Proof.
  split.
  - intros Hr. unfold Reservation.click_and_wait. rewrite (range_none retries Hr).
    reflexivity.
  - intros Hr. unfold Reservation.click_and_wait.
    destruct (range_first retries Hr) as (rest & ->).
    cbn [Reservation.for_each].
    unfold Reservation.safe_click, Reservation.wait_for_element,
      Reservation.remove_overlays, Reservation.scroll_to_element.
    change (py_range 0 (Z.to_nat 3)) with [0; 1; 2].
    change (Reservation.condition_of "clickable")
      with Reservation.element_to_be_clickable.
    change (Reservation.condition_of "visible")
      with Reservation.visibility_of_element_located.
    cbn [Reservation.for_each].
    rrun. cbv zeta.
    repeat (rbreak; cbn [fst snd Reservation.found negb]);
      rewrite <- ?app_assoc; cbn [app];
      eexists; (split; [reflexivity|]);
      (split; [|split; [discriminate|split; [reflexivity|try discriminate]]]).
    all: try (intros _; repeat match goal with u : unit |- _ => destruct u end;
              do 2 eexists; reflexivity).
    all: unfold Reservation.uncaught.
    all: try reflexivity.
    all: try (eexists [_; _; _; _; _], _; split; [reflexivity|]; split; reflexivity).
    all: try (eexists [_; _; _; _], _; split; [reflexivity|]; split; reflexivity).
    all: try (eexists [_; _], _; split; [reflexivity|]; split; reflexivity).
    all: try (eexists [_], _; split; [reflexivity|]; split; reflexivity).
    all: try (eexists [], _; split; [reflexivity|]; split; reflexivity).
Qed.

Lemma click_and_wait_single_pass_witness :
  exists evs,
    snd (Reservation.click_and_wait (Reservation.smooth (stub_world calm))
           Reservation.SEAT_SELECT_TAB Reservation.ROOM_LIST 3 15 [])
      = [] ++ evs /\
    Reservation.uncaught
      (fst (Reservation.click_and_wait (Reservation.smooth (stub_world calm))
              Reservation.SEAT_SELECT_TAB Reservation.ROOM_LIST 3 15 [])) evs /\
    fst (Reservation.click_and_wait (Reservation.smooth (stub_world calm))
           Reservation.SEAT_SELECT_TAB Reservation.ROOM_LIST 3 15 [])
      <> Returns false /\
    forallb (fun e => negb (Reservation.is_retry_pause e)) evs = true /\
    (fst (Reservation.click_and_wait (Reservation.smooth (stub_world calm))
            Reservation.SEAT_SELECT_TAB Reservation.ROOM_LIST 3 15 [])
       = Returns true ->
     exists el el',
       evs = [Reservation.EvUntil Reservation.SEAT_SELECT_TAB 15
                Reservation.element_to_be_clickable (Ok el);
              Reservation.EvScript Reservation.HideOverlays (Ok tt);
              Reservation.EvScript (Reservation.ScrollIntoView (Some el)) (Ok tt);
              Reservation.EvSleep 300;
              Reservation.EvScript (Reservation.Click (Some el)) (Ok tt);
              Reservation.EvUntil Reservation.ROOM_LIST 15
                Reservation.visibility_of_element_located (Ok el')]).
Proof.
  apply (proj2 (click_and_wait_single_pass
                  (Reservation.smooth (stub_world calm))
                  Reservation.SEAT_SELECT_TAB Reservation.ROOM_LIST 3 15 [])).
  lia.
Defined.

(** X17.  [select_seat] never falls back to another seat.  Only the first seat
    of the list is ever waited for: if it can be clicked the method
    returns [True]; if the wait times out, or a script raises, the
    exception ends the method before any other seat is tried.  It returns
    [False] exactly when the list is empty. *)
Theorem select_seat_first_only site seat_numbers h :
  exists evs,
    snd (Reservation.select_seat site seat_numbers h) = h ++ evs /\
    Reservation.uncaught (fst (Reservation.select_seat site seat_numbers h)) evs /\
    Reservation.seats_tried evs = firstn 1 seat_numbers /\
    (fst (Reservation.select_seat site seat_numbers h) = Returns false <->
     seat_numbers = []).
Proof.
  unfold Reservation.select_seat.
  destruct seat_numbers as [|seat_number rest]; cbn [Reservation.for_each firstn].
  - rrun. eexists. split; [reflexivity|]. repeat split; reflexivity.
  - unfold Reservation.safe_click, Reservation.wait_for_element,
      Reservation.remove_overlays, Reservation.scroll_to_element.
    change (py_range 0 (Z.to_nat 3)) with [0; 1; 2].
    change (Reservation.condition_of "clickable")
      with Reservation.element_to_be_clickable.
    cbn [Reservation.for_each].
    rrun. cbv zeta.
    repeat (rbreak; cbn [fst snd Reservation.found negb]);
      rewrite <- ?app_assoc; cbn [app];
      eexists; (split; [reflexivity|]);
      (split; [|split; [reflexivity|split; discriminate]]).
    all: unfold Reservation.uncaught.
    all: try reflexivity.
    all: try (eexists [_; _; _; _], _; split; [reflexivity|]; split; reflexivity).
    all: try (eexists [_; _], _; split; [reflexivity|]; split; reflexivity).
    all: try (eexists [_], _; split; [reflexivity|]; split; reflexivity).
    all: try (eexists [], _; split; [reflexivity|]; split; reflexivity).
Qed.

(** X18.  [reserve] catches nothing: on any page and any solver surface, every
    answer in its history let the flow go on, except the last one of a
    run that raised, which brought the exception the caller gets.  So a
    single wait that times out ends the reservation with
    [TimeoutException]. *)
Theorem reserve_catches_nothing site fuel seat_numbers :
  Reservation.uncaught
    (fst (Reservation.reserve site fuel seat_numbers []))
    (snd (Reservation.reserve site fuel seat_numbers [])) /\
  fst (Reservation.reserve (Reservation.seats_taken (stub_world calm)) 0
         [158; 160; 162] [])
    = Raises TimeoutException.
Proof.
  split.
  - destruct (reserve_flows site fuel seat_numbers []) as (evs & E & U & _).
    rewrite E. exact U.
  - vm_compute. reflexivity.
Qed.

Lemma before_facts pre :
  forallb Reservation.before_captcha pre = true ->
  Reservation.captcha_runs pre = [] /\
  filter Reservation.is_find pre = [] /\
  (forall m, In (Reservation.EvLogError m) pre -> m = Reservation.MsgNoSeat).
Proof.
  induction pre as [|e pre IH]; intros B.
  - repeat split. intros m [].
  - cbn [forallb] in B. apply andb_prop in B. destruct B as [B1 B2].
    destruct (IH B2) as (I1 & I2 & I3).
    cbn [Reservation.captcha_runs flat_map filter].
    fold (Reservation.captcha_runs pre). rewrite I1, app_nil_r.
    destruct e; try discriminate; cbn [Reservation.is_find];
      (split; [reflexivity|]); (split; [exact I2|]);
      intros m' [Hm|Hm]; try discriminate; auto.
    inversion Hm. subst. destruct m'; try discriminate. reflexivity.
Qed.

(** X19.  [reserve] returns [False] in two cases only: the list of seats is
    empty; or the slide-challenge solver, called once, returned [False],
    which is the last thing logged. *)
Theorem reserve_failure_causes site fuel seat_numbers :
  fst (Reservation.reserve site fuel seat_numbers []) = Returns false ->
  seat_numbers = [] \/
  exists pre solver,
    snd (Reservation.reserve site fuel seat_numbers [])
      = pre ++ [Reservation.EvCaptcha solver (Returns false);
                Reservation.EvLogError Reservation.MsgCaptchaFailed] /\
    Reservation.captcha_runs pre = [].
Proof.
  intros H.
  destruct (reserve_flows site fuel seat_numbers []) as (evs & E & _ & N).
  cbn [app] in E. rewrite E. rewrite H in N.
  destruct N as [(_ & _ & Hs)|(pre & solver & B & N)]; [left; auto|].
  right. exists pre, solver.
  destruct (before_facts pre B) as (C & _).
  destruct N as [(-> & _)|[(fm & -> & R)|[(exc & -> & R)|(-> & R)]]].
  - split; [reflexivity|exact C].
  - destruct fm; discriminate.
  - discriminate.
  - discriminate.
Qed.

Lemma reserve_failure_causes_witness :
  exists pre solver,
    snd (Reservation.reserve (Reservation.smooth (stub_world calm)) 1000
           [158] [])
      = pre ++ [Reservation.EvCaptcha solver (Returns false);
                Reservation.EvLogError Reservation.MsgCaptchaFailed] /\
    Reservation.captcha_runs pre = [].
Proof.
  destruct (reserve_failure_causes
              (Reservation.smooth (stub_world calm)) 1000 [158]) as [H|H].
  - vm_compute. reflexivity.
  - discriminate H.
  - exact H.
Defined.

(** X20.  [reserve] returns [True] only after the solver, called exactly once,
    returned [True] and the success message was then found. *)
Theorem reserve_success_path site fuel seat_numbers :
  fst (Reservation.reserve site fuel seat_numbers []) = Returns true ->
  exists pre solver message,
    snd (Reservation.reserve site fuel seat_numbers [])
      = pre ++ [Reservation.EvCaptcha solver (Returns true);
                Reservation.EvUntil Reservation.SUCCESS_MESSAGE 5
                  Reservation.presence_of_element_located (Ok message)] /\
    Reservation.captcha_runs pre = [].
Proof.
  intros H.
  destruct (reserve_flows site fuel seat_numbers []) as (evs & E & _ & N).
  cbn [app] in E. rewrite E. rewrite H in N.
  destruct N as [(_ & Nt & _)|(pre & solver & B & N)]; [congruence|].
  destruct (before_facts pre B) as (C & _).
  destruct N as [(-> & R)|[(fm & -> & R)|[(exc & -> & R)|(-> & R)]]];
    try discriminate.
  destruct fm as [message|exc]; [|discriminate].
  exists pre, solver, message. split; [reflexivity|exact C].
Qed.

Lemma reserve_success_path_witness :
  exists pre solver message,
    snd (Reservation.reserve (Reservation.smooth (stub_world popup_gone)) 1000
           [158; 160; 162] [])
      = pre ++ [Reservation.EvCaptcha solver (Returns true);
                Reservation.EvUntil Reservation.SUCCESS_MESSAGE 5
                  Reservation.presence_of_element_located (Ok message)] /\
    Reservation.captcha_runs pre = [].
Proof.
  apply (reserve_success_path (Reservation.smooth (stub_world popup_gone)) 1000
           [158; 160; 162]).
  vm_compute. reflexivity.
Defined.

(** X21.  Code of the reservation flow that never runs.  On any page and any
    solver surface: the popup query that [verify_success] keeps as a
    fallback is never made; of the fifteen error messages only two can be
    logged (no seat in the list, solver failed); and the solver is called
    at most once. *)
Theorem reserve_dead_branches site fuel seat_numbers :
  filter Reservation.is_find
    (snd (Reservation.reserve site fuel seat_numbers [])) = [] /\
  (forall m,
     In (Reservation.EvLogError m)
        (snd (Reservation.reserve site fuel seat_numbers [])) ->
     m = Reservation.MsgNoSeat \/ m = Reservation.MsgCaptchaFailed) /\
  (List.length
     (Reservation.captcha_runs
        (snd (Reservation.reserve site fuel seat_numbers []))) <= 1)%nat.
Proof.
  destruct (reserve_flows site fuel seat_numbers []) as (evs & E & _ & N).
  cbn [app] in E. rewrite E.
  assert (A : forall l, Reservation.captcha_runs (l ++ []) = Reservation.captcha_runs l)
    by (intros; now rewrite app_nil_r).
  destruct N as [(B & _)|(pre & solver & B & N)].
  - destruct (before_facts evs B) as (C & F & L).
    rewrite C, F. repeat split; auto.
  - destruct (before_facts pre B) as (C & F & L).
    assert (Happ : forall post,
      Reservation.captcha_runs (pre ++ post) = Reservation.captcha_runs post).
    { intros post. unfold Reservation.captcha_runs in *.
      now rewrite flat_map_app, C. }
    destruct N as [(-> & R)|[(fm & -> & R)|[(exc & -> & R)|(-> & R)]]];
      rewrite filter_app, F, Happ; cbn [app filter Reservation.is_find];
      (split; [reflexivity|]); (split; [|cbn; lia]);
      intros m Hm; apply in_app_or in Hm; destruct Hm as [Hm|Hm];
      try (left; now apply L);
      cbn [In] in Hm;
      repeat match goal with H : _ \/ _ |- _ => destruct H end;
      try discriminate; try contradiction.
    inversion H. now right.
Qed.

